(** * goflyway: the SOCKS5 UDP relay bridge (proxy/udp.go)

    A shallow embedding of [parseUDPHeader], of the framing reader and
    writer of [udpBridgeConn] and of the supervision loop of
    [handleUDPtoTCP], with the properties of the relay stated over it.

    Modelling conventions.
    - A Go [byte] is a [Byte.byte]; a Go [int] is a [Z] (every integer of
      this file is a length or a 16-bit quantity, far from the 64-bit
      range); [uint16(x)] is [x mod 65536] and [byte(x)] is [x mod 256].
    - A run-time panic is a result of its own ([Panicked]), never an error
      value; the state reached when the panic is raised is kept.
    - [Write] is modelled twice. In the first model a chunk is a value (a
      [list byte]): what the writer keeps of a chunk is not overwritten by
      its caller. In the second one ([Mem]) a chunk is a slice into a store
      of arrays and the writer keeps references; the two agree on chunks
      that are consecutive slices of one array, and differ for a caller
      that reuses its buffer.
    - The logger takes no part in the properties and is left out; of the
      methods of [uAddr], [HostString] and [String] are modelled over the
      two library functions they call. *)

From Stdlib Require Import ZArith List Bool Lia PeanoNat.
From Stdlib Require Import Strings.Byte.
Import ListNotations.

Local Open Scope Z_scope.

(** ** Bytes and big-endian 16-bit integers *)

Module Bytes.

Definition byte_val (b : byte) : Z := Z.of_N (Byte.to_N b).

(** Go's conversion [byte(z)]: truncation to the low eight bits. *)
Definition byte_of (z : Z) : byte :=
  match Byte.of_N (Z.to_N (z mod 256)) with
  | Some b => b
  | None => x00
  end.

(** Go's conversion [uint16(z)]. *)
Definition uint16 (z : Z) : Z := z mod 65536.

(** [binary.BigEndian.Uint16] on the two bytes it reads. *)
Definition Uint16 (b0 b1 : byte) : Z :=
  Z.lor (byte_val b1) (Z.shiftl (byte_val b0) 8).

(** [binary.BigEndian.PutUint16]: the two bytes it stores. *)
Definition PutUint16_bytes (v : Z) : list byte :=
  [byte_of (Z.shiftr v 8); byte_of v].

Definition len {A : Type} (l : list A) : Z := Z.of_nat (length l).

Definition zeros (n : Z) : list byte := repeat x00 (Z.to_nat n).

(** [copy(dst, src)]: the destination after the copy; [min] of the two
    lengths is copied. *)
Definition copy (dst src : list byte) : list byte :=
  firstn (length dst) src ++ skipn (length src) dst.

(** [copy(xs[lo:], src)] seen from [xs]. *)
Definition copy_at (xs : list byte) (lo : nat) (src : list byte) : list byte :=
  firstn lo xs ++ copy (skipn lo xs) src.

(** [copy(xs[lo:hi], src)] seen from [xs]. *)
Definition copy_in (xs : list byte) (lo hi : nat) (src : list byte) : list byte :=
  firstn lo xs ++ copy (firstn (hi - lo) (skipn lo xs)) src ++ skipn hi xs.

(** [s[lo:hi]] of a slice whose length and capacity agree. *)
Definition sub (xs : list byte) (lo hi : nat) : list byte :=
  firstn (hi - lo) (skipn lo xs).

End Bytes.

Import Bytes.

(** ** Errors, panics and outcomes *)

Inductive error : Type :=
| ErrNotSOCKS5 (got : byte)          (* "expect SOCKS5, got %v" *)
| ErrInvalidMethod (got : byte)      (* "invalid method for UDP relay: %v" *)
| ErrInvalidAddrType (got : byte)    (* "invalid address type: %v" *)
| EOF                                (* io.EOF *)
| ErrUnexpectedEOF                   (* io.ErrUnexpectedEOF *)
| ErrShortBuffer                     (* io.ErrShortBuffer *)
| ErrNet                             (* an error of the socket *)
| ErrDial.                           (* an error of DialUpstream *)

Inductive panic : Type :=
| PanicPacketSize      (* the explicit panic of Read *)
| PanicIndex           (* index out of range *)
| PanicSliceBounds     (* slice bounds out of range *)
| PanicNilDeref.       (* method call on a nil interface *)

Inductive outcome (A : Type) : Type :=
| Done (a : A)
| Panicked (p : panic).

Arguments Done {A} a.
Arguments Panicked {A} p.

Definition bind {A B : Type} (m : outcome A) (k : A -> outcome B) : outcome B :=
  match m with
  | Done a => k a
  | Panicked p => Panicked p
  end.

Notation "x <- m ;; k" := (bind m (fun x => k))
  (at level 61, m at next level, right associativity).

(** [xs[i]]. *)
Definition index (xs : list byte) (i : nat) : outcome byte :=
  match nth_error xs i with
  | Some b => Done b
  | None => Panicked PanicIndex
  end.

(** [xs[lo:]] where [cap = len]. *)
Definition slice_from (xs : list byte) (lo : Z) : outcome (list byte) :=
  if (0 <=? lo) && (lo <=? len xs) then Done (skipn (Z.to_nat lo) xs)
  else Panicked PanicSliceBounds.

(** [xs[:hi]] where [cap = len]. *)
Definition slice_to (xs : list byte) (hi : Z) : outcome (list byte) :=
  if (0 <=? hi) && (hi <=? len xs) then Done (firstn (Z.to_nat hi) xs)
  else Panicked PanicSliceBounds.

(** [binary.BigEndian.PutUint16(xs[lo:], v)]: the slice expression, the
    bounds check of PutUint16 ([_ = b[1]]), then the two stores. *)
Definition PutUint16_at (xs : list byte) (lo : Z) (v : Z) : outcome (list byte) :=
  tl <- slice_from xs lo ;;
  if len tl <? 2 then Panicked PanicIndex
  else Done (copy_at xs (Z.to_nat lo) (PutUint16_bytes v)).

(** [binary.BigEndian.Uint16(xs)]. *)
Definition Uint16_of (xs : list byte) : outcome Z :=
  match xs with
  | b0 :: b1 :: _ => Done (Uint16 b0 b1)
  | _ => Panicked PanicIndex
  end.

(** [xs[lo:hi]] where the capacity is the length of [xs]. *)
Definition slice_of (xs : list byte) (lo hi : Z) : outcome (list byte) :=
  if (0 <=? lo) && (lo <=? hi) && (hi <=? len xs)
  then Done (sub xs (Z.to_nat lo) (Z.to_nat hi))
  else Panicked PanicSliceBounds.

(** ** The SOCKS5 UDP header: [uAddr] and [parseUDPHeader] *)

Record uAddr : Type := mkAddr {
  ip   : option (list byte);   (* net.IP, [None] is nil *)
  host : list byte;            (* a Go string, as its bytes *)
  port : Z;
  size : Z
}.

(** Modelled from the spec: the constants [socksVersion5], [socksAddrIPv4],
    [socksAddrDomain] and [socksAddrIPv6] are declared outside udp.go; the
    wire format of the spec gives version 5 and the address types
    1 (IPv4), 3 (domain) and 4 (IPv6). *)
Definition socksVersion5 : byte := x05.
Definition socksAddrIPv4 : byte := x01.
Definition socksAddrDomain : byte := x03.
Definition socksAddrIPv6 : byte := x04.

Definition IPv4len : Z := 4.
Definition IPv6len : Z := 16.

(** *** The host and the address as strings *)

Section AddrStrings.

(** [net.IP.String] and [strconv.Itoa], of the Go library. *)
Variable IP_String : list byte -> list byte.
Variable Itoa : Z -> list byte.

(** [strings.Contains(s, ":")]. *)
Definition has_colon (s : list byte) : bool := existsb (Byte.eqb x3a) s.

(** [uAddr.HostString]; the second operand of [&&] is evaluated only
    when the first is true. *)
Definition HostString (a : uAddr) : outcome (list byte) :=
  match ip a with
  | Some i =>
      if len i =? IPv4len then Done (IP_String i)
      else Done ([x5b] ++ IP_String i ++ [x5d])
  | None =>
      brackets <- (if has_colon (host a)
                   then h0 <- index (host a) 0 ;; Done (negb (Byte.eqb h0 x5b))
                   else Done false) ;;
      if brackets then Done ([x5b] ++ host a ++ [x5d]) else Done (host a)
  end.

(** [uAddr.String]. *)
Definition String (a : uAddr) : outcome (list byte) :=
  hs <- HostString a ;; Done (hs ++ [x3a] ++ Itoa (port a)).

End AddrStrings.

(** A [net.Conn] that is read from: the chunks its successive [Read]
    calls deliver, then end of file. *)
Definition Conn : Type := list (list byte).

(** The loop of [io.ReadAtLeast]: [r.Read(buf[n:])] until [n >= min] or an
    error. A chunk longer than the room left stays in the stream with its
    unread part; the buffer is then full, which ends the loop. *)
Fixpoint read_loop (ch : Conn) (buf : list byte) (n min : nat)
  : Conn * list byte * nat * option error :=
  if (min <=? n)%nat then (ch, buf, n, None)
  else match ch with
       | [] => (ch, buf, n, Some EOF)
       | c :: rest =>
           let room := (length buf - n)%nat in
           if (length c <=? room)%nat
           then read_loop rest (copy_at buf n c) (n + length c) min
           else (skipn room c :: rest, copy_at buf n (firstn room c),
                 (n + room)%nat, None)
       end.

Definition ReadAtLeast (ch : Conn) (buf : list byte) (min : nat)
  : Conn * list byte * nat * option error :=
  if (length buf <? min)%nat then (ch, buf, 0%nat, Some ErrShortBuffer)
  else
    let '(ch', buf', n, err) := read_loop ch buf 0 min in
    if (min <=? n)%nat then (ch', buf', n, None)
    else match err with
         | Some EOF => (ch', buf', n, Some (if (0 <? n)%nat then ErrUnexpectedEOF else EOF))
         | _ => (ch', buf', n, err)
         end.

Definition ReadFull (ch : Conn) (buf : list byte) :=
  ReadAtLeast ch buf (length buf).

(** What [parseUDPHeader] leaves behind: the connection, the backing
    array of the buffer it worked on, and what it returned. *)
Record parsed : Type := mkParsed {
  p_conn : option Conn;
  p_arr  : list byte;
  p_out  : outcome (byte * option uAddr * option error)
}.

(** Lines 73-81: the version and command checks. *)
Definition header_check (buf : list byte) (omitCheck : bool)
  : outcome (option error) :=
  if omitCheck then Done None
  else
    b0 <- index buf 0 ;;
    if negb (Byte.eqb b0 socksVersion5) then Done (Some (ErrNotSOCKS5 b0))
    else
      b1 <- index buf 1 ;;
      if negb (Byte.eqb b1 x01) && negb (Byte.eqb b1 x03)
      then Done (Some (ErrInvalidMethod b1))
      else Done None.

(** Lines 84-93: the first switch on [buf[3]]. *)
Definition addr_size (buf : list byte) : outcome (Z + error) :=
  t <- index buf 3 ;;
  if Byte.eqb t socksAddrIPv4 then Done (inl (3 + 1 + IPv4len + 2))
  else if Byte.eqb t socksAddrIPv6 then Done (inl (3 + 1 + IPv6len + 2))
  else if Byte.eqb t socksAddrDomain then
    l <- index buf 4 ;;
    Done (inl (3 + 1 + 1 + byte_val l + 2))
  else Done (inr (ErrInvalidAddrType t)).

(** Lines 105-117, on the backing array [arr] of a buffer of length
    [blen]: the slice expressions may reach into the capacity, the index
    expressions may not. *)
Definition extract_addr (arr : list byte) (blen : nat) (sz : Z)
  : outcome (byte * option uAddr * option error) :=
  let buf := firstn blen arr in
  rawaddr <- slice_of arr 3 (sz - 2) ;;
  pb <- slice_of arr (sz - 2) sz ;;
  p <- Uint16_of pb ;;
  t <- index buf 3 ;;
  a <- (if Byte.eqb t socksAddrIPv4 || Byte.eqb t socksAddrIPv6 then
          r <- slice_from rawaddr 1 ;;
          Done (mkAddr (Some r) [] p sz)
        else
          r <- slice_from rawaddr 2 ;;
          Done (mkAddr None r p sz)) ;;
  m <- index buf 1 ;;
  Done (m, Some a, None).

(** Lines 73-117: [buf] is the first [blen] bytes of [arr], [n] is the
    number of bytes already read into it. *)
Definition parse_body (conn : option Conn) (arr : list byte) (blen : nat)
  (n : Z) (omitCheck : bool) : parsed :=
  let buf := firstn blen arr in
  let stop o := mkParsed conn arr o in
  match header_check buf omitCheck with
  | Panicked p => stop (Panicked p)
  | Done (Some e) => stop (Done (x00, None, Some e))
  | Done None =>
      match addr_size buf with
      | Panicked p => stop (Panicked p)
      | Done (inr e) => stop (Done (x00, None, Some e))
      | Done (inl sz) =>
          match conn with
          | Some ch =>
              match slice_of arr n sz with
              | Panicked p => stop (Panicked p)
              | Done region =>
                  let '(ch', region', _, err) := ReadFull ch region in
                  let arr' := firstn (Z.to_nat n) arr ++ region'
                              ++ skipn (Z.to_nat sz) arr in
                  match err with
                  | Some e =>
                      mkParsed (Some ch') arr'
                        (Done (x00, Some (mkAddr None [] 0 sz), Some e))
                  | None =>
                      mkParsed (Some ch') arr' (extract_addr arr' blen sz)
                  end
              end
          | None =>
              if len buf <? sz then stop (Done (x00, None, Some EOF))
              else stop (extract_addr arr blen sz)
          end
      end
  end.

(** A slice with the part of its backing array beyond its length. *)
Record slice : Type := mkSlice {
  elems : list byte;
  spare : list byte
}.

(** [parseUDPHeader(conn, buf, omitCheck)]; [buf = None] is the nil slice. *)
Definition parseUDPHeader (conn : option Conn) (buf : option slice)
  (omitCheck : bool) : parsed :=
  match buf with
  | Some b => parse_body conn (elems b ++ spare b) (length (elems b)) 0 omitCheck
  | None =>
      let fresh := zeros (256 + 3 + 1 + 1 + 2) in
      match conn with
      | None => mkParsed conn fresh (Panicked PanicNilDeref)
      | Some ch =>
          let '(ch', arr, n, err) :=
            ReadAtLeast ch fresh (Z.to_nat (3 + 1 + IPv4len + 2)) in
          match err with
          | Some e => mkParsed (Some ch') arr (Done (x00, None, Some e))
          | None => parse_body (Some ch') arr (length arr) (Z.of_nat n) omitCheck
          end
      end
  end.

(** ** The shared UDP socket *)

Record NetAddr : Type := mkNetAddr {
  a_ip : list byte;
  a_port : Z
}.

(** What the next [ReadFrom] of the socket finds. *)
Inductive arrival : Type :=
| Datagram (d : list byte) (src : NetAddr)
| RecvFail.

(** The socket as the bridge sees it: the datagrams still to arrive, the
    datagrams sent so far (with the address of [WriteTo], or [None] for
    [Write]), and for each coming send whether it fails. An exhausted
    [inbox] stands for a socket that was closed under the reader. *)
Record UDPConn : Type := mkUDP {
  inbox : list arrival;
  outbox : list (option NetAddr * list byte);
  faults : list bool;
  sock_closed : bool
}.

Definition ReadFrom (s : UDPConn) (b : list byte)
  : UDPConn * list byte * Z * option NetAddr * option error :=
  match inbox s with
  | [] => (s, b, 0, None, Some ErrNet)
  | RecvFail :: rest =>
      (mkUDP rest (outbox s) (faults s) (sock_closed s), b, 0, None, Some ErrNet)
  | Datagram d src :: rest =>
      (mkUDP rest (outbox s) (faults s) (sock_closed s),
       copy b d, Z.min (len d) (len b), Some src, None)
  end.

(** [Write] ([to = None]) and [WriteTo] of the socket. *)
Definition send (s : UDPConn) (to : option NetAddr) (d : list byte)
  : UDPConn * Z * option error :=
  match faults s with
  | true :: f => (mkUDP (inbox s) (outbox s) f (sock_closed s), 0, Some ErrNet)
  | _ => (mkUDP (inbox s) (outbox s ++ [(to, d)]) (tl (faults s)) (sock_closed s),
          len d, None)
  end.

(** ** [udpBridgeConn] *)

Record udpBridgeConn : Type := mkBridge {
  udpSrc : option NetAddr;
  initBuf : option (list byte);
  wm_buf : list byte;           (* waitingMore.buf *)
  wm_remain : Z;                (* waitingMore.remain *)
  incompleteLen : bool;
  socks : bool;
  closed : bool;
  dst : option uAddr
}.

Definition set_udpSrc (c : udpBridgeConn) (v : option NetAddr) :=
  mkBridge v (initBuf c) (wm_buf c) (wm_remain c) (incompleteLen c)
    (socks c) (closed c) (dst c).
Definition set_initBuf (c : udpBridgeConn) (v : option (list byte)) :=
  mkBridge (udpSrc c) v (wm_buf c) (wm_remain c) (incompleteLen c)
    (socks c) (closed c) (dst c).
Definition set_wm_buf (c : udpBridgeConn) (v : list byte) :=
  mkBridge (udpSrc c) (initBuf c) v (wm_remain c) (incompleteLen c)
    (socks c) (closed c) (dst c).
Definition set_wm_remain (c : udpBridgeConn) (v : Z) :=
  mkBridge (udpSrc c) (initBuf c) (wm_buf c) v (incompleteLen c)
    (socks c) (closed c) (dst c).
Definition set_incompleteLen (c : udpBridgeConn) (v : bool) :=
  mkBridge (udpSrc c) (initBuf c) (wm_buf c) (wm_remain c) v
    (socks c) (closed c) (dst c).
Definition set_closed (c : udpBridgeConn) (v : bool) :=
  mkBridge (udpSrc c) (initBuf c) (wm_buf c) (wm_remain c) (incompleteLen c)
    (socks c) v (dst c).

(** *** [Read] *)

Definition expectedMaxPacketSize : Z := 2050.

Record read_result : Type := mkRead {
  r_conn : udpBridgeConn;
  r_sock : UDPConn;
  r_buf : list byte;
  r_out : outcome (Z * option error)
}.

(** The label PUT_HEADER. *)
Definition PUT_HEADER (c : udpBridgeConn) (s : UDPConn) (b : list byte)
  (n : Z) (err : option error) : read_result :=
  match PutUint16_at b 0 (uint16 n) with
  | Panicked p => mkRead c s b (Panicked p)
  | Done b' => mkRead c s b' (Done (n + 2, err))
  end.

Definition Read (c : udpBridgeConn) (s : UDPConn) (b : list byte) : read_result :=
  if len b <? expectedMaxPacketSize then mkRead c s b (Panicked PanicPacketSize)
  else
    match initBuf c with
    | Some ib =>
        PUT_HEADER (set_initBuf c None) s (copy_at b 2 ib) (len ib) None
    | None =>
        let '(s1, b1, n, src, err) := ReadFrom s b in
        let c1 := set_udpSrc c src in
        match err with
        | Some e => mkRead c1 s1 b1 (Done (n, Some e))
        | None =>
            if socks c1 then
              let bn := mkSlice (firstn (Z.to_nat n) b1) (skipn (Z.to_nat n) b1) in
              match p_out (parseUDPHeader None (Some bn) true) with
              | Panicked p => mkRead c1 s1 b1 (Panicked p)
              | Done (_, _, Some e) => mkRead c1 s1 b1 (Done (0, Some e))
              | Done (_, None, None) => mkRead c1 s1 b1 (Panicked PanicNilDeref)
              | Done (_, Some d, None) =>
                  match slice_of b1 (size d) n with
                  | Panicked p => mkRead c1 s1 b1 (Panicked p)
                  | Done payload =>
                      PUT_HEADER c1 s1 (copy_at b1 2 payload) (n - size d) None
                  end
              end
            else
              PUT_HEADER c1 s1 (copy_at b1 2 (firstn (Z.to_nat n) b1)) n None
        end
    end.

(** [xs[i] = v]. *)
Definition store (xs : list byte) (i : nat) (v : byte) : outcome (list byte) :=
  if (i <? length xs)%nat then Done (firstn i xs ++ v :: skipn (S i) xs)
  else Panicked PanicIndex.

Section Bridge.

(** The header templates [udpHeaderIPv4] and [udpHeaderIPv6] are declared
    outside udp.go. *)
Variable udpHeaderIPv4 : list byte.
Variable udpHeaderIPv6 : list byte.

(** *** [write]: one frame payload to the socket *)

(** Lines 189-218: the datagram buffer and the header length. *)
Definition wrap (d : uAddr) (b : list byte) : outcome (list byte * Z) :=
  let xbuf := zeros (len b + 256) in
  if negb (len (host d) =? 0) then
    let hl := len (host d) in
    x1 <- store xbuf 3 x03 ;;
    x2 <- store x1 4 (byte_of hl) ;;
    _ <- slice_from x2 5 ;;
    let x3 := copy_at x2 5 (host d) in
    x4 <- PutUint16_at x3 (5 + hl) (uint16 (port d)) ;;
    let ln := 5 + hl + 2 in
    _ <- slice_from x4 ln ;;
    Done (copy_at x4 (Z.to_nat ln) b, ln)
  else
    let ipb := match ip d with Some i => i | None => [] end in
    if len ipb =? IPv4len then
      let ln := len udpHeaderIPv4 in
      let x1 := copy xbuf udpHeaderIPv4 in
      _ <- slice_of x1 4 8 ;;
      let x2 := copy_in x1 4 8 ipb in
      x3 <- PutUint16_at x2 8 (uint16 (port d)) ;;
      _ <- slice_from x3 ln ;;
      Done (copy_at x3 (Z.to_nat ln) b, ln)
    else
      let ln := len udpHeaderIPv6 in
      let x1 := copy xbuf udpHeaderIPv6 in
      _ <- slice_of x1 4 20 ;;
      let x2 := copy_in x1 4 20 ipb in
      x3 <- PutUint16_at x2 20 (uint16 (port d)) ;;
      _ <- slice_from x3 ln ;;
      Done (copy_at x3 (Z.to_nat ln) b, ln).

Definition write (c : udpBridgeConn) (s : UDPConn) (b : list byte)
  : UDPConn * outcome (Z * option error) :=
  if negb (socks c) then
    let '(s', n, err) := send s None b in
    (s', Done (match err with None => n + 2 | Some _ => n end, err))
  else
    match udpSrc c with
    | None => (s, Done (0, None))
    | Some src =>
        match dst c with
        | None => (s, Panicked PanicNilDeref)
        | Some d =>
            match (xl <- wrap d b ;;
                   pkt <- slice_to (fst xl) (snd xl + len b) ;;
                   Done (pkt, snd xl)) with
            | Panicked p => (s, Panicked p)
            | Done (pkt, ln) =>
                let '(s', n, err) := send s (Some src) pkt in
                (s', Done (match err with None => n + (2 - ln) | Some _ => n end, err))
            end
        end
    end.

(** *** [Write]: the reassembly of frames *)

Record write_result : Type := mkWrite {
  w_conn : udpBridgeConn;
  w_sock : UDPConn;
  w_out : outcome (Z * option error)
}.

(** The deferred function: [b] is the variable [b] as it is when the
    function returns. *)
Definition deferred (b : list byte) (r : write_result) : write_result :=
  match w_out r with
  | Done (_, None) => mkWrite (w_conn r) (w_sock r) (Done (len b, None))
  | _ => r
  end.

(** [return c.write(payload)]. *)
Definition return_write (c : udpBridgeConn) (s : UDPConn) (payload : list byte)
  : write_result :=
  let '(s', o) := write c s payload in mkWrite c s' o.

Section WriteBody.

(** The recursive call [c.Write]. *)
Variable rec : udpBridgeConn -> UDPConn -> list byte -> option write_result.

(** From the label TEST to the end. *)
Definition Write_TEST (c : udpBridgeConn) (s : UDPConn) (b : list byte)
  (ln : Z) (buf : list byte) : option write_result :=
  if len buf <? ln then
    Some (mkWrite (set_wm_remain (set_wm_buf c buf) (ln - len buf)) s
            (Done (len b, None)))
  else if len buf =? ln then Some (return_write c s buf)
  else
    match write c s (firstn (Z.to_nat ln) buf) with
    | (s', Panicked p) => Some (mkWrite c s' (Panicked p))
    | (s', Done (n, Some e)) => Some (mkWrite c s' (Done (n, Some e)))
    | (s', Done (_, None)) => rec c s' (skipn (Z.to_nat ln) buf)
    end.

(** Lines 279-287, then TEST. *)
Definition Write_parse (c : udpBridgeConn) (s : UDPConn) (b : list byte)
  : option write_result :=
  if len b =? 1 then
    Some (mkWrite (set_incompleteLen (set_wm_buf c b) true) s (Done (1, None)))
  else
    match Uint16_of b with
    | Panicked p => Some (mkWrite c s (Panicked p))
    | Done ln =>
        match slice_from b 2 with
        | Panicked p => Some (mkWrite c s (Panicked p))
        | Done buf => Write_TEST c s b ln buf
        end
    end.

(** The body of [Write]; the deferred function runs on every return with
    the current value of the variable [b]. *)
Definition Write_body (c : udpBridgeConn) (s : UDPConn) (b : list byte)
  : option write_result :=
  if len b =? 0 then Some (deferred b (mkWrite c s (Done (0, None))))
  else if incompleteLen c then
    let c1 := set_incompleteLen c false in
    match index (wm_buf c1) 0, b with
    | Done h, b0 :: rest =>
        option_map (deferred b) (Write_TEST c1 s b (Uint16 h b0) rest)
    | Panicked p, _ => Some (mkWrite c1 s (Panicked p))
    | _, [] => Some (mkWrite c1 s (Panicked PanicIndex))
    end
  else if 0 <? wm_remain c then
    let remain := wm_remain c in
    let c1 := set_wm_remain c (wm_remain c - len b) in
    if wm_remain c1 =? 0 then
      Some (deferred b (return_write c1 s (wm_buf c1 ++ b)))
    else if 0 <? wm_remain c1 then
      Some (deferred b (mkWrite (set_wm_buf c1 (wm_buf c1 ++ b)) s
                          (Done (len b, None))))
    else
      match write c1 s (wm_buf c1 ++ firstn (Z.to_nat remain) b) with
      | (s', Panicked p) => Some (mkWrite c1 s' (Panicked p))
      | (s', Done (n, Some e)) => Some (mkWrite c1 s' (Done (n, Some e)))
      | (s', Done (_, None)) =>
          let b' := skipn (Z.to_nat remain) b in
          option_map (deferred b') (Write_parse c1 s' b')
      end
  else option_map (deferred b) (Write_parse c s b).

End WriteBody.

(** [Write] with the depth of its recursion bounded by [fuel]; [None]
    when the bound is reached. *)
Fixpoint Write_fuel (fuel : nat) (c : udpBridgeConn) (s : UDPConn)
  (b : list byte) : option write_result :=
  match fuel with
  | O => None
  | S fuel' => Write_body (Write_fuel fuel') c s b
  end.

(** Every recursive call is on a strictly shorter chunk. *)
Definition Write (c : udpBridgeConn) (s : UDPConn) (b : list byte)
  : option write_result :=
  Write_fuel (S (length b)) c s b.

(** [Close]. *)
Definition Close (c : udpBridgeConn) (s : UDPConn) : udpBridgeConn * UDPConn :=
  (set_closed c true, mkUDP (inbox s) (outbox s) (faults s) true).

End Bridge.

(** ** [handleUDPtoTCP]: the pool and its supervision *)

(** Modelled from the spec: [DialUpstream] is declared outside udp.go. It
    is given the member as the local end point of the tunnel; when the dial
    fails it returns an error and the member "is simply left unused": the
    member is as it was, and no task runs on it. *)
Definition DialUpstream_failing (m : udpBridgeConn)
  : udpBridgeConn * option error :=
  (m, Some ErrDial).

(** Lines 347-358: the member [i] of the pool; [seed] is
    [buf[dst.size:n]] of the first datagram. *)
Definition member (src : option NetAddr) (d : uAddr) (seed : list byte)
  (i : nat) : udpBridgeConn :=
  mkBridge src (if (i =? 0)%nat then Some seed else None)
    [] 0 false true false (Some d).

(** Lines 346-364: the members after the dials; an error of a dial is
    logged and nothing else. *)
Definition pool (dial : udpBridgeConn -> udpBridgeConn * option error)
  (src : option NetAddr) (d : uAddr) (seed : list byte) (maxConns : nat)
  : list udpBridgeConn :=
  map (fun i => fst (dial (member src d seed i))) (seq 0 maxConns).

Definition count_closed (srcs : list udpBridgeConn) : nat :=
  length (filter closed srcs).

(** Lines 367-380, for at most [polls] rounds. During the second that the
    loop sleeps the tasks of the tunnels run: [tick] is what they do to
    the members. [Some k]: the loop is left after [k] sleeps; [None]: it
    is still polling after [polls] rounds. *)
Fixpoint supervise (tick : list udpBridgeConn -> list udpBridgeConn)
  (polls : nat) (srcs : list udpBridgeConn) (maxConns : nat) : option nat :=
  match polls with
  | O => None
  | S k =>
      if (count_closed srcs =? maxConns)%nat then Some 0%nat
      else option_map S (supervise tick k (tick srcs) maxConns)
  end.

Inductive relay_end : Type :=
| FirstReadFailed (e : error)
| ParseFailed (e : error)
| RelayPanicked (p : panic)
| StillPolling
| RelayClosed (sleeps : nat).

(** [handleUDPtoTCP] from the first [ReadFrom] on (the reply written to
    the client before it is not modelled). *)
Definition handleUDPtoTCP
  (dial : udpBridgeConn -> udpBridgeConn * option error)
  (tick : list udpBridgeConn -> list udpBridgeConn) (polls : nat)
  (relay : UDPConn) (maxConns : nat) : relay_end :=
  let '(relay1, buf, n, src, err) := ReadFrom relay (zeros 2048) in
  match err with
  | Some e => FirstReadFailed e
  | None =>
      let bn := mkSlice (firstn (Z.to_nat n) buf) (skipn (Z.to_nat n) buf) in
      match p_out (parseUDPHeader None (Some bn) true) with
      | Panicked p => RelayPanicked p
      | Done (_, _, Some e) => ParseFailed e
      | Done (_, None, None) => RelayPanicked PanicNilDeref
      | Done (_, Some d, None) =>
          match slice_of buf (size d) n with
          | Panicked p => RelayPanicked p
          | Done seed =>
              match supervise tick polls (pool dial src d seed maxConns) maxConns with
              | Some k => RelayClosed k
              | None => StillPolling
              end
          end
      end
  end.

(** Modelled from the spec: the templates [udpHeaderIPv4] and
    [udpHeaderIPv6] are declared outside udp.go; they are "a fixed template
    header with IP bytes and port substituted" in the wire format of the
    spec: three zero bytes, the address type, and zero bytes where [write]
    puts the address (offsets 4 to 8, or 4 to 20) and the port. *)
Definition template_IPv4 : list byte :=
  [x00; x00; x00; socksAddrIPv4] ++ zeros 4 ++ zeros 2.
Definition template_IPv6 : list byte :=
  [x00; x00; x00; socksAddrIPv6] ++ zeros 16 ++ zeros 2.

(** ** [Write] over a shared store

    The writer keeps the slices it is given ([c.waitingMore.buf = b],
    [= buf]) and appends to them. Here the chunks are slices into a store
    of arrays, and what the writer keeps is a reference into it. *)

Module Mem.

(** A slice: its array, the offset of its first element, its length and
    its capacity (both counted from the offset). *)
Record slice : Type := mkS {
  arr : nat;
  off : nat;
  slen : nat;
  scap : nat
}.

(** [x[lo:hi]]. *)
Definition reslice (x : slice) (lo hi : nat) : slice :=
  mkS (arr x) (off x + lo) (hi - lo) (scap x - lo).

Definition heap : Type := list (list byte).

Definition array (h : heap) (a : nat) : list byte := nth a h [].

Definition load (h : heap) (x : slice) : list byte :=
  firstn (slen x) (skipn (off x) (array h (arr x))).

Definition set_array (h : heap) (a : nat) (v : list byte) : heap :=
  firstn a h ++ v :: skipn (S a) h.

(** [append(x, ys...)]: in place when the capacity allows, in a fresh
    array otherwise (modelled with no capacity to spare). *)
Definition append (h : heap) (x : option slice) (ys : list byte)
  : heap * option slice :=
  match x with
  | None =>
      match ys with
      | [] => (h, None)
      | _ => (h ++ [ys], Some (mkS (length h) 0 (length ys) (length ys)))
      end
  | Some x =>
      if (slen x + length ys <=? scap x)%nat then
        (set_array h (arr x) (copy_at (array h (arr x)) (off x + slen x) ys),
         Some (mkS (arr x) (off x) (slen x + length ys) (scap x)))
      else
        (h ++ [load h x ++ ys],
         Some (mkS (length h) 0 (slen x + length ys) (slen x + length ys)))
  end.

Definition load_opt (h : heap) (x : option slice) : list byte :=
  match x with
  | Some x => load h x
  | None => []
  end.

(** The connection with [waitingMore.buf] as a slice; the field [wm_buf]
    of [m_conn] is not used. *)
Record mconn : Type := mkMC {
  m_conn : udpBridgeConn;
  m_buf : option slice
}.

Record mresult : Type := mkM {
  m_heap : heap;
  m_state : mconn;
  m_sock : UDPConn;
  m_out : outcome (Z * option error)
}.

Definition upd (mc : mconn) (f : udpBridgeConn -> udpBridgeConn) : mconn :=
  mkMC (f (m_conn mc)) (m_buf mc).

Definition sl (x : slice) : Z := Z.of_nat (slen x).

Definition mdeferred (b : slice) (r : mresult) : mresult :=
  match m_out r with
  | Done (_, None) => mkM (m_heap r) (m_state r) (m_sock r) (Done (sl b, None))
  | _ => r
  end.

Section MemWrite.

Variables h4 h6 : list byte.

Definition mreturn_write (h : heap) (mc : mconn) (s : UDPConn)
  (payload : list byte) : mresult :=
  let '(s', o) := write h4 h6 (m_conn mc) s payload in mkM h mc s' o.

Variable rec : heap -> mconn -> UDPConn -> slice -> option mresult.

Definition mTEST (h : heap) (mc : mconn) (s : UDPConn) (b : slice)
  (ln : Z) (buf : slice) : option mresult :=
  if sl buf <? ln then
    Some (mkM h (mkMC (set_wm_remain (m_conn mc) (ln - sl buf)) (Some buf)) s
            (Done (sl b, None)))
  else if sl buf =? ln then Some (mreturn_write h mc s (load h buf))
  else
    match write h4 h6 (m_conn mc) s (load h (reslice buf 0 (Z.to_nat ln))) with
    | (s', Panicked p) => Some (mkM h mc s' (Panicked p))
    | (s', Done (n, Some e)) => Some (mkM h mc s' (Done (n, Some e)))
    | (s', Done (_, None)) => rec h mc s' (reslice buf (Z.to_nat ln) (slen buf))
    end.

Definition mparse (h : heap) (mc : mconn) (s : UDPConn) (b : slice)
  : option mresult :=
  if sl b =? 1 then
    Some (mkM h (mkMC (set_incompleteLen (m_conn mc) true) (Some b)) s
            (Done (1, None)))
  else
    match Uint16_of (load h b) with
    | Panicked p => Some (mkM h mc s (Panicked p))
    | Done ln =>
        if (2 <=? slen b)%nat then mTEST h mc s b ln (reslice b 2 (slen b))
        else Some (mkM h mc s (Panicked PanicSliceBounds))
    end.

Definition mbody (h : heap) (mc : mconn) (s : UDPConn) (b : slice)
  : option mresult :=
  if sl b =? 0 then Some (mdeferred b (mkM h mc s (Done (0, None))))
  else if incompleteLen (m_conn mc) then
    let mc1 := upd mc (fun c => set_incompleteLen c false) in
    match index (load_opt h (m_buf mc1)) 0, load h b with
    | Done h0, b0 :: _ =>
        option_map (mdeferred b)
          (mTEST h mc1 s b (Uint16 h0 b0) (reslice b 1 (slen b)))
    | Panicked p, _ => Some (mkM h mc1 s (Panicked p))
    | _, [] => Some (mkM h mc1 s (Panicked PanicIndex))
    end
  else if 0 <? wm_remain (m_conn mc) then
    let remain := wm_remain (m_conn mc) in
    let mc1 := upd mc (fun c => set_wm_remain c (wm_remain c - sl b)) in
    if wm_remain (m_conn mc1) =? 0 then
      let '(h', x) := append h (m_buf mc1) (load h b) in
      Some (mdeferred b (mreturn_write h' mc1 s (load_opt h' x)))
    else if 0 <? wm_remain (m_conn mc1) then
      let '(h', x) := append h (m_buf mc1) (load h b) in
      Some (mdeferred b (mkM h' (mkMC (m_conn mc1) x) s (Done (sl b, None))))
    else
      let '(h', x) :=
        append h (m_buf mc1) (load h (reslice b 0 (Z.to_nat remain))) in
      match write h4 h6 (m_conn mc1) s (load_opt h' x) with
      | (s', Panicked p) => Some (mkM h' mc1 s' (Panicked p))
      | (s', Done (n, Some e)) => Some (mkM h' mc1 s' (Done (n, Some e)))
      | (s', Done (_, None)) =>
          let b' := reslice b (Z.to_nat remain) (slen b) in
          option_map (mdeferred b') (mparse h' mc1 s' b')
      end
  else option_map (mdeferred b) (mparse h mc s b).

End MemWrite.

Fixpoint mWrite_fuel (h4 h6 : list byte) (fuel : nat) (h : heap) (mc : mconn)
  (s : UDPConn) (b : slice) : option mresult :=
  match fuel with
  | O => None
  | S fuel' => mbody h4 h6 (mWrite_fuel h4 h6 fuel') h mc s b
  end.

Definition mWrite (h4 h6 : list byte) (h : heap) (mc : mconn) (s : UDPConn)
  (b : slice) : option mresult :=
  mWrite_fuel h4 h6 (S (slen b)) h mc s b.

(** Successive [Write] calls on slices of the store. *)
Fixpoint mWrites (h4 h6 : list byte) (h : heap) (mc : mconn) (s : UDPConn)
  (pieces : list slice) : option (heap * mconn * UDPConn) :=
  match pieces with
  | [] => Some (h, mc, s)
  | p :: ps =>
      match mWrite h4 h6 h mc s p with
      | None => None
      | Some r =>
          match m_out r with
          | Done (_, None) => mWrites h4 h6 (m_heap r) (m_state r) (m_sock r) ps
          | _ => Some (m_heap r, m_state r, m_sock r)
          end
      end
  end.

(** The connection of the value model that [mc] stands for in [h]. *)
Definition abs (h : heap) (mc : mconn) : udpBridgeConn :=
  set_wm_buf (m_conn mc) (load_opt h (m_buf mc)).

(** A slice of the array [w], within its bounds, with its capacity up to
    the end of the array (as [wire[i:j]] has). *)
Definition inb (h : heap) (w : nat) (x : slice) : Prop :=
  arr x = w /\ (slen x <= scap x)%nat
  /\ (off x + scap x = length (array h w))%nat.

(** The slice [x] ends where the slice [b] begins. *)
Definition adjacent (h : heap) (w : nat) (x b : slice) : Prop :=
  inb h w x /\ (off x + slen x = off b)%nat.

(** The writer [mc] is ready for a chunk that begins at the offset [p]:
    when it waits for payload bytes, the buffer it keeps is a slice of the
    array that ends at [p]. *)
Definition ready_at (h : heap) (w : nat) (mc : mconn) (p : nat) : Prop :=
  (incompleteLen (m_conn mc) = true -> wm_remain (m_conn mc) <= 0) /\
  (0 < wm_remain (m_conn mc) ->
   exists x, m_buf mc = Some x /\ inb h w x /\ (off x + slen x = p)%nat).

(** The two models gave the same result and left the store as it was. *)
Definition sim (h : heap) (w : nat) (p : nat) (r : write_result)
  (mr : mresult) : Prop :=
  m_heap mr = h /\ abs h (m_state mr) = w_conn r /\ m_sock mr = w_sock r
  /\ m_out mr = w_out r /\ ready_at h w (m_state mr) p.

Definition osim (h : heap) (w : nat) (p : nat) (o : option write_result)
  (mo : option mresult) : Prop :=
  match o, mo with
  | Some r, Some mr => sim h w p r mr
  | None, None => True
  | _, _ => False
  end.

Definition rec_sim (h : heap) (w : nat)
  (rec : udpBridgeConn -> UDPConn -> list byte -> option write_result)
  (mrec : heap -> mconn -> UDPConn -> slice -> option mresult) : Prop :=
  forall mc s b, inb h w b -> ready_at h w mc (off b) ->
    osim h w (off b + slen b) (rec (abs h mc) s (load h b)) (mrec h mc s b).

(** The slices [pieces] follow one another in the array from the offset
    [p] on. *)
Fixpoint consecutive (h : heap) (w : nat) (p : nat) (pieces : list slice)
  : Prop :=
  match pieces with
  | [] => True
  | b :: bs => inb h w b /\ off b = p /\ consecutive h w (p + slen b) bs
  end.

End Mem.

(** * The vocabulary of the properties *)

Definition bytes_of_nats (l : list nat) : list byte :=
  map (fun n => byte_of (Z.of_nat n)) l.

Definition bounds_panic (p : panic) : Prop :=
  p = PanicIndex \/ p = PanicSliceBounds.

(** The size [sz] is the one recorded: every address returned carries it,
    and without a connection a buffer of at least [sz] bytes gets its
    address. *)
Definition records_size (conn : option Conn) (w : list byte)
  (out : outcome (byte * option uAddr * option error)) (sz : Z) : Prop :=
  (forall m a e, out = Done (m, Some a, e) -> size a = sz) /\
  (conn = None -> sz <= len w ->
   exists m a, out = Done (m, Some a, None) /\ size a = sz).

(** The buffer whose bytes [parseUDPHeader] inspects: the one supplied,
    or the fresh one filled from the connection. *)
Definition working_buffer (conn : option Conn) (buf : option slice)
  : option (list byte) :=
  match buf, conn with
  | Some b, _ => Some (elems b)
  | None, Some ch =>
      let '(_, arr, _, err) :=
        ReadAtLeast ch (zeros (256 + 3 + 1 + 1 + 2)) (Z.to_nat (3 + 1 + IPv4len + 2)) in
      match err with None => Some arr | Some _ => None end
  | None, None => None
  end.

(** The SOCKS5 UDP header of the wire format for the address [a], after
    three leading bytes that the relay does not interpret: the address
    type, the address (a domain name after its length byte) and the port,
    big-endian. *)
Definition header_bytes (r0 r1 r2 : byte) (a : uAddr) : list byte :=
  [r0; r1; r2]
  ++ match ip a with
     | Some i => (if len i =? IPv4len then socksAddrIPv4 else socksAddrIPv6) :: i
     | None => socksAddrDomain :: byte_of (len (host a)) :: host a
     end
  ++ PutUint16_bytes (port a).

(** The addresses a header can carry, with their recorded size. *)
Definition wf_addr (a : uAddr) : Prop :=
  0 <= port a < 65536 /\
  match ip a with
  | Some i => (len i = IPv4len \/ len i = IPv6len) /\ host a = []
              /\ size a = 3 + 1 + len i + 2
  | None => len (host a) <= 255 /\ size a = 3 + 1 + 1 + len (host a) + 2
  end.

(** The destinations that [wrap] serializes as they are: the IP
    destinations and the domain destinations with a name of 1 to 249
    bytes. *)
Definition serializable (d : uAddr) : Prop :=
  match ip d with
  | Some _ => True
  | None => 1 <= len (host d) <= 249
  end.

Inductive writer_state : Type :=
| Idle
| AwaitingSecondLengthByte
| AwaitingPayload (remain : Z).

(** The state as [Write] dispatches on it: [incompleteLen] first, then
    [waitingMore.remain > 0]. *)
Definition state_of (c : udpBridgeConn) : writer_state :=
  if incompleteLen c then AwaitingSecondLengthByte
  else if 0 <? wm_remain c then AwaitingPayload (wm_remain c)
  else Idle.

(** The wire bytes of the frame that carries [payload]. *)
Definition frame (payload : list byte) : list byte :=
  PutUint16_bytes (uint16 (len payload)) ++ payload.

(** Successive [Write] calls; the caller stops at the first error or panic. *)
Fixpoint Writes (h4 h6 : list byte) (c : udpBridgeConn) (s : UDPConn)
  (pieces : list (list byte)) : option (udpBridgeConn * UDPConn) :=
  match pieces with
  | [] => Some (c, s)
  | p :: ps =>
      match Write h4 h6 c s p with
      | None => None
      | Some r =>
          match w_out r with
          | Done (_, None) => Writes h4 h6 (w_conn r) (w_sock r) ps
          | _ => Some (w_conn r, w_sock r)
          end
      end
  end.

(** The writer [c] after the bytes [w1] of a frame of length [L], fed to
    the writer [c0], without the frame being complete. *)
Definition progress (c0 : udpBridgeConn) (L : Z) (w1 : list byte)
  (c : udpBridgeConn) : Prop :=
  socks c = socks c0 /\ udpSrc c = udpSrc c0 /\ dst c = dst c0 /\
  match w1 with
  | [] => state_of c = Idle
  | [x] => incompleteLen c = true /\ wm_buf c = [x]
  | _ :: _ :: pl =>
      incompleteLen c = false /\ wm_buf c = pl
      /\ wm_remain c = L - len pl /\ len pl < L
  end.

(** The call that completes the frame emits it as [c0] would. *)
Definition emits (h4 h6 : list byte) (c0 : udpBridgeConn) (s : UDPConn)
  (payload p : list byte) (r : write_result) : Prop :=
  exists c', r = deferred p (return_write h4 h6 c' s payload)
             /\ socks c' = socks c0 /\ udpSrc c' = udpSrc c0 /\ dst c' = dst c0.

(** ** The stream of frames *)

(** The reference decoder of the wire format of the tunnel, written from
    the format and not from the code: the payloads of the complete frames
    at the head of the stream [w] (a frame is a big-endian 16-bit length
    and that many bytes), and the bytes of the incomplete frame that
    follows them. [fuel] bounds the number of frames. *)
Fixpoint wire_frames_fuel (fuel : nat) (w : list byte)
  : list (list byte) * list byte :=
  match fuel, w with
  | S f, h0 :: h1 :: rest =>
      let ln := Uint16 h0 h1 in
      if len rest <? ln then ([], w)
      else
        let r := wire_frames_fuel f (skipn (Z.to_nat ln) rest) in
        (firstn (Z.to_nat ln) rest :: fst r, snd r)
  | _, _ => ([], w)
  end.

(** A frame takes two bytes at least. *)
Definition wire_frames (w : list byte) : list (list byte) * list byte :=
  wire_frames_fuel (length w) w.

(** Successive calls of [write], one for each payload; [None] when one of
    them returns an error or panics. *)
Fixpoint write_each (h4 h6 : list byte) (c : udpBridgeConn) (s : UDPConn)
  (ps : list (list byte)) : option UDPConn :=
  match ps with
  | [] => Some s
  | p :: ps' =>
      match write h4 h6 c s p with
      | (s', Done (_, None)) => write_each h4 h6 c s' ps'
      | _ => None
      end
  end.

(** The mode, the peer and the destination: what [write] looks at. *)
Definition same_link (c c' : udpBridgeConn) : Prop :=
  socks c' = socks c /\ udpSrc c' = udpSrc c /\ dst c' = dst c.

(** The writer [c] holds the bytes [w] of an incomplete frame: nothing,
    the first byte of the length, or the length and a part of the
    payload. *)
Definition pending (c : udpBridgeConn) (w : list byte) : Prop :=
  match w with
  | [] => state_of c = Idle
  | [x] => incompleteLen c = true /\ wm_buf c = [x] /\ wm_remain c <= 0
  | h0 :: h1 :: pl =>
      incompleteLen c = false /\ wm_buf c = pl
      /\ wm_remain c = Uint16 h0 h1 - len pl /\ len pl < Uint16 h0 h1
  end.

(** The call returned without error, left the socket [s'] and holds the
    bytes [left]. *)
Definition accepted (c : udpBridgeConn) (s' : UDPConn) (left : list byte)
  (o : option write_result) : Prop :=
  exists r k, o = Some r /\ w_out r = Done (k, None) /\ w_sock r = s'
              /\ pending (w_conn r) left /\ same_link c (w_conn r).

(** ** What a call leaves alone *)


(** The writer that waits for the second byte of a length holds the
    first one. *)
Definition holds_first_byte (c : udpBridgeConn) : Prop :=
  incompleteLen c = true -> wm_buf c <> [].

(** The call returned, and not with a panic. *)
Definition no_panic (r : write_result) : Prop :=
  forall p, w_out r <> Panicked p.

(** The result of a call in raw mode: no panic, and the writer as it
    should be. *)
Definition raw_ok (r : write_result) : Prop :=
  no_panic r /\ holds_first_byte (w_conn r) /\ socks (w_conn r) = false.

(** The socket once its next arrival has been taken. *)
Definition received (s : UDPConn) (later : list arrival) : UDPConn :=
  mkUDP later (outbox s) (faults s) (sock_closed s).

(** The next [ReadFrom] of the socket fails: an error is waiting, or the
    socket was closed. *)
Definition next_read_fails (s : UDPConn) : Prop :=
  match inbox s with
  | Datagram _ _ :: _ => False
  | _ => True
  end.

(** What [Read] leaves alone: the reassembly state of the writer, the
    mode, the closed flag and the destination, and the sending side of the
    socket. *)
Definition reader_only (c : udpBridgeConn) (s : UDPConn) (r : read_result)
  : Prop :=
  wm_buf (r_conn r) = wm_buf c /\ wm_remain (r_conn r) = wm_remain c
  /\ incompleteLen (r_conn r) = incompleteLen c
  /\ socks (r_conn r) = socks c /\ closed (r_conn r) = closed c
  /\ dst (r_conn r) = dst c
  /\ outbox (r_sock r) = outbox s /\ faults (r_sock r) = faults s
  /\ sock_closed (r_sock r) = sock_closed s.


(** The version and command bytes pass the checks of lines 73-81, or the
    checks are skipped. *)
Definition passes_check (omitCheck : bool) (r0 r1 : byte) : Prop :=
  omitCheck = true \/ (r0 = socksVersion5 /\ (r1 = x01 \/ r1 = x03)).

(** ** The inputs of the examples *)

Definition ipv4_header_1_2_3_4_53 : list byte :=
  bytes_of_nats [0; 0; 0; 1; 1; 2; 3; 4; 0; 53]%nat.

Definition PING : list byte := bytes_of_nats [80; 73; 78; 71]%nat.

Definition domain_header_AB_53 : list byte :=
  bytes_of_nats [5; 1; 0; 3; 2; 65; 66; 0; 53]%nat.

Definition idle_raw : udpBridgeConn :=
  mkBridge None None [] 0 false false false None.

Definition quiet_socket : UDPConn := mkUDP [] [] [] false.

Definition socks_fresh (d : uAddr) (peer : option NetAddr) : udpBridgeConn :=
  mkBridge peer None [] 0 false true false (Some d).

Definition addr_1_2_3_4_53 : uAddr :=
  mkAddr (Some (bytes_of_nats [1; 2; 3; 4]%nat)) [] 53 10.

Definition bytes_0_1 : list byte := bytes_of_nats [0; 1]%nat.

Definition bytes_7_0_0 : list byte := bytes_of_nats [7; 0; 0]%nat.

Definition peerless : udpBridgeConn := socks_fresh addr_1_2_3_4_53 None.

Definition long_host : list byte := repeat x61 250.

(** A destination with a name of 250 bytes, as [parseUDPHeader] records
    it. *)
Definition long_domain : uAddr := mkAddr None long_host 53 257.

Definition a_peer : NetAddr := mkNetAddr (bytes_of_nats [10; 0; 0; 1]%nat) 4000.

(** The domain destination with an empty name, as [parseUDPHeader]
    records it. *)
Definition empty_domain : uAddr := mkAddr None [] 53 7.

(** ** Tactics *)

Ltac zb :=
  repeat match goal with
    | |- context [?a <? ?b] =>
        first [ replace (a <? b) with true by (symmetry; apply Z.ltb_lt; lia)
              | replace (a <? b) with false by (symmetry; apply Z.ltb_ge; lia) ]
    | |- context [?a =? ?b] =>
        first [ replace (a =? b) with true by (symmetry; apply Z.eqb_eq; lia)
              | replace (a =? b) with false by (symmetry; apply Z.eqb_neq; lia) ]
    end.

Ltac abs_eq :=
  repeat match goal with x := _ : Mem.mconn |- _ => subst x end;
  unfold Mem.abs, Mem.upd; cbn [Mem.m_conn Mem.m_buf Mem.load_opt];
  match goal with |- context [Mem.m_conn ?mc] => destruct (Mem.m_conn mc) end;
  reflexivity.

(** * Properties *)

#[local] Arguments Z.add : simpl never.
#[local] Arguments Z.sub : simpl never.
#[local] Arguments Z.mul : simpl never.
#[local] Arguments Z.modulo : simpl never.
#[local] Arguments Z.of_nat : simpl never.
#[local] Arguments Z.to_nat : simpl never.
#[local] Arguments Z.ltb : simpl never.
#[local] Arguments Z.leb : simpl never.
#[local] Arguments Z.eqb : simpl never.
#[local] Arguments nth_error : simpl never.
#[local] Arguments Byte.eqb : simpl never.

(** ** Bytes *)

Lemma byte_val_range (b : byte) : 0 <= byte_val b < 256.
Proof.
  unfold byte_val. pose proof (Byte.to_N_bounded b). lia.
Qed.

Lemma byte_of_val (b : byte) : byte_of (byte_val b) = b.
Proof.
  unfold byte_of. pose proof (byte_val_range b) as R.
  rewrite Z.mod_small by lia. unfold byte_val.
  rewrite N2Z.id, Byte.of_to_N. reflexivity.
Qed.

Lemma byte_val_of (z : Z) : byte_val (byte_of z) = z mod 256.
Proof.
  unfold byte_of, byte_val.
  pose proof (Z.mod_pos_bound z 256 ltac:(lia)) as R.
  destruct (Byte.of_N (Z.to_N (z mod 256))) as [b|] eqn:E.
  - apply Byte.to_of_N in E. rewrite E. lia.
  - apply Byte.of_N_None_iff in E. lia.
Qed.

Lemma Uint16_arith (b0 b1 : byte) : Uint16 b0 b1 = byte_val b0 * 256 + byte_val b1.
Proof.
  unfold Uint16.
  pose proof (byte_val_range b0) as R0. pose proof (byte_val_range b1) as R1.
  rewrite Z.shiftl_mul_pow2 by lia. change (2 ^ 8) with 256.
  rewrite <- Z.lxor_lor, <- Z.add_nocarry_lxor; try lia.
  all: apply Z.bits_inj'; intros n Hn; rewrite Z.land_spec, Z.bits_0.
  all: destruct (Z.ltb_spec n 8) as [L|L].
  all: try (change 256 with (2 ^ 8); rewrite (Z.mul_pow2_bits_low _ _ _ L);
            apply andb_false_r).
  all: replace (Z.testbit (byte_val b1) n) with false; [reflexivity|].
  all: symmetry; destruct (Z.eq_dec (byte_val b1) 0) as [->|NZ];
       [apply Z.bits_0|].
  all: apply Z.bits_above_log2; [lia|].
  all: apply Z.log2_lt_pow2; [lia|]; apply Z.lt_le_trans with (2 ^ 8);
       [change (2 ^ 8) with 256; lia | apply Z.pow_le_mono_r; lia].
Qed.

Lemma Uint16_range (b0 b1 : byte) : 0 <= Uint16 b0 b1 < 65536.
Proof.
  rewrite Uint16_arith.
  pose proof (byte_val_range b0). pose proof (byte_val_range b1). lia.
Qed.

Lemma PutUint16_Uint16 (b0 b1 : byte) : PutUint16_bytes (Uint16 b0 b1) = [b0; b1].
Proof.
  unfold PutUint16_bytes. rewrite Uint16_arith.
  pose proof (byte_val_range b0) as R0. pose proof (byte_val_range b1) as R1.
  rewrite Z.shiftr_div_pow2 by lia. change (2 ^ 8) with 256.
  replace ((byte_val b0 * 256 + byte_val b1) / 256) with (byte_val b0)
    by (apply Z.div_unique with (byte_val b1); lia).
  rewrite byte_of_val.
  replace (byte_of (byte_val b0 * 256 + byte_val b1)) with (byte_of (byte_val b1)).
  - rewrite byte_of_val. reflexivity.
  - unfold byte_of. f_equal. f_equal.
    rewrite Z.add_comm, Z.mod_add by lia. reflexivity.
Qed.

Lemma Uint16_PutUint16 (v : Z) :
  0 <= v < 65536 ->
  exists b0 b1, PutUint16_bytes v = [b0; b1] /\ Uint16 b0 b1 = v.
Proof.
  intros R. unfold PutUint16_bytes. do 2 eexists. split; [reflexivity|].
  rewrite Uint16_arith, !byte_val_of, Z.shiftr_div_pow2 by lia.
  change (2 ^ 8) with 256.
  rewrite (Z.mod_small (v / 256)).
  - pose proof (Z.div_mod v 256 ltac:(lia)). lia.
  - split; [apply Z.div_pos; lia | apply Z.div_lt_upper_bound; lia].
Qed.

Lemma len_app {A : Type} (l1 l2 : list A) : len (l1 ++ l2) = len l1 + len l2.
Proof. unfold len. rewrite length_app. lia. Qed.

Lemma len_nonneg {A : Type} (l : list A) : 0 <= len l.
Proof. unfold len. lia. Qed.

(** ** Lists as slices *)

Lemma index_Some (xs : list byte) (i : nat) (b : byte) :
  nth_error xs i = Some b -> index xs i = Done b.
Proof. unfold index. intros ->. reflexivity. Qed.

Lemma index_lt (xs : list byte) (i : nat) :
  (i < length xs)%nat -> exists b, nth_error xs i = Some b /\ index xs i = Done b.
Proof.
  intros L. destruct (nth_error xs i) as [b|] eqn:E.
  - exists b. split; [reflexivity | apply index_Some, E].
  - apply nth_error_None in E. lia.
Qed.

Lemma len_firstn_le (xs : list byte) (n : nat) : len (firstn n xs) <= len xs.
Proof. unfold len. rewrite length_firstn. lia. Qed.

Lemma len_sub (xs : list byte) (lo hi : Z) :
  0 <= lo <= hi -> hi <= len xs ->
  len (sub xs (Z.to_nat lo) (Z.to_nat hi)) = hi - lo.
Proof.
  unfold len, sub. intros H1 H2. rewrite length_firstn, length_skipn. lia.
Qed.

Lemma slice_of_ok (xs : list byte) (lo hi : Z) :
  0 <= lo <= hi -> hi <= len xs ->
  slice_of xs lo hi = Done (sub xs (Z.to_nat lo) (Z.to_nat hi)).
Proof.
  intros H1 H2. unfold slice_of.
  replace (0 <=? lo) with true by (symmetry; apply Z.leb_le; lia).
  replace (lo <=? hi) with true by (symmetry; apply Z.leb_le; lia).
  replace (hi <=? len xs) with true by (symmetry; apply Z.leb_le; lia).
  reflexivity.
Qed.

Lemma slice_from_ok (xs : list byte) (lo : Z) :
  0 <= lo <= len xs -> slice_from xs lo = Done (skipn (Z.to_nat lo) xs).
Proof.
  intros H. unfold slice_from.
  replace (0 <=? lo) with true by (symmetry; apply Z.leb_le; lia).
  replace (lo <=? len xs) with true by (symmetry; apply Z.leb_le; lia).
  reflexivity.
Qed.

Lemma slice_to_ok (xs : list byte) (hi : Z) :
  0 <= hi <= len xs -> slice_to xs hi = Done (firstn (Z.to_nat hi) xs).
Proof.
  intros H. unfold slice_to.
  replace (0 <=? hi) with true by (symmetry; apply Z.leb_le; lia).
  replace (hi <=? len xs) with true by (symmetry; apply Z.leb_le; lia).
  reflexivity.
Qed.

Lemma Uint16_of_two (xs : list byte) :
  2 <= len xs -> exists b0 b1 tl, xs = b0 :: b1 :: tl /\ Uint16_of xs = Done (Uint16 b0 b1).
Proof.
  unfold len. destruct xs as [|b0 [|b1 tl]]; simpl; intros H; try lia.
  exists b0, b1, tl. split; reflexivity.
Qed.

Lemma firstn_elems (b : slice) : firstn (length (elems b)) (elems b ++ spare b) = elems b.
Proof.
  rewrite firstn_app, Nat.sub_diag, firstn_all. simpl. apply app_nil_r.
Qed.

(** ** [parseUDPHeader]: the recorded size *)

Lemma addr_size_by_type (buf : list byte) (t : byte) :
  nth_error buf 3 = Some t ->
  (t = socksAddrIPv4 -> addr_size buf = Done (inl 10)) /\
  (t = socksAddrIPv6 -> addr_size buf = Done (inl 22)) /\
  (t = socksAddrDomain -> forall l, nth_error buf 4 = Some l ->
     addr_size buf = Done (inl (5 + byte_val l + 2))) /\
  (t <> socksAddrIPv4 -> t <> socksAddrIPv6 -> t <> socksAddrDomain ->
     addr_size buf = Done (inr (ErrInvalidAddrType t))).
Proof.
  intros H3. unfold addr_size. rewrite (index_Some _ _ _ H3). cbn [bind].
  repeat split.
  - intros ->. reflexivity.
  - intros ->. reflexivity.
  - intros -> l H4.
    change (Byte.eqb socksAddrDomain socksAddrIPv4) with false.
    change (Byte.eqb socksAddrDomain socksAddrIPv6) with false.
    change (Byte.eqb socksAddrDomain socksAddrDomain) with true.
    cbv iota. rewrite (index_Some _ _ _ H4). cbn [bind].
    reflexivity.
  - intros N4 N6 ND.
    destruct (Byte.eqb t socksAddrIPv4) eqn:E4;
      [apply Byte.byte_dec_bl in E4; contradiction|].
    destruct (Byte.eqb t socksAddrIPv6) eqn:E6;
      [apply Byte.byte_dec_bl in E6; contradiction|].
    destruct (Byte.eqb t socksAddrDomain) eqn:ED;
      [apply Byte.byte_dec_bl in ED; contradiction|].
    reflexivity.
Qed.

Lemma addr_size_ge_7 (buf : list byte) (sz : Z) :
  addr_size buf = Done (inl sz) -> 7 <= sz /\ (4 <= length buf)%nat.
Proof.
  unfold addr_size, index.
  destruct (nth_error buf 3) as [t|] eqn:E3; simpl; [|discriminate].
  assert (4 <= length buf)%nat as L
      by (assert (nth_error buf 3 <> None) as N by congruence;
          apply nth_error_Some in N; lia).
  destruct (Byte.eqb t socksAddrIPv4);
    [intros [= <-]; unfold IPv4len; lia|].
  destruct (Byte.eqb t socksAddrIPv6);
    [intros [= <-]; unfold IPv6len; lia|].
  destruct (Byte.eqb t socksAddrDomain); [|discriminate].
  destruct (nth_error buf 4) as [l|]; simpl; [|discriminate].
  intros [= <-]. pose proof (byte_val_range l). lia.
Qed.

Lemma extract_addr_size (arr : list byte) (blen : nat) (sz : Z) m a e :
  extract_addr arr blen sz = Done (m, Some a, e) -> size a = sz.
Proof.
  unfold extract_addr.
  destruct (slice_of arr 3 (sz - 2)) as [rawaddr|]; simpl; [|discriminate].
  destruct (slice_of arr (sz - 2) sz) as [pb|]; simpl; [|discriminate].
  destruct (Uint16_of pb) as [p|]; simpl; [|discriminate].
  destruct (index (firstn blen arr) 3) as [t|]; simpl; [|discriminate].
  destruct (Byte.eqb t socksAddrIPv4 || Byte.eqb t socksAddrIPv6).
  - destruct (slice_from rawaddr 1) as [r|]; simpl; [|discriminate].
    destruct (index (firstn blen arr) 1); simpl; [|discriminate].
    intros [= _ <- _]. reflexivity.
  - destruct (slice_from rawaddr 2) as [r|]; simpl; [|discriminate].
    destruct (index (firstn blen arr) 1); simpl; [|discriminate].
    intros [= _ <- _]. reflexivity.
Qed.

Lemma extract_addr_returns (arr : list byte) (blen : nat) (sz : Z) :
  7 <= sz <= len (firstn blen arr) ->
  exists m a, extract_addr arr blen sz = Done (m, Some a, None) /\ size a = sz.
Proof.
  intros R. pose proof (len_firstn_le arr blen) as LE.
  assert (exists m a, extract_addr arr blen sz = Done (m, Some a, None))
    as (m & a & E).
  { unfold extract_addr.
    rewrite (slice_of_ok arr 3 (sz - 2)) by lia. simpl.
    rewrite (slice_of_ok arr (sz - 2) sz) by lia. simpl.
    destruct (Uint16_of_two (sub arr (Z.to_nat (sz - 2)) (Z.to_nat sz)))
      as (b0 & b1 & tl & _ & ->); [rewrite len_sub; lia|]. simpl.
    destruct (index_lt (firstn blen arr) 3) as (t & _ & ->);
      [unfold len in R; lia|]. simpl.
    destruct (index_lt (firstn blen arr) 1) as (m & _ & Em);
      [unfold len in R; lia|].
    pose proof (len_sub arr 3 (sz - 2) ltac:(lia) ltac:(lia)) as LR.
    destruct (Byte.eqb t socksAddrIPv4 || Byte.eqb t socksAddrIPv6).
    - rewrite slice_from_ok by lia. simpl. rewrite Em. simpl. eauto.
    - rewrite slice_from_ok by lia. simpl. rewrite Em. simpl. eauto. }
  exists m, a. split; [exact E | exact (extract_addr_size _ _ _ _ _ _ E)].
Qed.

Lemma parse_body_records (conn : option Conn) (arr : list byte) (blen : nat)
  (n : Z) (omitCheck : bool) (sz : Z) :
  header_check (firstn blen arr) omitCheck = Done None ->
  addr_size (firstn blen arr) = Done (inl sz) ->
  records_size conn (firstn blen arr)
    (p_out (parse_body conn arr blen n omitCheck)) sz.
Proof.
  intros HC HS. pose proof (addr_size_ge_7 _ _ HS) as [G7 _].
  unfold parse_body. rewrite HC, HS. split.
  - intros m a e. destruct conn as [ch|].
    + destruct (slice_of arr n sz) as [region|]; simpl; [|discriminate].
      destruct (ReadFull ch region) as [[[ch' region'] k] [err|]]; simpl.
      * intros [= _ <- _]. reflexivity.
      * apply extract_addr_size.
    + destruct (len (firstn blen arr) <? sz); simpl; [discriminate|].
      apply extract_addr_size.
  - intros -> L.
    replace (len (firstn blen arr) <? sz) with false
      by (symmetry; apply Z.ltb_ge; lia).
    simpl. apply extract_addr_returns. lia.
Qed.

Lemma parse_body_bad_type (conn : option Conn) (arr : list byte) (blen : nat)
  (n : Z) (omitCheck : bool) (e : error) :
  header_check (firstn blen arr) omitCheck = Done None ->
  addr_size (firstn blen arr) = Done (inr e) ->
  p_out (parse_body conn arr blen n omitCheck) = Done (x00, None, Some e).
Proof.
  intros HC HS. unfold parse_body. rewrite HC, HS. reflexivity.
Qed.

Lemma parseUDPHeader_body (conn : option Conn) (buf : option slice)
  (omitCheck : bool) (w : list byte) :
  working_buffer conn buf = Some w ->
  exists conn' arr blen n,
    firstn blen arr = w /\ (conn = None -> conn' = None) /\
    p_out (parseUDPHeader conn buf omitCheck)
    = p_out (parse_body conn' arr blen n omitCheck).
Proof.
  unfold working_buffer, parseUDPHeader. destruct buf as [b|].
  - intros [= <-]. exists conn, (elems b ++ spare b), (length (elems b)), 0.
    split; [apply firstn_elems | split; [auto | reflexivity]].
  - destruct conn as [ch|]; [|discriminate].
    destruct (ReadAtLeast ch _ _) as [[[ch' arr] k] [err|]]; [discriminate|].
    intros [= <-]. exists (Some ch'), arr, (length arr), (Z.of_nat k).
    split; [apply firstn_all | split; [discriminate | reflexivity]].
Qed.

(** C1, as stated, fails: the IPv4 header for 1.2.3.4:53 followed by
    "PING" is parsed into an address whose recorded size is 10, not 9. *)
Lemma parseUDPHeader_ipv4_size_not_9 :
  exists m a,
    p_out (parseUDPHeader None
             (Some (mkSlice (ipv4_header_1_2_3_4_53 ++ PING) [])) true)
    = Done (m, Some a, None)
    /\ ip a = Some (bytes_of_nats [1; 2; 3; 4]%nat) /\ port a = 53
    /\ size a = 10 /\ size a <> 9.
Proof.
  eexists. eexists. split; [vm_compute; reflexivity|].
  repeat split. discriminate.
Qed.

(** C1 (amended): on the buffer [parseUDPHeader] works on (the supplied
    one, or the fresh one filled from the connection), once the version
    and command checks pass or are skipped, the address-type byte at
    offset 3 fixes the recorded size: IPv4 gives 10, IPv6 gives 22, domain
    gives 5 + (the length byte at offset 4) + 2; any other type byte makes
    the parse return the invalid-address-type error and no address. *)
Theorem parseUDPHeader_size_by_address_type
  (conn : option Conn) (buf : option slice) (omitCheck : bool)
  (w : list byte) (t : byte) :
  working_buffer conn buf = Some w ->
  header_check w omitCheck = Done None ->
  nth_error w 3 = Some t ->
  let out := p_out (parseUDPHeader conn buf omitCheck) in
  (t = socksAddrIPv4 -> records_size conn w out 10) /\
  (t = socksAddrIPv6 -> records_size conn w out 22) /\
  (t = socksAddrDomain -> forall l, nth_error w 4 = Some l ->
     records_size conn w out (5 + byte_val l + 2)) /\
  (t <> socksAddrIPv4 -> t <> socksAddrIPv6 -> t <> socksAddrDomain ->
     out = Done (x00, None, Some (ErrInvalidAddrType t))).
Proof.
  intros HW HC H3 out.
  destruct (parseUDPHeader_body conn buf omitCheck w HW)
    as (conn' & arr & blen & n & <- & HN & E).
  subst out. rewrite E.
  destruct (addr_size_by_type _ _ H3) as (S4 & S6 & SD & SX).
  assert (forall sz, addr_size (firstn blen arr) = Done (inl sz) ->
            records_size conn (firstn blen arr)
              (p_out (parse_body conn' arr blen n omitCheck)) sz) as R.
  { intros sz HS. destruct (parse_body_records conn' arr blen n omitCheck sz HC HS)
      as [R1 R2].
    split; [exact R1 | intros Hc; apply R2, HN, Hc]. }
  split; [|split; [|split]].
  - intros Ht. apply R, S4, Ht.
  - intros Ht. apply R, S6, Ht.
  - intros Ht l H4. apply R, SD; assumption.
  - intros N4 N6 ND. apply parse_body_bad_type; [exact HC | apply SX; assumption].
Qed.

Lemma parseUDPHeader_size_by_address_type_witness :
  records_size None (ipv4_header_1_2_3_4_53 ++ PING)
    (p_out (parseUDPHeader None
              (Some (mkSlice (ipv4_header_1_2_3_4_53 ++ PING) [])) true)) 10.
Proof.
  exact (proj1 (parseUDPHeader_size_by_address_type None
                  (Some (mkSlice (ipv4_header_1_2_3_4_53 ++ PING) [])) true
                  (ipv4_header_1_2_3_4_53 ++ PING) x01
                  eq_refl eq_refl eq_refl) eq_refl).
Defined.

(** ** [parseUDPHeader] without a connection: the short-buffer error *)

(** C9: with no connection and a supplied buffer on which the checks pass
    and the size [sz] is computed from the address type, a buffer shorter
    than [sz] makes the parse return [io.EOF] and no address; a buffer of
    at least [sz] bytes is parsed without error into an address. *)
Theorem parseUDPHeader_short_buffer (buf : slice) (omitCheck : bool) (sz : Z) :
  header_check (elems buf) omitCheck = Done None ->
  addr_size (elems buf) = Done (inl sz) ->
  let out := p_out (parseUDPHeader None (Some buf) omitCheck) in
  (len (elems buf) < sz -> out = Done (x00, None, Some EOF)) /\
  (sz <= len (elems buf) ->
   exists m a, out = Done (m, Some a, None) /\ size a = sz).
Proof.
  intros HC HS out. subst out. unfold parseUDPHeader, parse_body.
  rewrite firstn_elems, HC, HS. split; intros L.
  - replace (len (elems buf) <? sz) with true
      by (symmetry; apply Z.ltb_lt; lia).
    reflexivity.
  - replace (len (elems buf) <? sz) with false
      by (symmetry; apply Z.ltb_ge; lia).
    cbn [p_out].
    pose proof (addr_size_ge_7 _ _ HS) as [G7 _].
    apply extract_addr_returns. rewrite firstn_elems. lia.
Qed.

Lemma parseUDPHeader_short_buffer_witness :
  p_out (parseUDPHeader None
           (Some (mkSlice (firstn 8 domain_header_AB_53) [x35])) false)
  = Done (x00, None, Some EOF)
  /\ exists m a,
       p_out (parseUDPHeader None
                (Some (mkSlice domain_header_AB_53 [])) false)
       = Done (m, Some a, None) /\ size a = 9.
Proof.
  split.
  - apply (parseUDPHeader_short_buffer
             (mkSlice (firstn 8 domain_header_AB_53) [x35]) false 9
             eq_refl eq_refl).
    vm_compute. reflexivity.
  - apply (parseUDPHeader_short_buffer
             (mkSlice domain_header_AB_53 []) false 9 eq_refl eq_refl).
    vm_compute. discriminate.
Defined.

(** ** [Read]: the buffer contract *)

Lemma index_panics (xs : list byte) (i : nat) (p : panic) :
  index xs i = Panicked p -> bounds_panic p.
Proof.
  unfold index. destruct (nth_error xs i); [discriminate|].
  intros [= <-]. left. reflexivity.
Qed.

Lemma slice_of_panics (xs : list byte) (lo hi : Z) (p : panic) :
  slice_of xs lo hi = Panicked p -> bounds_panic p.
Proof.
  unfold slice_of. destruct (_ && _); [discriminate|].
  intros [= <-]. right. reflexivity.
Qed.

Lemma slice_from_panics (xs : list byte) (lo : Z) (p : panic) :
  slice_from xs lo = Panicked p -> bounds_panic p.
Proof.
  unfold slice_from. destruct (_ && _); [discriminate|].
  intros [= <-]. right. reflexivity.
Qed.

Lemma Uint16_of_panics (xs : list byte) (p : panic) :
  Uint16_of xs = Panicked p -> bounds_panic p.
Proof.
  destruct xs as [|b0 [|b1 tl]]; simpl; try discriminate;
    intros [= <-]; left; reflexivity.
Qed.

Lemma PutUint16_at_panics (xs : list byte) (lo v : Z) (p : panic) :
  PutUint16_at xs lo v = Panicked p -> bounds_panic p.
Proof.
  unfold PutUint16_at.
  destruct (slice_from xs lo) as [tl|q] eqn:E; cbn [bind].
  - destruct (len tl <? 2); [|discriminate]. intros [= <-]. left. reflexivity.
  - intros [= <-]. apply (slice_from_panics _ _ _ E).
Qed.

Lemma extract_addr_panics (arr : list byte) (blen : nat) (sz : Z) (p : panic) :
  extract_addr arr blen sz = Panicked p -> bounds_panic p.
Proof.
  unfold extract_addr.
  destruct (slice_of arr 3 (sz - 2)) as [rawaddr|q] eqn:E1; cbn [bind];
    [|intros [= <-]; exact (slice_of_panics _ _ _ _ E1)].
  destruct (slice_of arr (sz - 2) sz) as [pb|q] eqn:E2; cbn [bind];
    [|intros [= <-]; exact (slice_of_panics _ _ _ _ E2)].
  destruct (Uint16_of pb) as [v|q] eqn:E3; cbn [bind];
    [|intros [= <-]; exact (Uint16_of_panics _ _ E3)].
  destruct (index (firstn blen arr) 3) as [t|q] eqn:E4; cbn [bind];
    [|intros [= <-]; exact (index_panics _ _ _ E4)].
  destruct (Byte.eqb t socksAddrIPv4 || Byte.eqb t socksAddrIPv6).
  - destruct (slice_from rawaddr 1) as [r|q] eqn:E5; cbn [bind];
      [|intros [= <-]; exact (slice_from_panics _ _ _ E5)].
    destruct (index (firstn blen arr) 1) as [m|q] eqn:E6; cbn [bind];
      [discriminate | intros [= <-]; exact (index_panics _ _ _ E6)].
  - destruct (slice_from rawaddr 2) as [r|q] eqn:E5; cbn [bind];
      [|intros [= <-]; exact (slice_from_panics _ _ _ E5)].
    destruct (index (firstn blen arr) 1) as [m|q] eqn:E6; cbn [bind];
      [discriminate | intros [= <-]; exact (index_panics _ _ _ E6)].
Qed.

Lemma parse_nil_conn_panics (buf : slice) (p : panic) :
  p_out (parseUDPHeader None (Some buf) true) = Panicked p -> bounds_panic p.
Proof.
  unfold parseUDPHeader, parse_body. cbn [header_check].
  destruct (addr_size _) as [[sz|e]|q] eqn:E; cbn [p_out].
  - destruct (len _ <? sz); cbn [p_out]; [discriminate|].
    apply extract_addr_panics.
  - discriminate.
  - intros [= <-]. revert E. unfold addr_size.
    destruct (index _ 3) as [t|q'] eqn:E3; cbn [bind];
      [|intros [= <-]; exact (index_panics _ _ _ E3)].
    destruct (Byte.eqb t socksAddrIPv4); [discriminate|].
    destruct (Byte.eqb t socksAddrIPv6); [discriminate|].
    destruct (Byte.eqb t socksAddrDomain); [|discriminate].
    destruct (index _ 4) as [l|q'] eqn:E4; cbn [bind];
      [discriminate | intros [= <-]; exact (index_panics _ _ _ E4)].
Qed.

Lemma PUT_HEADER_out (c : udpBridgeConn) (s : UDPConn) (b : list byte)
  (n : Z) (err : option error) :
  r_out (PUT_HEADER c s b n err) <> Panicked PanicPacketSize.
Proof.
  unfold PUT_HEADER. destruct (PutUint16_at b 0 (uint16 n)) as [b'|p] eqn:E;
    cbn [r_out]; [discriminate|].
  intros [= ->]. destruct (PutUint16_at_panics _ _ _ _ E); discriminate.
Qed.

(** C6: a buffer shorter than 2050 bytes makes [Read] panic with the
    connection, the socket and the buffer untouched (nothing was read, the
    seed buffer is still there); with a buffer of at least 2050 bytes that
    panic is never the outcome. *)
Theorem Read_buffer_contract (c : udpBridgeConn) (s : UDPConn) (b : list byte) :
  (len b < 2050 -> Read c s b = mkRead c s b (Panicked PanicPacketSize)) /\
  (2050 <= len b -> r_out (Read c s b) <> Panicked PanicPacketSize).
Proof.
  unfold Read, expectedMaxPacketSize. split; intros L.
  - replace (len b <? 2050) with true by (symmetry; apply Z.ltb_lt; lia).
    reflexivity.
  - replace (len b <? 2050) with false by (symmetry; apply Z.ltb_ge; lia).
    destruct (initBuf c) as [ib|]; [apply PUT_HEADER_out|].
    destruct (ReadFrom s b) as [[[[s1 b1] n] src] [e|]]; cbn [r_out];
      [discriminate|].
    destruct (socks (set_udpSrc c src)); [|apply PUT_HEADER_out].
    destruct (p_out (parseUDPHeader None _ true)) as [[[m [d|]] [e|]]|p] eqn:E;
      cbn [r_out]; try discriminate.
    + destruct (slice_of b1 (size d) n) as [payload|p] eqn:E2; cbn [r_out];
        [apply PUT_HEADER_out|].
      intros [= ->]. destruct (slice_of_panics _ _ _ _ E2); discriminate.
    + intros [= ->]. destruct (parse_nil_conn_panics _ _ E); discriminate.
Qed.

Lemma Read_buffer_contract_witness :
  Read (set_initBuf idle_raw (Some PING))
       (mkUDP [Datagram PING (mkNetAddr [] 9)] [] [] false) (zeros 2049)
  = mkRead (set_initBuf idle_raw (Some PING))
      (mkUDP [Datagram PING (mkNetAddr [] 9)] [] [] false) (zeros 2049)
      (Panicked PanicPacketSize)
  /\ r_out (Read (set_initBuf idle_raw (Some PING)) quiet_socket (zeros 2050))
     <> Panicked PanicPacketSize.
Proof.
  split.
  - apply (proj1 (Read_buffer_contract _ _ (zeros 2049))).
    vm_compute. reflexivity.
  - apply (proj2 (Read_buffer_contract _ _ (zeros 2050))).
    vm_compute. discriminate.
Defined.

(** ** The header on the wire *)

Lemma len_header_bytes (r0 r1 r2 : byte) (a : uAddr) :
  wf_addr a -> len (header_bytes r0 r1 r2 a) = size a.
Proof.
  unfold wf_addr, header_bytes, len. intros [_ W].
  destruct (ip a) as [i|].
  - destruct W as (_ & _ & ->). rewrite !length_app. simpl. unfold len. lia.
  - destruct W as (_ & ->). rewrite !length_app. simpl. unfold len. lia.
Qed.

Lemma sub_mid (pre mid rest : list byte) (lo hi : nat) :
  lo = length pre -> hi = (lo + length mid)%nat ->
  sub (pre ++ mid ++ rest) lo hi = mid.
Proof.
  intros -> ->. unfold sub.
  rewrite skipn_app, skipn_all, Nat.sub_diag. simpl.
  replace (length pre + length mid - length pre)%nat with (length mid) by lia.
  rewrite firstn_app, firstn_all, Nat.sub_diag. simpl. apply app_nil_r.
Qed.

(** [extract_addr] on a backing array that starts with a header. *)
Lemma extract_addr_header (r0 m r2 t p0 p1 : byte) (body rest : list byte)
  (blen : nat) (sz : Z) :
  sz = 6 + len body ->
  (Z.to_nat sz <= blen)%nat ->
  (1 <= length body)%nat ->
  extract_addr ([r0; m; r2] ++ (t :: body) ++ [p0; p1] ++ rest) blen sz
  = Done (m,
          Some (if Byte.eqb t socksAddrIPv4 || Byte.eqb t socksAddrIPv6
                then mkAddr (Some body) [] (Uint16 p0 p1) sz
                else mkAddr None (skipn 1 body) (Uint16 p0 p1) sz),
          None).
Proof.
  intros Hsz Hb H1. unfold extract_addr.
  set (arr := [r0; m; r2] ++ (t :: body) ++ [p0; p1] ++ rest).
  assert (len arr = sz + len rest) as LA.
  { unfold arr, len. rewrite !length_app. simpl. unfold len in Hsz. lia. }
  pose proof (len_nonneg rest) as NR. pose proof (len_nonneg body) as NB.
  rewrite (slice_of_ok arr 3 (sz - 2)) by lia. cbn [bind].
  rewrite (slice_of_ok arr (sz - 2) sz) by lia. cbn [bind].
  replace (sub arr (Z.to_nat 3) (Z.to_nat (sz - 2))) with (t :: body)
    by (symmetry; unfold arr; apply sub_mid; simpl; unfold len in Hsz; lia).
  replace (sub arr (Z.to_nat (sz - 2)) (Z.to_nat sz)) with [p0; p1].
  2:{ symmetry. unfold arr.
      change ([r0; m; r2] ++ (t :: body) ++ [p0; p1] ++ rest)
        with ((r0 :: m :: r2 :: t :: body) ++ [p0; p1] ++ rest).
      apply sub_mid; simpl; unfold len in Hsz; lia. }
  cbn [Uint16_of bind].
  assert (nth_error (firstn blen arr) 3 = Some t) as E3.
  { rewrite nth_error_firstn.
    replace (3 <? blen)%nat with true
      by (symmetry; apply Nat.ltb_lt; unfold len in Hsz; lia).
    reflexivity. }
  assert (nth_error (firstn blen arr) 1 = Some m) as E1.
  { rewrite nth_error_firstn.
    replace (1 <? blen)%nat with true
      by (symmetry; apply Nat.ltb_lt; unfold len in Hsz; lia).
    reflexivity. }
  rewrite (index_Some _ _ _ E3), (index_Some _ _ _ E1). cbn [bind].
  destruct (Byte.eqb t socksAddrIPv4 || Byte.eqb t socksAddrIPv6).
  - rewrite slice_from_ok by (unfold len; simpl; lia). reflexivity.
  - rewrite slice_from_ok by (unfold len; simpl; lia). reflexivity.
Qed.

(** Parsing a well-formed header, whatever follows it, gives back the
    address it was written from. *)
Lemma parse_header_bytes (r0 r1 r2 : byte) (a : uAddr)
  (payload sp : list byte) :
  wf_addr a ->
  p_out (parseUDPHeader None
           (Some (mkSlice (header_bytes r0 r1 r2 a ++ payload) sp)) true)
  = Done (r1, Some a, None).
Proof.
  intros W. pose proof (len_header_bytes r0 r1 r2 a W) as LH.
  destruct W as [PR W].
  destruct (Uint16_PutUint16 (port a) PR) as (p0 & p1 & EP & EU).
  unfold parseUDPHeader, parse_body. rewrite firstn_elems.
  cbn [header_check elems spare].
  assert ((len (header_bytes r0 r1 r2 a ++ payload) <? size a) = false) as LT.
  { apply Z.ltb_ge. rewrite len_app, LH. pose proof (len_nonneg payload). lia. }
  revert LH LT. unfold header_bytes. rewrite EP.
  destruct a as [ai ah ap asz]. cbn [ip host port size] in *.
  destruct ai as [i|].
  - destruct W as (HL & -> & ->). intros LH LT.
    assert (addr_size (([r0; r1; r2]
              ++ ((if len i =? IPv4len then socksAddrIPv4 else socksAddrIPv6) :: i)
              ++ [p0; p1]) ++ payload) = Done (inl (3 + 1 + len i + 2))) as AS.
    { unfold addr_size, index, IPv4len, IPv6len in *. simpl.
      destruct HL as [-> | ->]; reflexivity. }
    rewrite AS, LT. cbn [p_out].
    rewrite <- !app_assoc.
    rewrite (extract_addr_header r0 r1 r2 _ p0 p1 i (payload ++ sp)).
    + replace (Byte.eqb _ socksAddrIPv4 || Byte.eqb _ socksAddrIPv6) with true.
      * rewrite EU. reflexivity.
      * unfold IPv4len, IPv6len in *. destruct HL as [-> | ->]; reflexivity.
    + lia.
    + rewrite !length_app. simpl. unfold len. lia.
    + unfold len, IPv4len, IPv6len in HL. lia.
  - destruct W as (HL & ->). intros LH LT.
    pose proof (len_nonneg ah) as NH.
    assert (byte_val (byte_of (len ah)) = len ah) as BV
        by (rewrite byte_val_of; apply Z.mod_small; lia).
    assert (addr_size (([r0; r1; r2]
              ++ (socksAddrDomain :: byte_of (len ah) :: ah)
              ++ [p0; p1]) ++ payload)
            = Done (inl (3 + 1 + 1 + len ah + 2))) as AS.
    { unfold addr_size, index. simpl. rewrite BV. reflexivity. }
    rewrite AS, LT. cbn [p_out].
    rewrite <- !app_assoc.
    rewrite (extract_addr_header r0 r1 r2 _ p0 p1 (byte_of (len ah) :: ah)
               (payload ++ sp)).
    + change (Byte.eqb socksAddrDomain socksAddrIPv4
              || Byte.eqb socksAddrDomain socksAddrIPv6) with false.
      cbv iota. rewrite EU. reflexivity.
    + unfold len. simpl. lia.
    + rewrite !length_app. simpl. unfold len. lia.
    + simpl. lia.
Qed.

Lemma firstn_len_app (l1 l2 : list byte) : firstn (Z.to_nat (len l1)) (l1 ++ l2) = l1.
Proof.
  unfold len. rewrite Nat2Z.id, firstn_app, firstn_all, Nat.sub_diag.
  cbn [firstn]. apply app_nil_r.
Qed.

Lemma skipn_len_app (l1 l2 : list byte) : skipn (Z.to_nat (len l1)) (l1 ++ l2) = l2.
Proof.
  unfold len. rewrite Nat2Z.id, skipn_app, skipn_all, Nat.sub_diag. reflexivity.
Qed.

(** ** [Read] in SOCKS mode: the header is stripped *)

Lemma copy_prefix (dst src : list byte) :
  (length src <= length dst)%nat -> copy dst src = src ++ skipn (length src) dst.
Proof.
  intros L. unfold copy. rewrite firstn_all2 by lia. reflexivity.
Qed.

Lemma PUT_HEADER_ok (c : udpBridgeConn) (s : UDPConn) (b : list byte) (n : Z) :
  2 <= len b ->
  PUT_HEADER c s b n None
  = mkRead c s (PutUint16_bytes (uint16 n) ++ skipn 2 b) (Done (n + 2, None)).
Proof.
  intros L. unfold PUT_HEADER, PutUint16_at.
  rewrite slice_from_ok by lia. cbn [bind].
  change (Z.to_nat 0) with 0%nat. cbn [skipn].
  replace (len b <? 2) with false by (symmetry; apply Z.ltb_ge; lia).
  unfold copy_at. cbn [firstn skipn app].
  rewrite copy_prefix by (unfold len in L; simpl; lia).
  reflexivity.
Qed.

(** C7: in SOCKS mode, with no seed buffer pending, when the bytes
    received from the socket (the datagram, cut to the caller's buffer) are
    a well-formed SOCKS5 UDP header followed by the payload [P], [Read]
    returns [len(P) + 2] without error and leaves in the caller's buffer
    the big-endian 16-bit [len(P)] followed by exactly the bytes of [P];
    the sender is recorded as the peer. *)
Theorem Read_socks_strips_header (c : udpBridgeConn) (s : UDPConn)
  (b : list byte) (r0 r1 r2 : byte) (a : uAddr) (d P : list byte)
  (src : NetAddr) (later : list arrival) :
  socks c = true ->
  initBuf c = None ->
  wf_addr a ->
  inbox s = Datagram d src :: later ->
  firstn (length b) d = header_bytes r0 r1 r2 a ++ P ->
  2050 <= len b ->
  len P < 65536 ->
  let r := Read c s b in
  r_out r = Done (len P + 2, None)
  /\ firstn (2 + length P) (r_buf r) = PutUint16_bytes (len P) ++ P
  /\ udpSrc (r_conn r) = Some src
  /\ inbox (r_sock r) = later.
Proof.
  intros HS HI W HIn HR LB LP.
  pose proof (len_header_bytes r0 r1 r2 a W) as LH.
  set (recv := header_bytes r0 r1 r2 a ++ P) in *.
  pose proof (len_nonneg P) as NP.
  assert (7 <= size a) as S7.
  { destruct W as [_ W]. destruct (ip a).
    - destruct W as ([E|E] & _ & ->); rewrite E; unfold IPv4len, IPv6len; lia.
    - destruct W as (_ & ->). pose proof (len_nonneg (host a)). lia. }
  assert (len recv = size a + len P) as LDE by (unfold recv; rewrite len_app; lia).
  assert (Z.min (len d) (len b) = len recv) as LMin.
  { rewrite <- HR. unfold len. rewrite length_firstn. lia. }
  set (tail := skipn (length d) b).
  assert (Read c s b
          = mkRead (set_udpSrc c (Some src))
              (mkUDP later (outbox s) (faults s) (sock_closed s))
              (PutUint16_bytes (len P) ++ skipn 2 (copy_at (recv ++ tail) 2 P))
              (Done (len P + 2, None))) as E.
  { unfold Read, expectedMaxPacketSize.
    replace (len b <? 2050) with false by (symmetry; apply Z.ltb_ge; lia).
    rewrite HI. unfold ReadFrom. rewrite HIn, LMin.
    unfold copy. rewrite HR. fold tail.
    cbn [socks set_udpSrc]. rewrite HS.
    rewrite firstn_len_app.
    unfold recv at 1. rewrite (parse_header_bytes r0 r1 r2 a P _ W).
    rewrite slice_of_ok; [|lia|rewrite len_app; pose proof (len_nonneg tail); lia].
    replace (sub (recv ++ tail) (Z.to_nat (size a)) (Z.to_nat (len recv))) with P.
    2:{ symmetry. unfold recv. rewrite <- app_assoc. apply sub_mid.
        - unfold len in LH. lia.
        - rewrite len_app. unfold len in *. lia. }
    rewrite PUT_HEADER_ok.
    2:{ unfold copy_at, len. rewrite length_app, length_firstn, length_app.
        unfold len in *. lia. }
    replace (len recv - size a) with (len P) by lia.
    unfold uint16. rewrite Z.mod_small by lia. reflexivity. }
  rewrite E. cbn [r_out r_buf r_conn r_sock udpSrc inbox set_udpSrc].
  split; [reflexivity|]. split; [|split; reflexivity].
  assert (length (skipn 2 (recv ++ tail)) >= length P)%nat as LR.
  { rewrite length_skipn, length_app. unfold len in *. lia. }
  unfold copy_at. rewrite copy_prefix by lia.
  rewrite skipn_app.
  assert (length (firstn 2 (recv ++ tail)) = 2%nat) as L2.
  { rewrite length_firstn, length_app. unfold len in *. lia. }
  rewrite L2, skipn_all2 by lia. cbn [app Nat.sub skipn].
  rewrite app_assoc, firstn_app.
  replace (length (PutUint16_bytes (len P) ++ P)) with (2 + length P)%nat
    by (rewrite length_app; reflexivity).
  rewrite Nat.sub_diag, firstn_all2 by (rewrite length_app; simpl; lia).
  cbn [firstn]. apply app_nil_r.
Qed.

Lemma Read_socks_strips_header_witness :
  let r := Read (socks_fresh addr_1_2_3_4_53 None)
             (mkUDP [Datagram (ipv4_header_1_2_3_4_53 ++ PING) (mkNetAddr [] 9)]
                [] [] false)
             (zeros 2050) in
  r_out r = Done (len PING + 2, None)
  /\ firstn (2 + length PING) (r_buf r) = PutUint16_bytes (len PING) ++ PING
  /\ udpSrc (r_conn r) = Some (mkNetAddr [] 9)
  /\ inbox (r_sock r) = [].
Proof.
  apply (Read_socks_strips_header (socks_fresh addr_1_2_3_4_53 None)
           (mkUDP [Datagram (ipv4_header_1_2_3_4_53 ++ PING) (mkNetAddr [] 9)]
              [] [] false)
           (zeros 2050) x00 x00 x00 addr_1_2_3_4_53
           (ipv4_header_1_2_3_4_53 ++ PING) PING (mkNetAddr [] 9) []).
  - reflexivity.
  - reflexivity.
  - split; [split; [vm_compute; discriminate | reflexivity]|].
    split; [left; reflexivity | split; reflexivity].
  - reflexivity.
  - reflexivity.
  - vm_compute. discriminate.
  - reflexivity.
Defined.

(** ** [Write]: the recursion *)

Section WriteRecursion.

Variables h4 h6 : list byte.

Let rec_t : Type := udpBridgeConn -> UDPConn -> list byte -> option write_result.

Lemma Write_TEST_ext (rec1 rec2 : rec_t) c s b ln buf :
  (forall c' s' b', (length b' <= length buf)%nat -> rec1 c' s' b' = rec2 c' s' b') ->
  Write_TEST h4 h6 rec1 c s b ln buf = Write_TEST h4 h6 rec2 c s b ln buf.
Proof.
  intros H. unfold Write_TEST.
  destruct (len buf <? ln); [reflexivity|].
  destruct (len buf =? ln); [reflexivity|].
  destruct (write h4 h6 c s _) as [s1 [[n [e|]]|p]]; try reflexivity.
  apply H. rewrite length_skipn. lia.
Qed.

Lemma Write_parse_ext (rec1 rec2 : rec_t) c s b :
  (forall c' s' b', (length b' < length b)%nat -> rec1 c' s' b' = rec2 c' s' b') ->
  Write_parse h4 h6 rec1 c s b = Write_parse h4 h6 rec2 c s b.
Proof.
  intros H. unfold Write_parse.
  destruct (len b =? 1); [reflexivity|].
  destruct b as [|b0 [|b1 tl]]; try reflexivity.
  cbn [Uint16_of]. unfold slice_from.
  destruct (_ && _); [|reflexivity].
  change (Z.to_nat 2) with 2%nat. cbn [skipn].
  apply Write_TEST_ext. intros c' s' b' L. apply H. simpl. lia.
Qed.

Lemma Write_body_ext (rec1 rec2 : rec_t) c s b :
  (forall c' s' b', (length b' < length b)%nat -> rec1 c' s' b' = rec2 c' s' b') ->
  Write_body h4 h6 rec1 c s b = Write_body h4 h6 rec2 c s b.
Proof.
  intros H. unfold Write_body.
  destruct (len b =? 0); [reflexivity|].
  destruct (incompleteLen c).
  - destruct (index _ 0) as [h|p]; [|reflexivity].
    destruct b as [|b0 rest]; [reflexivity|].
    f_equal. apply Write_TEST_ext. intros c' s' b' L. apply H. simpl. lia.
  - destruct (0 <? wm_remain c).
    + destruct (wm_remain _ =? 0); [reflexivity|].
      destruct (0 <? wm_remain _); [reflexivity|].
      destruct (write h4 h6 _ _ _) as [s1 [[n [e|]]|p]]; try reflexivity.
      f_equal. apply Write_parse_ext. intros c' s' b' L. apply H.
      rewrite length_skipn in L. lia.
    + f_equal. apply Write_parse_ext. exact H.
Qed.

Lemma Write_fuel_enough (n : nat) :
  forall b, (length b <= n)%nat ->
  forall f c s, (length b < f)%nat ->
  Write_fuel h4 h6 f c s b = Write h4 h6 c s b.
Proof.
  induction n as [|n IH]; intros b L f c s Lf.
  - destruct f as [|f]; [lia|]. destruct b; [|simpl in L; lia].
    unfold Write. cbn [length Write_fuel].
    apply Write_body_ext. intros c' s' b' L'. simpl in L'. lia.
  - destruct f as [|f]; [lia|]. unfold Write. cbn [Write_fuel].
    apply Write_body_ext. intros c' s' b' L'.
    rewrite (IH b') by lia. rewrite (IH b') by lia. reflexivity.
Qed.

(** The equation of the source: the recursive call is [Write] itself. *)
Lemma Write_unfold c s b :
  Write h4 h6 c s b = Write_body h4 h6 (Write h4 h6) c s b.
Proof.
  unfold Write at 1. cbn [Write_fuel].
  apply Write_body_ext. intros c' s' b' L.
  apply (Write_fuel_enough (length b')); lia.
Qed.

Lemma Write_TEST_returns (rec : rec_t) c s b ln buf :
  (forall c' s' b', (length b' <= length buf)%nat -> exists r, rec c' s' b' = Some r) ->
  exists r, Write_TEST h4 h6 rec c s b ln buf = Some r.
Proof.
  intros H. unfold Write_TEST.
  destruct (len buf <? ln); [eauto|].
  destruct (len buf =? ln); [eauto|].
  destruct (write h4 h6 c s _) as [s1 [[n [e|]]|p]]; eauto.
  apply H. rewrite length_skipn. lia.
Qed.

Lemma Write_parse_returns (rec : rec_t) c s b :
  (forall c' s' b', (length b' < length b)%nat -> exists r, rec c' s' b' = Some r) ->
  exists r, Write_parse h4 h6 rec c s b = Some r.
Proof.
  intros H. unfold Write_parse.
  destruct (len b =? 1); [eauto|].
  destruct b as [|b0 [|b1 tl]]; cbn [Uint16_of]; eauto.
  unfold slice_from. destruct (_ && _); [|eauto].
  change (Z.to_nat 2) with 2%nat. cbn [skipn].
  apply Write_TEST_returns. intros c' s' b' L. apply H. simpl. lia.
Qed.

Lemma option_map_returns {A B : Type} (f : A -> B) (o : option A) :
  (exists r, o = Some r) -> exists r, option_map f o = Some r.
Proof. intros [r ->]. simpl. eauto. Qed.

Lemma Write_body_returns (rec : rec_t) c s b :
  (forall c' s' b', (length b' < length b)%nat -> exists r, rec c' s' b' = Some r) ->
  exists r, Write_body h4 h6 rec c s b = Some r.
Proof.
  intros H. unfold Write_body.
  destruct (len b =? 0); [eauto|].
  destruct (incompleteLen c).
  - destruct (index _ 0) as [h|p]; [|eauto].
    destruct b as [|b0 rest]; [eauto|].
    apply option_map_returns, Write_TEST_returns.
    intros c' s' b' L. apply H. simpl. lia.
  - destruct (0 <? wm_remain c).
    + destruct (wm_remain _ =? 0); [eauto|].
      destruct (0 <? wm_remain _); [eauto|].
      destruct (write h4 h6 _ _ _) as [s1 [[n [e|]]|p]]; eauto.
      apply option_map_returns, Write_parse_returns.
      intros c' s' b' L. apply H. rewrite length_skipn in L. lia.
    + apply option_map_returns, Write_parse_returns. exact H.
Qed.

(** [Write] returns (or panics) on every chunk: the bound on the depth of
    the recursion is never reached. *)
Lemma Write_returns c s b : exists r, Write h4 h6 c s b = Some r.
Proof.
  remember (length b) as n eqn:E. revert c s b E.
  induction n as [n IH] using lt_wf_ind. intros c s b ->.
  rewrite Write_unfold. apply Write_body_returns.
  intros c' s' b' L. apply (IH (length b') L). reflexivity.
Qed.

End WriteRecursion.

(** ** [Write]: the states of the writer and its steps *)

Section WriteSteps.

Variables h4 h6 : list byte.

Lemma len_cons {A : Type} (x : A) (l : list A) : len (x :: l) = 1 + len l.
Proof. unfold len. cbn [length]. lia. Qed.

Lemma Write_nil c s :
  Write h4 h6 c s [] = Some (mkWrite c s (Done (0, None))).
Proof. reflexivity. Qed.

(** [write] looks at the mode, the peer and the destination only. *)
Lemma write_cong c1 c2 s b :
  socks c1 = socks c2 -> udpSrc c1 = udpSrc c2 -> dst c1 = dst c2 ->
  write h4 h6 c1 s b = write h4 h6 c2 s b.
Proof. unfold write. intros -> -> ->. reflexivity. Qed.

Lemma TEST_short (rec : udpBridgeConn -> UDPConn -> list byte -> option write_result)
  c s b ln buf :
  len buf < ln ->
  Write_TEST h4 h6 rec c s b ln buf
  = Some (mkWrite (set_wm_remain (set_wm_buf c buf) (ln - len buf)) s
            (Done (len b, None))).
Proof. intros L. unfold Write_TEST. zb. reflexivity. Qed.

Lemma TEST_exact (rec : udpBridgeConn -> UDPConn -> list byte -> option write_result)
  c s b ln buf :
  len buf = ln ->
  Write_TEST h4 h6 rec c s b ln buf = Some (return_write h4 h6 c s buf).
Proof. intros L. unfold Write_TEST. zb. reflexivity. Qed.

Lemma TEST_surplus (rec : udpBridgeConn -> UDPConn -> list byte -> option write_result)
  c s b ln buf :
  ln < len buf ->
  Write_TEST h4 h6 rec c s b ln buf
  = match write h4 h6 c s (firstn (Z.to_nat ln) buf) with
    | (s', Panicked p) => Some (mkWrite c s' (Panicked p))
    | (s', Done (n, Some e)) => Some (mkWrite c s' (Done (n, Some e)))
    | (s', Done (_, None)) => rec c s' (skipn (Z.to_nat ln) buf)
    end.
Proof. intros L. unfold Write_TEST. zb. reflexivity. Qed.

(** From Idle, a chunk of one byte. *)
Lemma Write_idle_1 c s x :
  state_of c = Idle ->
  Write h4 h6 c s [x]
  = Some (mkWrite (set_incompleteLen (set_wm_buf c [x]) true) s (Done (1, None))).
Proof.
  unfold state_of. intros St. rewrite Write_unfold. unfold Write_body.
  destruct (incompleteLen c); [discriminate|].
  destruct (0 <? wm_remain c); [discriminate|].
  reflexivity.
Qed.

(** From Idle, a chunk of two bytes or more reaches TEST with the length
    it starts with. *)
Lemma Write_idle_2 c s b0 b1 tl :
  state_of c = Idle ->
  Write h4 h6 c s (b0 :: b1 :: tl)
  = option_map (deferred (b0 :: b1 :: tl))
      (Write_TEST h4 h6 (Write h4 h6) c s (b0 :: b1 :: tl) (Uint16 b0 b1) tl).
Proof.
  unfold state_of. intros St. rewrite Write_unfold. unfold Write_body.
  destruct (incompleteLen c); [discriminate|].
  destruct (0 <? wm_remain c); [discriminate|].
  pose proof (len_nonneg tl).
  rewrite !len_cons. zb. unfold Write_parse. rewrite !len_cons. zb.
  cbn [Uint16_of]. unfold slice_from. rewrite !len_cons. 
  replace ((0 <=? 2) && (2 <=? 1 + (1 + len tl))) with true
    by (symmetry; apply andb_true_iff; split; apply Z.leb_le; lia).
  reflexivity.
Qed.

(** From AwaitingSecondLengthByte, the first byte of the chunk completes
    the length. *)
Lemma Write_second_byte c s h b0 tl :
  incompleteLen c = true -> wm_buf c = [h] ->
  Write h4 h6 c s (b0 :: tl)
  = option_map (deferred (b0 :: tl))
      (Write_TEST h4 h6 (Write h4 h6) (set_incompleteLen c false) s
         (b0 :: tl) (Uint16 h b0) tl).
Proof.
  intros HI HB. rewrite Write_unfold. unfold Write_body.
  pose proof (len_nonneg tl). rewrite len_cons. zb.
  rewrite HI. cbn [wm_buf set_incompleteLen]. rewrite HB. reflexivity.
Qed.

(** From AwaitingPayload, a chunk that does not complete the frame. *)
Lemma Write_waiting_more c s b :
  incompleteLen c = false -> 0 < len b < wm_remain c ->
  Write h4 h6 c s b
  = Some (mkWrite (set_wm_buf (set_wm_remain c (wm_remain c - len b))
                     (wm_buf c ++ b)) s (Done (len b, None))).
Proof.
  intros HI L. rewrite Write_unfold. unfold Write_body. rewrite HI.
  cbn [wm_remain set_wm_remain wm_buf]. zb. reflexivity.
Qed.

(** From AwaitingPayload, a chunk that completes the frame exactly. *)
Lemma Write_waiting_exact c s b :
  incompleteLen c = false -> 0 < len b -> len b = wm_remain c ->
  Write h4 h6 c s b
  = Some (deferred b (return_write h4 h6 (set_wm_remain c 0) s (wm_buf c ++ b))).
Proof.
  intros HI L E. rewrite Write_unfold. unfold Write_body. rewrite HI.
  cbn [wm_remain set_wm_remain wm_buf]. zb.
  replace (wm_remain c - len b) with 0 by lia. reflexivity.
Qed.

End WriteSteps.

(** ** [Write]: one frame delivered in pieces *)

Section FrameReassembly.

Variables h4 h6 : list byte.

Lemma state_idle_inv c :
  state_of c = Idle -> incompleteLen c = false /\ wm_remain c <= 0.
Proof.
  unfold state_of. destruct (incompleteLen c); [discriminate|].
  destruct (Z.ltb_spec 0 (wm_remain c)); [discriminate|]. split; [reflexivity|lia].
Qed.

Lemma app_nonnil_len (l1 l2 : list byte) : l2 <> [] -> len l1 < len (l1 ++ l2).
Proof.
  intros N. rewrite len_app. destruct l2; [contradiction|].
  rewrite len_cons. pose proof (len_nonneg l2). lia.
Qed.

Lemma progress_step (c0 c : udpBridgeConn) (s : UDPConn) (h0 h1 : byte)
  (payload w1 p rest : list byte) :
  Uint16 h0 h1 = len payload ->
  progress c0 (len payload) w1 c ->
  w1 ++ p ++ rest = h0 :: h1 :: payload ->
  p <> [] ->
  (rest <> [] ->
   exists c', Write h4 h6 c s p = Some (mkWrite c' s (Done (len p, None)))
              /\ progress c0 (len payload) (w1 ++ p) c') /\
  (rest = [] ->
   exists r, Write h4 h6 c s p = Some r /\ emits h4 h6 c0 s payload p r).
Proof.
  intros HL (Hs & Hu & Hd & HP) HW HN.
  destruct w1 as [|x [|y pl0]]; cbn [app] in HW.
  - (* nothing yet *)
    destruct (state_idle_inv c HP) as [HI HR].
    destruct p as [|p0 [|p1 pl]]; [contradiction| |]; cbn [app] in HW.
    + injection HW as -> Hrest. split.
      * intros _. eexists. split; [apply Write_idle_1; exact HP|].
        repeat split; simpl; try assumption; try reflexivity; try lia.
      * intros ->. discriminate.
    + injection HW as -> -> Hpl. split.
      * intros NR. rewrite Write_idle_2 by exact HP.
        pose proof (app_nonnil_len pl rest NR) as LT. rewrite Hpl in LT.
        rewrite TEST_short by lia. eexists. split; [reflexivity|].
        repeat split; simpl; try assumption; try reflexivity; try lia.
      * intros ->. rewrite app_nil_r in Hpl. subst pl.
        rewrite Write_idle_2 by exact HP.
        rewrite TEST_exact by lia. eexists. split; [reflexivity|].
        exists c. repeat split; simpl; try assumption; try reflexivity; try lia.
  - (* the first length byte *)
    destruct HP as [HI HB].
    destruct p as [|p0 pl]; [contradiction|]; cbn [app] in HW.
    injection HW as -> -> Hpl. split.
    + intros NR. rewrite (Write_second_byte h4 h6 c s h0) by assumption.
      pose proof (app_nonnil_len pl rest NR) as LT. rewrite Hpl in LT.
      rewrite TEST_short by lia. eexists. split; [reflexivity|].
      repeat split; simpl; try assumption; try reflexivity; try lia.
    + intros ->. rewrite app_nil_r in Hpl. subst pl.
      rewrite (Write_second_byte h4 h6 c s h0) by assumption.
      rewrite TEST_exact by lia. eexists. split; [reflexivity|].
      exists (set_incompleteLen c false). repeat split; simpl; try assumption; try reflexivity; try lia.
  - (* the length and a part of the payload *)
    destruct HP as (HI & HB & HR & HLt).
    injection HW as -> -> Hpl.
    assert (0 < len p) as Lp.
    { destruct p; [contradiction|]. rewrite len_cons.
      pose proof (len_nonneg p). lia. }
    assert (len payload = len pl0 + len p + len rest) as LS
        by (rewrite <- Hpl, !len_app; lia).
    split.
    + intros NR.
      assert (0 < len rest) as Lr.
      { destruct rest; [contradiction|]. rewrite len_cons.
        pose proof (len_nonneg rest). lia. }
      rewrite Write_waiting_more by (try assumption; lia).
      eexists. split; [reflexivity|].
      rewrite HB.
      repeat split; simpl; try assumption; try reflexivity; try lia;
          rewrite len_app; lia.
    + intros ->. rewrite app_nil_r in Hpl.
      change (@len byte []) with 0 in LS.
      rewrite Write_waiting_exact by (try assumption; lia).
      eexists. split; [reflexivity|].
      exists (set_wm_remain c 0). rewrite HB, Hpl.
      repeat split; simpl; try assumption; try reflexivity; try lia.
Qed.

Lemma w_sock_deferred b r : w_sock (deferred b r) = w_sock r.
Proof. unfold deferred. destruct (w_out r) as [[n [e|]]|p]; reflexivity. Qed.

Lemma emits_sock c0 s payload p r :
  emits h4 h6 c0 s payload p r -> w_sock r = fst (write h4 h6 c0 s payload).
Proof.
  intros (c' & -> & Hs & Hu & Hd). rewrite w_sock_deferred.
  unfold return_write. rewrite (write_cong h4 h6 c' c0 s payload Hs Hu Hd).
  destruct (write h4 h6 c0 s payload). reflexivity.
Qed.

Lemma Writes_all_empty c s ps :
  concat ps = [] -> Writes h4 h6 c s ps = Some (c, s).
Proof.
  induction ps as [|p ps IH]; [reflexivity|]. cbn [concat]. intros E.
  apply app_eq_nil in E. destruct E as [-> E].
  cbn [Writes]. rewrite Write_nil. cbn [w_out w_conn w_sock]. apply IH, E.
Qed.

Lemma Writes_frame (c0 : udpBridgeConn) (s : UDPConn) (h0 h1 : byte)
  (payload : list byte) :
  Uint16 h0 h1 = len payload ->
  forall pieces w1 c,
    progress c0 (len payload) w1 c ->
    w1 ++ concat pieces = h0 :: h1 :: payload ->
    concat pieces <> [] ->
    exists c', Writes h4 h6 c s pieces
               = Some (c', fst (write h4 h6 c0 s payload)).
Proof.
  intros HL. induction pieces as [|p ps IH]; intros w1 c HP HW HN.
  - contradiction.
  - cbn [concat] in HW, HN. cbn [Writes].
    destruct p as [|p0 pl].
    + rewrite Write_nil. cbn [w_out w_conn w_sock]. apply (IH w1); assumption.
    + destruct (progress_step c0 c s h0 h1 payload w1 (p0 :: pl) (concat ps)
                  HL HP HW ltac:(discriminate)) as [More Last].
      destruct (concat ps) as [|q qs] eqn:E.
      * destruct (Last eq_refl) as (r & -> & Em).
        pose proof (emits_sock _ _ _ _ _ Em) as ES.
        destruct (w_out r) as [[n [e|]]|pn].
        -- rewrite ES. eauto.
        -- rewrite (Writes_all_empty _ _ _ E), ES. eauto.
        -- rewrite ES. eauto.
      * destruct (More ltac:(discriminate)) as (c' & -> & HP').
        cbn [w_out w_conn w_sock].
        apply (IH (w1 ++ p0 :: pl)).
        -- exact HP'.
        -- rewrite <- app_assoc. exact HW.
        -- discriminate.
Qed.

End FrameReassembly.

Lemma frame_split (payload : list byte) :
  len payload < 65536 ->
  exists h0 h1, frame payload = h0 :: h1 :: payload /\ Uint16 h0 h1 = len payload.
Proof.
  intros L. pose proof (len_nonneg payload) as N.
  destruct (Uint16_PutUint16 (len payload) ltac:(lia)) as (h0 & h1 & E & U).
  exists h0, h1. unfold frame, uint16. rewrite Z.mod_small by lia.
  rewrite E. split; [reflexivity | exact U].
Qed.

(** The pieces of a frame, written in order from the idle state, leave
    the socket as the emission of its payload does. *)
Lemma Writes_of_frame (h4 h6 : list byte) (c : udpBridgeConn)
  (s : UDPConn) (payload : list byte) (pieces : list (list byte)) :
  state_of c = Idle ->
  len payload < 65536 ->
  concat pieces = frame payload ->
  exists c', Writes h4 h6 c s pieces
             = Some (c', fst (write h4 h6 c s payload)).
Proof.
  intros HI HL HC.
  destruct (frame_split payload HL) as (h0 & h1 & EF & EU).
  rewrite EF in HC.
  apply (Writes_frame h4 h6 c s h0 h1 payload EU pieces [] c).
  - repeat split; exact HI.
  - exact HC.
  - rewrite HC. discriminate.
Qed.



(** One byte at a time. *)
Corollary Write_bytewise_same_as_whole (h4 h6 : list byte) (c : udpBridgeConn)
  (s : UDPConn) (payload : list byte) :
  state_of c = Idle ->
  len payload < 65536 ->
  exists c',
    Writes h4 h6 c s (map (fun x => [x]) (frame payload))
    = Some (c', fst (write h4 h6 c s payload)).
Proof.
  intros HI HL. apply Writes_of_frame; [exact HI | exact HL |].
  induction (frame payload) as [|x l IH]; [reflexivity|].
  cbn [map concat app]. rewrite IH. reflexivity.
Qed.

(** ** [Write]: a frame followed by the beginning of the next one *)

(** C4, as stated, fails: a one-byte prefix of the second frame is a
    proper non-empty prefix, and it leaves the writer waiting for the
    second length byte, not for payload bytes. The chunk is the frame of
    the payload [7] followed by the first byte of the frame of [8; 9]. *)
Lemma Write_surplus_one_byte_awaits_length :
  exists r,
    Write [] [] idle_raw quiet_socket
      (frame (bytes_of_nats [7]%nat)
       ++ firstn 1 (frame (bytes_of_nats [8; 9]%nat))) = Some r
    /\ outbox (w_sock r) = [(None, bytes_of_nats [7]%nat)]
    /\ state_of (w_conn r) = AwaitingSecondLengthByte
    /\ state_of (w_conn r) <> AwaitingPayload (len (bytes_of_nats [8; 9]%nat) - 0).
Proof.
  eexists. split; [vm_compute; reflexivity|].
  split; [reflexivity|]. split; [reflexivity | discriminate].
Qed.

(** C4 (amended): from the idle state, a chunk made of one complete frame
    followed by a proper prefix of a second frame that holds at least the
    two bytes of its length makes [Write], when the emission of the first
    payload succeeds, emit that payload once and nothing else, accept the
    whole chunk, and leave the writer in AwaitingPayload with the second
    frame's declared length minus the payload bytes received; the payload
    bytes received are the ones buffered. *)
Theorem Write_frame_then_partial (h4 h6 : list byte) (c : udpBridgeConn)
  (s s' : UDPConn) (n : Z) (p1 p2 part more : list byte) (g0 g1 : byte) :
  state_of c = Idle ->
  len p1 < 65536 -> len p2 < 65536 ->
  frame p2 = g0 :: g1 :: part ++ more ->
  more <> [] ->
  write h4 h6 c s p1 = (s', Done (n, None)) ->
  exists r,
    Write h4 h6 c s (frame p1 ++ g0 :: g1 :: part) = Some r
    /\ w_sock r = s'
    /\ w_out r = Done (len (frame p1 ++ g0 :: g1 :: part), None)
    /\ state_of (w_conn r) = AwaitingPayload (len p2 - len part)
    /\ wm_buf (w_conn r) = part.
Proof.
  intros HI L1 L2 HF HM HW.
  destruct (frame_split p1 L1) as (a0 & a1 & EF1 & EU1).
  destruct (frame_split p2 L2) as (b0 & b1 & EF2 & EU2).
  rewrite EF2 in HF. injection HF as -> -> Hp2.
  pose proof (app_nonnil_len part more HM) as LT. rewrite <- Hp2 in LT.
  pose proof (len_nonneg part) as NP.
  rewrite EF1. cbn [app].
  rewrite Write_idle_2 by exact HI.
  rewrite TEST_surplus by (rewrite len_app, !len_cons; lia).
  rewrite EU1, firstn_len_app, skipn_len_app, HW.
  rewrite Write_idle_2 by exact HI.
  rewrite TEST_short by lia.
  destruct (state_idle_inv c HI) as [HIL _].
  eexists. split; [reflexivity|]. cbn.
  repeat split.
  unfold state_of. cbn. rewrite HIL, EU2. zb. rewrite Hp2. reflexivity.
Qed.

Lemma Write_frame_then_partial_witness :
  exists r,
    Write [] [] idle_raw quiet_socket
      (frame (bytes_of_nats [7]%nat) ++ bytes_of_nats [0; 2; 8]%nat) = Some r
    /\ w_sock r = mkUDP [] [(None, bytes_of_nats [7]%nat)] [] false
    /\ w_out r = Done (len (frame (bytes_of_nats [7]%nat)
                            ++ bytes_of_nats [0; 2; 8]%nat), None)
    /\ state_of (w_conn r)
       = AwaitingPayload (len (bytes_of_nats [8; 9]%nat) - len (bytes_of_nats [8]%nat))
    /\ wm_buf (w_conn r) = bytes_of_nats [8]%nat.
Proof.
  apply (Write_frame_then_partial [] [] idle_raw quiet_socket
           (mkUDP [] [(None, bytes_of_nats [7]%nat)] [] false) 3
           (bytes_of_nats [7]%nat) (bytes_of_nats [8; 9]%nat)
           (bytes_of_nats [8]%nat) (bytes_of_nats [9]%nat) x00 x02).
  - reflexivity.
  - reflexivity.
  - reflexivity.
  - reflexivity.
  - discriminate.
  - reflexivity.
Defined.

(** ** [Write]: the count it returns *)

Section WriteCount.

Variables h4 h6 : list byte.

Lemma deferred_count b r n :
  w_out (deferred b r) = Done (n, None) -> n = len b.
Proof.
  unfold deferred. destruct (w_out r) as [[k [e|]]|p] eqn:E; cbn [w_out].
  - rewrite E. discriminate.
  - intros [= <-]. reflexivity.
  - rewrite E. discriminate.
Qed.

Lemma option_map_deferred_count b o r n :
  option_map (deferred b) o = Some r -> w_out r = Done (n, None) -> n = len b.
Proof.
  destruct o as [x|]; [|discriminate]. intros [= <-]. apply deferred_count.
Qed.

(** A [Write] that returns without error reports the length of the chunk,
    unless the chunk overran the frame that was pending: then it reports
    the length of what followed that frame. *)
Lemma Write_count c s b r n :
  Write h4 h6 c s b = Some r ->
  w_out r = Done (n, None) ->
  n = len b
  \/ (incompleteLen c = false /\ 0 < wm_remain c < len b
      /\ n = len b - wm_remain c).
Proof.
  rewrite Write_unfold. unfold Write_body.
  destruct (len b =? 0).
  { intros [= <-]. intros H. left. exact (deferred_count _ _ _ H). }
  destruct (incompleteLen c).
  { destruct (index _ 0) as [h|p]; [|intros [= <-]; discriminate].
    destruct b as [|b0 rest]; [intros [= <-]; discriminate|].
    intros E H. left. exact (option_map_deferred_count _ _ _ _ E H). }
  destruct (Z.ltb_spec 0 (wm_remain c)) as [Pos|NPos].
  2:{ intros E H. left. exact (option_map_deferred_count _ _ _ _ E H). }
  cbn [wm_remain set_wm_remain wm_buf].
  destruct (Z.eqb_spec (wm_remain c - len b) 0) as [E0|N0].
  { intros [= <-] H. left. exact (deferred_count _ _ _ H). }
  destruct (Z.ltb_spec 0 (wm_remain c - len b)) as [More|Over].
  { intros [= <-] H. left. exact (deferred_count _ _ _ H). }
  destruct (write h4 h6 _ s _) as [s1 [[k [e|]]|p]];
    try (intros [= <-]; discriminate).
  intros E H. right. split; [reflexivity|]. split; [lia|].
  rewrite (option_map_deferred_count _ _ _ _ E H).
  unfold len. rewrite length_skipn. unfold len in *. lia.
Qed.

(** On that path the count is always the short one. *)
Lemma Write_overrun_count c s b r n :
  incompleteLen c = false -> 0 < wm_remain c < len b ->
  Write h4 h6 c s b = Some r ->
  w_out r = Done (n, None) ->
  n = len b - wm_remain c.
Proof.
  intros HI HR. rewrite Write_unfold. unfold Write_body. rewrite HI.
  cbn [wm_remain set_wm_remain wm_buf]. zb.
  destruct (write h4 h6 _ s _) as [s1 [[k [e|]]|p]];
    try (intros [= <-]; discriminate).
  intros E H. rewrite (option_map_deferred_count _ _ _ _ E H).
  unfold len. rewrite length_skipn. unfold len in *. lia.
Qed.

End WriteCount.

(** C2, on the code: a chunk that completes the pending frame and goes on
    is accepted with a short count. After the length prefix [0; 1], the
    three-byte chunk [7; 0; 0] completes the frame of payload [7] and holds
    the whole empty frame [0; 0]; both frames are emitted, no error is
    returned, and the count returned is 2: the deferred function reads
    [len(b)] after [b = b[remain:]]. *)
Theorem Write_overrun_returns_short_count (h4 h6 : list byte) :
  exists r1 r2,
    Write h4 h6 idle_raw quiet_socket bytes_0_1 = Some r1
    /\ w_out r1 = Done (2, None)
    /\ state_of (w_conn r1) = AwaitingPayload 1
    /\ Write h4 h6 (w_conn r1) (w_sock r1) bytes_7_0_0 = Some r2
    /\ outbox (w_sock r2) = [(None, bytes_of_nats [7]%nat); (None, [])]
    /\ w_out r2 = Done (2, None)
    /\ len bytes_7_0_0 = 3.
Proof.
  eexists. eexists. split; [vm_compute; reflexivity|].
  split; [reflexivity|]. split; [reflexivity|].
  split; [vm_compute; reflexivity|].
  split; [reflexivity|]. split; reflexivity.
Qed.

(** The same in SOCKS mode with the peer known, as [handleUDPtoTCP] sets
    the members up: two datagrams are sent, and 2 is returned for the
    3 bytes. *)
Lemma Write_overrun_short_count_socks :
  let c := socks_fresh addr_1_2_3_4_53 (Some a_peer) in
  exists r1 r2,
    Write template_IPv4 template_IPv6 c quiet_socket bytes_0_1 = Some r1
    /\ Write template_IPv4 template_IPv6 (w_conn r1) (w_sock r1) bytes_7_0_0
       = Some r2
    /\ outbox (w_sock r2)
       = [(Some a_peer, ipv4_header_1_2_3_4_53 ++ bytes_of_nats [7]%nat);
          (Some a_peer, ipv4_header_1_2_3_4_53)]
    /\ w_out r2 = Done (2, None).
Proof.
  cbv zeta. eexists. eexists. split; [vm_compute; reflexivity|].
  split; [vm_compute; reflexivity|]. split; reflexivity.
Qed.

(** ** [write] before the peer is known *)

Section EarlyWrite.

Variables h4 h6 : list byte.

(** In SOCKS mode without a peer, [write] sends nothing and returns
    [(0, nil)]. *)
Lemma write_before_peer c s b :
  socks c = true -> udpSrc c = None ->
  write h4 h6 c s b = (s, Done (0, None)).
Proof. unfold write. intros -> ->. reflexivity. Qed.

(** From the idle state the whole chunk is then accepted, whatever number
    of frames it holds. *)
Lemma Write_before_peer_idle c s :
  socks c = true -> udpSrc c = None ->
  forall b, state_of c = Idle ->
  exists r, Write h4 h6 c s b = Some r
            /\ w_sock r = s /\ w_out r = Done (len b, None).
Proof.
  intros HS HU b. remember (length b) as k eqn:E. revert b E.
  induction k as [k IH] using lt_wf_ind. intros b -> HI.
  destruct b as [|b0 [|b1 tl]].
  - rewrite Write_nil. eauto.
  - rewrite Write_idle_1 by exact HI. eauto.
  - rewrite Write_idle_2 by exact HI.
    destruct (Z.lt_trichotomy (len tl) (Uint16 b0 b1)) as [L|[L|L]].
    + rewrite TEST_short by exact L. eexists. split; [reflexivity|]. split; reflexivity.
    + rewrite TEST_exact by exact L. unfold return_write.
      rewrite write_before_peer by assumption.
      eexists. split; [reflexivity|]. split; reflexivity.
    + rewrite TEST_surplus by exact L.
      rewrite write_before_peer by assumption.
      destruct (IH (length (skipn (Z.to_nat (Uint16 b0 b1)) tl))
                  ltac:(rewrite length_skipn; simpl; lia)
                  (skipn (Z.to_nat (Uint16 b0 b1)) tl) eq_refl HI)
        as (r & -> & ES & EO).
      eexists. split; [reflexivity|]. cbn [option_map].
      unfold deferred. rewrite EO. split; [exact ES | reflexivity].
Qed.

End EarlyWrite.

(** C10, on the code: in SOCKS mode with no peer learned, the payloads are
    dropped without an error, yet the count of the enclosing [Write] is
    short when the chunk overruns the pending frame: after [0; 1], the
    chunk [7; 0; 0] sends nothing, returns no error and reports 2 of its
    3 bytes. *)
Theorem Write_before_peer_overrun_short_count (h4 h6 : list byte) :
  write h4 h6 peerless quiet_socket (bytes_of_nats [7]%nat)
  = (quiet_socket, Done (0, None))
  /\ exists r1 r2,
       Write h4 h6 peerless quiet_socket bytes_0_1 = Some r1
       /\ Write h4 h6 (w_conn r1) (w_sock r1) bytes_7_0_0 = Some r2
       /\ outbox (w_sock r2) = []
       /\ w_out r2 = Done (2, None)
       /\ len bytes_7_0_0 = 3.
Proof.
  split; [reflexivity|].
  eexists. eexists. split; [vm_compute; reflexivity|].
  split; [vm_compute; reflexivity|].
  split; [reflexivity|]. split; reflexivity.
Qed.

(** ** Serializing the destination: the domain header and the buffer *)

(** C5, on the code: a domain destination whose name has 250 bytes is a
    destination that [parseUDPHeader] returns, and serializing it in
    [write] panics, so nothing is sent and nothing can be parsed back: the
    buffer is [len(b) + 256] bytes long while the header takes
    [5 + 250 + 2] of them, and [xbuf[:ln+len(b)]] is out of range. *)
Theorem write_long_domain_panics (h4 h6 : list byte) :
  p_out (parseUDPHeader None
           (Some (mkSlice (header_bytes x00 x00 x00 long_domain ++ PING) []))
           true)
  = Done (x00, Some long_domain, None)
  /\ write h4 h6 (socks_fresh long_domain (Some a_peer)) quiet_socket PING
     = (quiet_socket, Panicked PanicSliceBounds).
Proof.
  split; vm_compute; reflexivity.
Qed.

(** ** [handleUDPtoTCP]: the pool and its supervision *)

Lemma pool_failing_open src d seed maxConns :
  Forall (fun m => closed m = false)
    (pool DialUpstream_failing src d seed maxConns).
Proof.
  unfold pool. apply Forall_forall. intros m Hin.
  apply in_map_iff in Hin. destruct Hin as (i & <- & _). reflexivity.
Qed.

Lemma count_closed_open srcs :
  Forall (fun m => closed m = false) srcs -> count_closed srcs = 0%nat.
Proof.
  unfold count_closed. induction 1 as [|m l Hm _ IH]; [reflexivity|].
  cbn [filter]. rewrite Hm. exact IH.
Qed.

Lemma supervise_never_leaves tick polls srcs maxConns :
  (forall l, Forall (fun m => closed m = false) l ->
             Forall (fun m => closed m = false) (tick l)) ->
  Forall (fun m => closed m = false) srcs ->
  (1 <= maxConns)%nat ->
  supervise tick polls srcs maxConns = None.
Proof.
  intros HT HO HN. revert srcs HO.
  induction polls as [|k IH]; intros srcs HO; [reflexivity|].
  cbn [supervise]. rewrite (count_closed_open srcs HO).
  replace (0 =? maxConns)%nat with false by (symmetry; apply Nat.eqb_neq; lia).
  rewrite IH by (apply HT, HO). reflexivity.
Qed.

Lemma supervise_all_closed tick polls srcs :
  Forall (fun m => closed m = true) srcs ->
  supervise tick (S polls) srcs (length srcs) = Some 0%nat.
Proof.
  intros HC. cbn [supervise].
  replace (count_closed srcs) with (length srcs); [rewrite Nat.eqb_refl; reflexivity|].
  unfold count_closed. induction HC as [|m l Hm _ IH]; [reflexivity|].
  cbn [filter length]. rewrite Hm. cbn [length]. rewrite IH. reflexivity.
Qed.



(** The whole relay on the scenario of the spec: the first datagram is the
    IPv4 header for 1.2.3.4:53 followed by "PING"; one tunnel, whose dial
    fails. *)
Lemma handleUDPtoTCP_all_dials_fail polls :
  handleUDPtoTCP DialUpstream_failing (fun l => l) polls
    (mkUDP [Datagram (ipv4_header_1_2_3_4_53 ++ PING) a_peer] [] [] false) 1
  = StillPolling.
Proof.
  unfold handleUDPtoTCP.
  replace (ReadFrom _ (zeros 2048))
    with (mkUDP [] [] [] false,
          (ipv4_header_1_2_3_4_53 ++ PING) ++ zeros 2034, 14, Some a_peer,
          @None error) by (vm_compute; reflexivity).
  replace (p_out _) with (Done (x00, Some addr_1_2_3_4_53, @None error))
    by (vm_compute; reflexivity).
  replace (slice_of _ _ 14) with (Done PING) by (vm_compute; reflexivity).
  rewrite supervise_never_leaves; [reflexivity | auto | apply pool_failing_open | lia].
Qed.

(** ** Serializing the destination and parsing it back *)

Lemma zeros_app (a b : Z) : 0 <= a -> 0 <= b -> zeros (a + b) = zeros a ++ zeros b.
Proof.
  intros Ha Hb. unfold zeros. rewrite Z2Nat.inj_add by lia. apply repeat_app.
Qed.

Lemma len_zeros (n : Z) : 0 <= n -> len (zeros n) = n.
Proof. intros H. unfold len, zeros. rewrite repeat_length. lia. Qed.

Lemma copy_at_mid (pre old post new : list byte) (lo : nat) :
  lo = length pre -> length old = length new ->
  copy_at (pre ++ old ++ post) lo new = pre ++ new ++ post.
Proof.
  intros -> HL. unfold copy_at, copy.
  rewrite firstn_app, firstn_all, Nat.sub_diag, skipn_app, skipn_all, Nat.sub_diag.
  cbn [firstn skipn app]. rewrite app_nil_r.
  rewrite firstn_all2 by (rewrite length_app; lia).
  rewrite <- HL, skipn_app, skipn_all, Nat.sub_diag. reflexivity.
Qed.

Lemma copy_in_mid (pre old post new : list byte) (lo hi : nat) :
  lo = length pre -> hi = (lo + length old)%nat -> length old = length new ->
  copy_in (pre ++ old ++ post) lo hi new = pre ++ new ++ post.
Proof.
  intros -> -> HL. unfold copy_in, copy.
  rewrite firstn_app, firstn_all, Nat.sub_diag, skipn_app, skipn_all, Nat.sub_diag.
  cbn [firstn skipn app]. rewrite app_nil_r.
  replace (length pre + length old - length pre)%nat with (length old) by lia.
  rewrite (firstn_app (length old) old), firstn_all, Nat.sub_diag.
  cbn [firstn]. rewrite app_nil_r.
  rewrite firstn_all2 by lia.
  rewrite <- HL, skipn_all, app_nil_r.
  rewrite skipn_app, skipn_all2 by lia.
  replace (length pre + length old - length pre)%nat with (length old) by lia.
  rewrite skipn_app, skipn_all, Nat.sub_diag. reflexivity.
Qed.

Lemma store_mid (pre post : list byte) (o v : byte) (i : nat) :
  i = length pre -> store (pre ++ o :: post) i v = Done (pre ++ v :: post).
Proof.
  intros ->. unfold store.
  replace (length pre <? length (pre ++ o :: post))%nat with true
    by (symmetry; apply Nat.ltb_lt; rewrite length_app; simpl; lia).
  rewrite firstn_app, firstn_all, Nat.sub_diag. cbn [firstn].
  rewrite app_nil_r.
  change (S (length pre)) with (1 + length pre)%nat.
  rewrite <- skipn_skipn, skipn_app, skipn_all, Nat.sub_diag. reflexivity.
Qed.

Lemma PutUint16_at_mid (pre old post : list byte) (lo v : Z) :
  lo = len pre -> length old = 2%nat ->
  PutUint16_at (pre ++ old ++ post) lo v = Done (pre ++ PutUint16_bytes v ++ post).
Proof.
  intros -> HL. unfold PutUint16_at.
  pose proof (len_nonneg pre). pose proof (len_nonneg post).
  assert (len old = 2) as LO by (unfold len; lia).
  rewrite slice_from_ok by (rewrite !len_app; lia).
  cbn [bind]. rewrite skipn_len_app, len_app. zb.
  rewrite copy_at_mid; [reflexivity | unfold len; lia | exact HL].
Qed.

Lemma length_zeros (n : Z) : length (zeros n) = Z.to_nat n.
Proof. unfold zeros. apply repeat_length. Qed.

(** Lines 204-209 and 212-217: the template, the address of [k] bytes and
    the port written over a zeroed buffer, then the payload. *)
Lemma fill_template (h i b : list byte) (k v : Z) :
  0 <= k <= 250 ->
  len h = 4 + k + 2 ->
  len i = k ->
  (let x1 := copy (zeros (len b + 256)) h in
   _ <- slice_of x1 4 (4 + k) ;;
   let x2 := copy_in x1 4 (Z.to_nat (4 + k)) i in
   x3 <- PutUint16_at x2 (4 + k) v ;;
   _ <- slice_from x3 (len h) ;;
   Done (copy_at x3 (Z.to_nat (len h)) b, len h))
  = Done (firstn 4 h ++ i ++ PutUint16_bytes v ++ b ++ zeros (250 - k), len h).
Proof.
  intros HK HH HI. pose proof (len_nonneg b) as NB.
  set (A := firstn 4 h). set (M := firstn (Z.to_nat k) (skipn 4 h)).
  set (E := skipn (Z.to_nat k) (skipn 4 h)).
  assert (h = A ++ M ++ E) as EH
      by (unfold A, M, E; rewrite !firstn_skipn; reflexivity).
  assert (length A = 4%nat) as LA
      by (unfold A; rewrite length_firstn; unfold len in HH; lia).
  assert (length M = Z.to_nat k) as LM
      by (unfold M; rewrite length_firstn, length_skipn; unfold len in HH; lia).
  assert (length E = 2%nat) as LE
      by (unfold E; rewrite !length_skipn; unfold len in HH; lia).
  set (R := zeros (len b) ++ zeros (250 - k)).
  assert (copy (zeros (len b + 256)) h = A ++ M ++ E ++ R) as EX.
  { rewrite copy_prefix by (rewrite length_zeros; unfold len in *; lia).
    replace (len b + 256) with (len h + (len b + (250 - k))) by lia.
    rewrite !zeros_app by lia.
    rewrite skipn_app, skipn_all2 by (rewrite length_zeros; unfold len; lia).
    rewrite length_zeros. unfold len at 1. rewrite Nat2Z.id, Nat.sub_diag.
    cbn [skipn app]. rewrite EH at 1. rewrite <- !app_assoc. reflexivity. }
  cbv zeta. rewrite EX.
  assert (len (A ++ M ++ E ++ R) = len h + len R) as LX
      by (rewrite !len_app; unfold len in *; lia).
  pose proof (len_nonneg R) as NR.
  rewrite slice_of_ok by lia. cbn [bind].
  rewrite (copy_in_mid A M (E ++ R) i) by (unfold len in HI; lia).
  rewrite (app_assoc A i).
  rewrite (PutUint16_at_mid (A ++ i) E R)
    by (assumption || (rewrite len_app; unfold len in *; lia)).
  cbn [bind].
  set (hdr := (A ++ i) ++ PutUint16_bytes v).
  assert (len hdr = len h) as LHd
      by (unfold hdr; rewrite !len_app; unfold len in *;
          change (length (PutUint16_bytes v)) with 2%nat; lia).
  rewrite (app_assoc (A ++ i)). fold hdr.
  rewrite slice_from_ok by (rewrite len_app; lia). cbn [bind].
  unfold R. rewrite (copy_at_mid hdr (zeros (len b)) (zeros (250 - k)) b);
    [| unfold len in LHd |- *; lia | rewrite length_zeros; unfold len; lia].
  unfold hdr. rewrite <- !app_assoc. reflexivity.
Qed.

Section RoundTrip.

Variables h4 h6 : list byte.

Lemma wrap_domain (d : uAddr) (b : list byte) :
  ip d = None ->
  1 <= len (host d) <= 249 ->
  0 <= port d < 65536 ->
  wrap h4 h6 d b
  = Done (header_bytes x00 x00 x00 d ++ b ++ zeros (249 - len (host d)),
          5 + len (host d) + 2).
Proof.
  intros HI HL HP. unfold wrap, header_bytes. rewrite HI.
  set (hl := len (host d)) in *.
  pose proof (len_nonneg b) as NB.
  zb. cbn [negb].
  replace (len b + 256)
    with (5 + (hl + (2 + (len b + (249 - hl))))) by lia.
  rewrite !zeros_app by lia.
  change (zeros 5) with [x00; x00; x00; x00; x00].
  set (post := zeros (249 - hl)).
  cbn [app]. unfold store. cbn [length Nat.ltb Nat.leb firstn skipn app bind].
  assert (length (zeros hl) = length (host d)) as LZ.
  { unfold zeros. rewrite repeat_length. unfold hl, len. lia. }
  rewrite slice_from_ok by (unfold len; cbn [length]; lia).
  cbn [bind].
  change (Z.to_nat 5) with 5%nat.
  set (hd5 := [x00; x00; x00; x03; byte_of hl]).
  match goal with
  | |- context [copy_at ?xs 5 (host d)] =>
      replace (copy_at xs 5 (host d))
        with (hd5 ++ host d ++ zeros 2 ++ zeros (len b) ++ post)
        by (symmetry; apply (copy_at_mid hd5 (zeros hl)); [reflexivity | exact LZ])
  end.
  rewrite (app_assoc hd5 (host d)).
  rewrite (PutUint16_at_mid (hd5 ++ host d) (zeros 2) (zeros (len b) ++ post))
    by (reflexivity || (rewrite len_app; reflexivity)).
  cbn [bind].
  unfold uint16. rewrite Z.mod_small by lia.
  set (hdr := (hd5 ++ host d) ++ PutUint16_bytes (port d)).
  assert (len hdr = 5 + hl + 2) as LHd.
  { unfold hdr. rewrite !len_app. reflexivity. }
  rewrite (app_assoc (hd5 ++ host d)). fold hdr.
  rewrite slice_from_ok
    by (rewrite len_app; pose proof (len_nonneg (zeros (len b) ++ post)); lia).
  cbn [bind].
  rewrite (copy_at_mid hdr (zeros (len b)) post b);
    [| unfold len in LHd |- *; lia
     | unfold zeros, len; rewrite repeat_length; lia].
  unfold hdr, hd5. rewrite <- !app_assoc. reflexivity.
Qed.

Hypothesis h4_len : length h4 = 10%nat.
Hypothesis h6_len : length h6 = 22%nat.

Lemma wrap_ipv4 (d : uAddr) (b i : list byte) :
  ip d = Some i -> host d = [] -> len i = 4 ->
  wrap h4 h6 d b
  = Done (firstn 4 h4 ++ i ++ PutUint16_bytes (uint16 (port d)) ++ b ++ zeros 246,
          10).
Proof.
  intros HI HH HL. unfold wrap. rewrite HI, HH, HL.
  change (negb (len (@nil byte) =? 0)) with false.
  change (4 =? IPv4len) with true. cbv iota.
  assert (len h4 = 10) as L10 by (unfold len; rewrite h4_len; reflexivity).
  pose proof (fill_template h4 i b 4 (uint16 (port d))
                ltac:(lia) L10 HL) as F.
  cbv zeta in F |- *.
  change (4 + 4) with 8 in F. change (Z.to_nat 8) with 8%nat in F.
  change (250 - 4) with 246 in F.
  rewrite F, L10. reflexivity.
Qed.

Lemma wrap_ipv6 (d : uAddr) (b i : list byte) :
  ip d = Some i -> host d = [] -> len i = 16 ->
  wrap h4 h6 d b
  = Done (firstn 4 h6 ++ i ++ PutUint16_bytes (uint16 (port d)) ++ b ++ zeros 234,
          22).
Proof.
  intros HI HH HL. unfold wrap. rewrite HI, HH, HL.
  change (negb (len (@nil byte) =? 0)) with false.
  change (16 =? IPv4len) with false. cbv iota.
  assert (len h6 = 22) as L22 by (unfold len; rewrite h6_len; reflexivity).
  pose proof (fill_template h6 i b 16 (uint16 (port d))
                ltac:(lia) L22 HL) as F.
  cbv zeta in F |- *.
  change (4 + 16) with 20 in F. change (Z.to_nat 20) with 20%nat in F.
  change (250 - 16) with 234 in F.
  rewrite F, L22. reflexivity.
Qed.

Hypothesis h4_type : nth_error h4 3 = Some socksAddrIPv4.
Hypothesis h6_type : nth_error h6 3 = Some socksAddrIPv6.

Lemma firstn_4_template (h : list byte) (t : byte) :
  (4 <= length h)%nat -> nth_error h 3 = Some t ->
  exists t0 t1 t2, firstn 4 h = [t0; t1; t2; t].
Proof.
  destruct h as [|t0 [|t1 [|t2 [|t3 tl]]]]; cbn [length]; try lia.
  intros _ [= <-]. exists t0, t1, t2. reflexivity.
Qed.

Lemma wrap_header (d : uAddr) (b : list byte) :
  wf_addr d -> serializable d ->
  exists t0 t1 t2 pad,
    wrap h4 h6 d b = Done (header_bytes t0 t1 t2 d ++ b ++ pad, size d).
Proof.
  intros W S. pose proof W as [PR WA]. unfold serializable in S.
  destruct (ip d) as [i|] eqn:EI.
  - destruct WA as ([L|L] & HH & SZ).
    + destruct (firstn_4_template h4 _ ltac:(lia) h4_type) as (t0 & t1 & t2 & F).
      exists t0, t1, t2, (zeros 246).
      rewrite (wrap_ipv4 d b i EI HH L), F, SZ, L.
      unfold header_bytes, uint16. rewrite EI, L, Z.mod_small by lia.
      change (4 =? IPv4len) with true. cbv iota.
      rewrite <- !app_assoc. reflexivity.
    + destruct (firstn_4_template h6 _ ltac:(lia) h6_type) as (t0 & t1 & t2 & F).
      exists t0, t1, t2, (zeros 234).
      rewrite (wrap_ipv6 d b i EI HH L), F, SZ, L.
      unfold header_bytes, uint16. rewrite EI, L, Z.mod_small by lia.
      change (IPv6len =? IPv4len) with false. cbv iota.
      rewrite <- !app_assoc. reflexivity.
  - destruct WA as (_ & SZ).
    exists x00, x00, x00, (zeros (249 - len (host d))).
    rewrite (wrap_domain d b EI S PR), SZ. reflexivity.
Qed.

(** The round trip where the serialization is right: the datagram that
    [write] sends to the peer starts with a header of [size d] bytes, and
    [parseUDPHeader] reads the destination [d] back from it, with its ip
    or host, its port and its size. *)
Lemma write_then_parse_round_trip (c : udpBridgeConn) (s : UDPConn)
  (b : list byte) (d : uAddr) (src : NetAddr) :
  socks c = true -> udpSrc c = Some src -> dst c = Some d ->
  wf_addr d -> serializable d ->
  hd false (faults s) = false ->
  exists hdr m,
    len hdr = size d
    /\ write h4 h6 c s b
       = (mkUDP (inbox s) (outbox s ++ [(Some src, hdr ++ b)]) (tl (faults s))
            (sock_closed s),
          Done (len b + 2, None))
    /\ forall sp,
         p_out (parseUDPHeader None (Some (mkSlice (hdr ++ b) sp)) true)
         = Done (m, Some d, None).
Proof.
  intros HS HU HD W S HF.
  destruct (wrap_header d b W S) as (t0 & t1 & t2 & pad & EW).
  pose proof (len_header_bytes t0 t1 t2 d W) as LH.
  exists (header_bytes t0 t1 t2 d), t1. split; [exact LH|]. split.
  - unfold write. rewrite HS, HU, HD, EW. cbn [negb bind fst snd].
    pose proof (len_nonneg b) as NB. pose proof (len_nonneg pad) as NP.
    assert (7 <= size d) as S7.
    { destruct W as [_ W]. destruct (ip d).
      - destruct W as ([E|E] & _ & ->); rewrite E; unfold IPv4len, IPv6len; lia.
      - destruct W as (_ & ->). pose proof (len_nonneg (host d)). lia. }
    rewrite slice_to_ok by (rewrite !len_app; lia). cbn [bind].
    rewrite app_assoc.
    replace (size d + len b) with (len (header_bytes t0 t1 t2 d ++ b))
      by (rewrite len_app; lia).
    rewrite firstn_len_app. unfold send.
    destruct (faults s) as [|[|] f]; [|discriminate|];
      cbn [tl]; rewrite len_app, LH; do 2 f_equal; f_equal; lia.
  - intros sp. apply parse_header_bytes, W.
Qed.

End RoundTrip.

(** A domain destination with an empty name has [host == ""] and a nil
    [ip]: [write] takes the last branch and sends it as an IPv6 header. *)
Lemma write_empty_domain_as_ipv6 :
  p_out (parseUDPHeader None
           (Some (mkSlice (header_bytes x00 x00 x00 empty_domain ++ PING) []))
           true)
  = Done (x00, Some empty_domain, None)
  /\ exists pkt,
       write template_IPv4 template_IPv6
         (socks_fresh empty_domain (Some a_peer)) quiet_socket PING
       = (mkUDP [] [(Some a_peer, pkt)] [] false, Done (6, None))
       /\ p_out (parseUDPHeader None (Some (mkSlice pkt [])) true)
          = Done (x00, Some (mkAddr (Some (zeros 16)) [] 53 22), None).
Proof.
  split; [vm_compute; reflexivity|].
  eexists. split; vm_compute; reflexivity.
Qed.

(** ** [Read]: the seed buffer *)

(** The first [Read] of the member that holds the seed: the seed is framed
    and consumed, the socket is not read. *)
Lemma Read_seed (c : udpBridgeConn) (s : UDPConn) (b ib : list byte) :
  initBuf c = Some ib ->
  2050 <= len b -> len ib + 2 <= len b -> len ib < 65536 ->
  Read c s b
  = mkRead (set_initBuf c None) s
      (PutUint16_bytes (len ib) ++ ib ++ skipn (2 + length ib) b)
      (Done (len ib + 2, None)).
Proof.
  intros HI LB LI L16. pose proof (len_nonneg ib) as NI.
  unfold Read, expectedMaxPacketSize. zb. rewrite HI.
  assert (length (firstn 2 b) = 2%nat) as L2
      by (rewrite length_firstn; unfold len in *; lia).
  rewrite PUT_HEADER_ok.
  2:{ unfold copy_at. rewrite len_app. unfold len at 1. rewrite L2.
      pose proof (len_nonneg (copy (skipn 2 b) ib)). lia. }
  unfold uint16. rewrite Z.mod_small by lia.
  unfold copy_at.
  rewrite copy_prefix by (rewrite length_skipn; unfold len in *; lia).
  rewrite skipn_app, L2, skipn_all2 by lia.
  change (2 - 2)%nat with 0%nat. rewrite skipn_O. cbn [app].
  rewrite skipn_skipn. replace (length ib + 2)%nat with (2 + length ib)%nat by lia.
  reflexivity.
Qed.

(** The scenario of the spec: member 0 is seeded with "PING" and its
    first read is the frame of length 4 that carries it. *)
Lemma Read_seed_PING :
  let r := Read (member (Some a_peer) addr_1_2_3_4_53 PING 0) quiet_socket (zeros 2050) in
  r_out r = Done (6, None)
  /\ firstn 6 (r_buf r) = frame PING
  /\ initBuf (r_conn r) = None
  /\ r_sock r = quiet_socket.
Proof.
  cbv zeta. rewrite (Read_seed _ _ _ PING).
  - repeat split.
  - reflexivity.
  - vm_compute. discriminate.
  - vm_compute. discriminate.
  - reflexivity.
Qed.

(** ** [Write]: the stream of frames, whatever the chunks *)

Lemma wire_frames_fuel_S (f : nat) (h0 h1 : byte) (rest : list byte) :
  wire_frames_fuel (S f) (h0 :: h1 :: rest)
  = if len rest <? Uint16 h0 h1 then ([], h0 :: h1 :: rest)
    else (firstn (Z.to_nat (Uint16 h0 h1)) rest
            :: fst (wire_frames_fuel f (skipn (Z.to_nat (Uint16 h0 h1)) rest)),
          snd (wire_frames_fuel f (skipn (Z.to_nat (Uint16 h0 h1)) rest))).
Proof. reflexivity. Qed.

Lemma wire_frames_fuel_enough (n : nat) :
  forall w f, (length w <= n)%nat -> (length w <= f)%nat ->
  wire_frames_fuel f w = wire_frames w.
Proof.
  induction n as [|n IH]; intros w f Ln Lf.
  - destruct w; [|simpl in Ln; lia]. destruct f; reflexivity.
  - unfold wire_frames.
    destruct w as [|h0 [|h1 rest]].
    + destruct f; reflexivity.
    + destruct f; reflexivity.
    + destruct f as [|f]; [simpl in Lf; lia|].
      change (length (h0 :: h1 :: rest)) with (S (S (length rest))).
      rewrite !wire_frames_fuel_S.
      destruct (len rest <? Uint16 h0 h1); [reflexivity|].
      assert (length (skipn (Z.to_nat (Uint16 h0 h1)) rest) <= length rest)%nat
        as LS by (rewrite length_skipn; lia).
      simpl in Ln, Lf.
      rewrite (IH _ f) by lia.
      rewrite (IH _ (S (length rest))) by lia. reflexivity.
Qed.

Lemma wire_frames_cons2 (h0 h1 : byte) (rest : list byte) :
  wire_frames (h0 :: h1 :: rest)
  = if len rest <? Uint16 h0 h1 then ([], h0 :: h1 :: rest)
    else (firstn (Z.to_nat (Uint16 h0 h1)) rest
            :: fst (wire_frames (skipn (Z.to_nat (Uint16 h0 h1)) rest)),
          snd (wire_frames (skipn (Z.to_nat (Uint16 h0 h1)) rest))).
Proof.
  unfold wire_frames at 1.
  change (length (h0 :: h1 :: rest)) with (S (S (length rest))).
  rewrite wire_frames_fuel_S.
  destruct (len rest <? Uint16 h0 h1); [reflexivity|].
  rewrite (wire_frames_fuel_enough (length rest))
    by (rewrite ?length_skipn; lia).
  reflexivity.
Qed.

Lemma wire_frames_app (n : nat) :
  forall x y, (length x <= n)%nat ->
  wire_frames (x ++ y)
  = (fst (wire_frames x) ++ fst (wire_frames (snd (wire_frames x) ++ y)),
     snd (wire_frames (snd (wire_frames x) ++ y))).
Proof.
  induction n as [|n IH]; intros x y L.
  - destruct x; [|simpl in L; lia]. cbn [app].
    change (wire_frames []) with (@nil (list byte), @nil byte).
    cbn [fst snd app]. destruct (wire_frames y); reflexivity.
  - destruct x as [|h0 [|h1 rest]].
    + change (wire_frames []) with (@nil (list byte), @nil byte).
      cbn [fst snd app]. destruct (wire_frames y); reflexivity.
    + change (wire_frames [h0]) with (@nil (list byte), [h0]).
      cbn [fst snd app]. destruct (wire_frames (h0 :: y)); reflexivity.
    + rewrite (wire_frames_cons2 h0 h1 rest).
      destruct (Z.ltb_spec (len rest) (Uint16 h0 h1)) as [Lt|Ge].
      * cbn [fst snd app]. destruct (wire_frames _); reflexivity.
      * cbn [fst snd app]. rewrite (wire_frames_cons2 h0 h1 (rest ++ y)).
        pose proof (Uint16_range h0 h1) as R.
        replace (len (rest ++ y) <? Uint16 h0 h1) with false
          by (symmetry; apply Z.ltb_ge; rewrite len_app;
              pose proof (len_nonneg y); lia).
        assert (Z.to_nat (Uint16 h0 h1) <= length rest)%nat as LN
            by (unfold len in Ge; lia).
        rewrite firstn_app, skipn_app.
        replace (Z.to_nat (Uint16 h0 h1) - length rest)%nat with 0%nat by lia.
        cbn [firstn skipn]. rewrite app_nil_r.
        rewrite (IH (skipn (Z.to_nat (Uint16 h0 h1)) rest) y)
          by (rewrite length_skipn; simpl in L; lia).
        reflexivity.
Qed.

Lemma pending_wire_frames (c : udpBridgeConn) (w : list byte) :
  pending c w -> wire_frames w = ([], w).
Proof.
  destruct w as [|h0 [|h1 pl]]; [reflexivity | reflexivity |].
  intros (_ & _ & _ & L). rewrite wire_frames_cons2. zb. reflexivity.
Qed.

Section WriteStream.

Variables h4 h6 : list byte.

Lemma write_each_cong c1 c2 s ps :
  same_link c1 c2 -> write_each h4 h6 c2 s ps = write_each h4 h6 c1 s ps.
Proof.
  intros (H1 & H2 & H3). revert s.
  induction ps as [|p ps IH]; intros s; [reflexivity|].
  cbn [write_each]. rewrite (write_cong h4 h6 c2 c1 s p H1 H2 H3).
  destruct (write h4 h6 c1 s p) as [s1 [[k [e|]]|q]]; auto.
Qed.

Lemma same_link_refl c : same_link c c.
Proof. repeat split. Qed.

Lemma same_link_trans c1 c2 c3 :
  same_link c1 c2 -> same_link c2 c3 -> same_link c1 c3.
Proof.
  intros (A1 & A2 & A3) (B1 & B2 & B3). repeat split; congruence.
Qed.

Lemma deferred_ok b r k :
  w_out r = Done (k, None) ->
  deferred b r = mkWrite (w_conn r) (w_sock r) (Done (len b, None)).
Proof. unfold deferred. intros ->. reflexivity. Qed.

Lemma accepted_deferred c s' left b o :
  accepted c s' left o -> accepted c s' left (option_map (deferred b) o).
Proof.
  intros (r & k & -> & HO & HS & HP & HL). cbn [option_map].
  rewrite (deferred_ok b r k HO).
  exists (mkWrite (w_conn r) (w_sock r) (Done (len b, None))), (len b).
  repeat split; try assumption; apply HL.
Qed.

Lemma accepted_link c1 c2 s' left o :
  same_link c1 c2 -> accepted c2 s' left o -> accepted c1 s' left o.
Proof.
  intros L (r & k & -> & HO & HS & HP & HL).
  exists r, k. repeat split; try assumption;
    apply (same_link_trans c1 c2 (w_conn r) L HL).
Qed.

(** From TEST on, with a writer that is idle once the frame is out. *)
Lemma TEST_stream (c : udpBridgeConn) (s s' : UDPConn) (b buf : list byte)
  (h0 h1 : byte) (ps : list (list byte)) (left : list byte) :
  state_of c = Idle ->
  (forall b' c1 s1 s2 ps' left',
      (length b' <= length buf)%nat -> state_of c1 = Idle ->
      wire_frames b' = (ps', left') ->
      write_each h4 h6 c1 s1 ps' = Some s2 ->
      accepted c1 s2 left' (Write h4 h6 c1 s1 b')) ->
  wire_frames (h0 :: h1 :: buf) = (ps, left) ->
  write_each h4 h6 c s ps = Some s' ->
  accepted c s' left
    (Write_TEST h4 h6 (Write h4 h6) c s b (Uint16 h0 h1) buf).
Proof.
  intros HI Hrec HW HE. rewrite wire_frames_cons2 in HW.
  destruct (state_idle_inv c HI) as [HIL HRm].
  destruct (Z.lt_trichotomy (len buf) (Uint16 h0 h1)) as [L|[L|L]].
  - rewrite TEST_short by exact L.
    replace (len buf <? Uint16 h0 h1) with true in HW
      by (symmetry; apply Z.ltb_lt; lia).
    injection HW as <- <-. injection HE as <-.
    eexists. eexists. split; [reflexivity|].
    cbn [w_out w_sock w_conn]. split; [reflexivity|]. split; [reflexivity|].
    split; [|repeat split].
    cbn. repeat split; try assumption; lia.
  - rewrite TEST_exact by exact L.
    replace (len buf <? Uint16 h0 h1) with false in HW
      by (symmetry; apply Z.ltb_ge; lia).
    rewrite <- L in HW. unfold len in HW. rewrite Nat2Z.id in HW.
    rewrite firstn_all, skipn_all in HW.
    change (wire_frames []) with (@nil (list byte), @nil byte) in HW.
    cbn [fst snd] in HW. injection HW as <- <-.
    cbn [write_each] in HE. unfold return_write.
    destruct (write h4 h6 c s buf) as [s1 [[k [e|]]|q]]; try discriminate.
    injection HE as <-.
    eexists. eexists. split; [reflexivity|].
    cbn [w_out w_sock w_conn]. split; [reflexivity|]. split; [reflexivity|].
    split; [exact HI | apply same_link_refl].
  - rewrite TEST_surplus by exact L.
    replace (len buf <? Uint16 h0 h1) with false in HW
      by (symmetry; apply Z.ltb_ge; lia).
    injection HW as <- <-. cbn [write_each] in HE.
    destruct (write h4 h6 c s _) as [s1 [[k [e|]]|q]]; try discriminate.
    eapply Hrec; [rewrite length_skipn; lia | exact HI | | exact HE].
    destruct (wire_frames _); reflexivity.
Qed.

(** One [Write] on the next bytes of the stream. *)
Lemma Write_stream_step (n : nat) :
  forall b, (length b <= n)%nat ->
  forall c s s' w ps left,
    pending c w ->
    wire_frames (w ++ b) = (ps, left) ->
    write_each h4 h6 c s ps = Some s' ->
    accepted c s' left (Write h4 h6 c s b).
Proof.
  induction n as [n IH] using lt_wf_ind. intros b Lb c s s' w ps left HP HW HE.
  assert (forall b' c1 s1 s2 ps' left',
            (length b' < length b)%nat -> state_of c1 = Idle ->
            wire_frames b' = (ps', left') ->
            write_each h4 h6 c1 s1 ps' = Some s2 ->
            accepted c1 s2 left' (Write h4 h6 c1 s1 b')) as Hrec.
  { intros b' c1 s1 s2 ps' left' L' HI' HW' HE'.
    apply (IH (length b') ltac:(lia) b' (Nat.le_refl _) c1 s1 s2 [] ps' left');
      assumption. }
  destruct b as [|b0 tl].
  { (* the empty chunk *)
    rewrite app_nil_r, (pending_wire_frames c w HP) in HW.
    injection HW as <- <-. injection HE as <-. rewrite Write_nil.
    eexists. eexists. split; [reflexivity|].
    cbn [w_out w_sock w_conn]. repeat split; try assumption. }
  destruct w as [|x [|y pl]]; cbn [app] in HW.
  - (* nothing is held *)
    cbn [pending] in HP. destruct (state_idle_inv c HP) as [HIL HRm].
    destruct tl as [|b1 tl].
    + change (wire_frames [b0]) with (@nil (list byte), [b0]) in HW.
      injection HW as <- <-. injection HE as <-.
      rewrite Write_idle_1 by exact HP.
      eexists. eexists. split; [reflexivity|].
      cbn [w_out w_sock w_conn]. split; [reflexivity|]. split; [reflexivity|].
      split; [|repeat split]. cbn. repeat split. exact HRm.
    + rewrite Write_idle_2 by exact HP.
      apply accepted_deferred.
      apply (TEST_stream c s s' _ tl b0 b1 ps left HP); try assumption.
      intros b' c1 s1 s2 ps' left' L'. apply Hrec. simpl. lia.
  - (* the first byte of the length is held *)
    destruct HP as (HI & HB & HRm).
    rewrite (Write_second_byte h4 h6 c s x) by assumption.
    apply accepted_deferred.
    assert (same_link c (set_incompleteLen c false)) as SL by (repeat split).
    apply (accepted_link _ _ _ _ _ SL).
    apply (TEST_stream _ s s' _ tl x b0 ps left); try assumption.
    + unfold state_of. cbn. zb. reflexivity.
    + intros b' c1 s1 s2 ps' left' L'. apply Hrec. simpl. lia.
    + rewrite (write_each_cong c _ s ps SL). exact HE.
  - (* the length and a part of the payload are held *)
    destruct HP as (HI & HB & HRm & HLt).
    set (L := Uint16 x y) in *.
    assert (0 < len (b0 :: tl)) as Lp
        by (rewrite len_cons; pose proof (len_nonneg tl); lia).
    rewrite wire_frames_cons2 in HW. fold L in HW. rewrite len_app in HW.
    destruct (Z.lt_trichotomy (len (b0 :: tl)) (wm_remain c)) as [C|[C|C]].
    + rewrite Write_waiting_more by (try assumption; lia).
      replace (len pl + len (b0 :: tl) <? L) with true in HW
        by (symmetry; apply Z.ltb_lt; lia).
      injection HW as <- <-. injection HE as <-.
      eexists. eexists. split; [reflexivity|].
      cbn [w_out w_sock w_conn]. split; [reflexivity|]. split; [reflexivity|].
      split; [|repeat split].
      cbn. rewrite HB, len_app. fold L. repeat split; try assumption; lia.
    + rewrite Write_waiting_exact by (try assumption; lia).
      replace (len pl + len (b0 :: tl) <? L) with false in HW
        by (symmetry; apply Z.ltb_ge; lia).
      replace (Z.to_nat L) with (length (pl ++ b0 :: tl)) in HW
        by (rewrite length_app; unfold len in *; lia).
      rewrite firstn_all, skipn_all in HW.
      change (wire_frames []) with (@nil (list byte), @nil byte) in HW.
      cbn [fst snd] in HW. injection HW as <- <-.
      cbn [write_each] in HE. unfold return_write. rewrite HB.
      assert (same_link c (set_wm_remain c 0)) as SL by (repeat split).
      destruct SL as (S1 & S2 & S3).
      rewrite (write_cong h4 h6 _ c s _ S1 S2 S3).
      destruct (write h4 h6 c s (pl ++ b0 :: tl)) as [s1 [[k [e|]]|q]];
        try discriminate.
      injection HE as <-.
      eexists. eexists. split; [reflexivity|].
      cbn [deferred w_out w_sock w_conn]. split; [reflexivity|].
      split; [reflexivity|]. split; [|repeat split].
      cbn [pending]. unfold state_of.
      cbn [incompleteLen wm_remain set_wm_remain]. rewrite HI. reflexivity.
    + (* the chunk goes beyond the frame *)
      replace (len pl + len (b0 :: tl) <? L) with false in HW
        by (symmetry; apply Z.ltb_ge; lia).
      injection HW as <- <-. cbn [write_each] in HE.
      set (b := b0 :: tl) in *.
      assert (Z.to_nat L = (length pl + Z.to_nat (wm_remain c))%nat) as EL
          by (unfold len in *; lia).
      rewrite EL in HE |- *.
      rewrite firstn_app, skipn_app in HE. rewrite skipn_app.
      rewrite firstn_all2 in HE by lia.
      rewrite skipn_all2 in HE by lia. rewrite skipn_all2 by lia.
      replace (length pl + Z.to_nat (wm_remain c) - length pl)%nat
        with (Z.to_nat (wm_remain c)) in * by lia.
      cbn [app] in HE |- *.
      rewrite Write_unfold. unfold Write_body. rewrite HI.
      cbn [wm_remain set_wm_remain wm_buf]. zb. rewrite HB.
      set (c1 := set_wm_remain c (wm_remain c - len b)).
      assert (same_link c c1) as SL by (repeat split).
      pose proof SL as (S1 & S2 & S3).
      rewrite (write_cong h4 h6 c1 c s _ S1 S2 S3).
      destruct (write h4 h6 c s (pl ++ firstn (Z.to_nat (wm_remain c)) b))
        as [s1 [[k [e|]]|q]]; try discriminate.
      set (b' := skipn (Z.to_nat (wm_remain c)) b) in *.
      assert (0 < length b' < length b)%nat as Lb'
          by (unfold b'; rewrite length_skipn; unfold len in *; lia).
      assert (state_of c1 = Idle) as HI1.
      { unfold state_of, c1. cbn. rewrite HI. zb. reflexivity. }
      apply (accepted_link _ _ _ _ _ SL).
      assert (option_map (deferred b') (Write_parse h4 h6 (Write h4 h6) c1 s1 b')
              = Write h4 h6 c1 s1 b') as EQ.
      { rewrite (Write_unfold h4 h6 c1 s1 b'). unfold Write_body.
        destruct (state_idle_inv c1 HI1) as [-> HR1].
        replace (len b' =? 0) with false
          by (symmetry; apply Z.eqb_neq; unfold len; lia).
        replace (0 <? wm_remain c1) with false
          by (symmetry; apply Z.ltb_ge; lia).
        reflexivity. }
      rewrite EQ.
      eapply Hrec; [lia | exact HI1 | |].
      2:{ rewrite (write_each_cong c c1 s1 _ SL). exact HE. }
      destruct (wire_frames b'); reflexivity.
Qed.

Lemma write_each_app c s ps1 ps2 s' :
  write_each h4 h6 c s (ps1 ++ ps2) = Some s' ->
  exists s1, write_each h4 h6 c s ps1 = Some s1
             /\ write_each h4 h6 c s1 ps2 = Some s'.
Proof.
  revert s. induction ps1 as [|p ps1 IH]; intros s; cbn [app write_each].
  - intros H. exists s. split; [reflexivity | exact H].
  - destruct (write h4 h6 c s p) as [s1 [[k [e|]]|q]]; try discriminate.
    apply IH.
Qed.

(** Successive [Write] calls on the chunks of a stream. *)
Lemma Writes_stream (pieces : list (list byte)) :
  forall c s s' w ps left,
    pending c w ->
    wire_frames (w ++ concat pieces) = (ps, left) ->
    write_each h4 h6 c s ps = Some s' ->
    exists c', Writes h4 h6 c s pieces = Some (c', s')
               /\ pending c' left /\ same_link c c'.
Proof.
  induction pieces as [|p rest IH]; intros c s s' w ps left HP HW HE.
  - cbn [concat] in HW. rewrite app_nil_r, (pending_wire_frames c w HP) in HW.
    injection HW as <- <-. injection HE as <-.
    exists c. split; [reflexivity|]. split; [exact HP | apply same_link_refl].
  - cbn [concat] in HW. rewrite app_assoc in HW.
    rewrite (wire_frames_app (length (w ++ p)) (w ++ p) (concat rest)
               (Nat.le_refl _)) in HW.
    injection HW as <- <-.
    destruct (write_each_app c s _ _ s' HE) as (s1 & HE1 & HE2).
    destruct (Write_stream_step (length p) p (Nat.le_refl _) c s s1 w
                (fst (wire_frames (w ++ p))) (snd (wire_frames (w ++ p))) HP)
      as (r & k & ER & EO & ES & HP' & HL');
      [destruct (wire_frames (w ++ p)); reflexivity | exact HE1 |].
    cbn [Writes]. rewrite ER, EO.
    rewrite <- (write_each_cong c (w_conn r) s1 _ HL') in HE2.
    rewrite <- ES in HE2.
    destruct (IH (w_conn r) (w_sock r) s' (snd (wire_frames (w ++ p)))
                (fst (wire_frames (snd (wire_frames (w ++ p)) ++ concat rest)))
                (snd (wire_frames (snd (wire_frames (w ++ p)) ++ concat rest)))
                HP')
      as (c' & EW & HP2 & HL2); [apply surjective_pairing | exact HE2 |].
    exists c'. split; [exact EW|]. split; [exact HP2|].
    apply (same_link_trans c (w_conn r) c' HL' HL2).
Qed.




End WriteStream.





(** ** [Write]: what it leaves alone, and no panic in raw mode *)

Section WriteInvariants.

Variables h4 h6 : list byte.

Let rec_t : Type := udpBridgeConn -> UDPConn -> list byte -> option write_result.







Lemma option_map_deferred_inv b (o : option write_result) r :
  option_map (deferred b) o = Some r -> exists r0, o = Some r0 /\ r = deferred b r0.
Proof.
  destruct o as [r0|]; [|discriminate]. intros [= <-]. eauto.
Qed.



(** *** No panic in raw mode *)

Lemma write_raw_no_panic c s p :
  socks c = false -> forall q, snd (write h4 h6 c s p) <> Panicked q.
Proof.
  intros HS q. unfold write. rewrite HS. cbn [negb].
  destruct (send s None p) as [[s1 n] e]. discriminate.
Qed.

Lemma raw_ok_deferred b r : raw_ok r -> raw_ok (deferred b r).
Proof.
  unfold deferred, raw_ok, no_panic. intros (N & H & S).
  destruct (w_out r) as [[k [e|]]|q] eqn:E; cbn [w_out w_conn];
    repeat split; try assumption; try discriminate.
  - intros p. rewrite E. discriminate.
  - intros p. rewrite E. apply (N p).
Qed.

Lemma raw_ok_return_write c s p :
  socks c = false -> holds_first_byte c ->
  raw_ok (return_write h4 h6 c s p).
Proof.
  intros HS HH. unfold return_write.
  pose proof (write_raw_no_panic c s p HS) as N.
  destruct (write h4 h6 c s p) as [s1 o]. cbn [snd] in N.
  repeat split; assumption.
Qed.

Lemma TEST_raw_ok (rec : rec_t) c s b ln buf r :
  socks c = false -> incompleteLen c = false ->
  (forall c' s' b' r', (length b' <= length buf)%nat ->
      socks c' = false -> holds_first_byte c' ->
      rec c' s' b' = Some r' -> raw_ok r') ->
  Write_TEST h4 h6 rec c s b ln buf = Some r -> raw_ok r.
Proof.
  intros HS HI Hrec. unfold Write_TEST.
  assert (holds_first_byte c) as HH by (intros X; congruence).
  destruct (len buf <? ln).
  { intros [= <-]. repeat split; cbn; try assumption; try discriminate.
    intros X. cbn in X. congruence. }
  destruct (len buf =? ln); [intros [= <-]; apply raw_ok_return_write; assumption|].
  pose proof (write_raw_no_panic c s (firstn (Z.to_nat ln) buf) HS) as N.
  destruct (write h4 h6 c s _) as [s1 [[k [e|]]|q]]; cbn [snd] in N.
  - intros [= <-]. repeat split; cbn; try assumption; discriminate.
  - intros E. apply Hrec in E; [exact E | rewrite length_skipn; lia | |]; assumption.
  - destruct (N q eq_refl).
Qed.

Lemma parse_raw_ok (rec : rec_t) c s b r :
  socks c = false -> incompleteLen c = false -> b <> [] ->
  (forall c' s' b' r', (length b' < length b)%nat ->
      socks c' = false -> holds_first_byte c' ->
      rec c' s' b' = Some r' -> raw_ok r') ->
  Write_parse h4 h6 rec c s b = Some r -> raw_ok r.
Proof.
  intros HS HI HN Hrec. unfold Write_parse.
  destruct b as [|b0 [|b1 tl]]; [contradiction| |].
  - change (len [b0] =? 1) with true. cbv iota.
    intros [= <-]. repeat split; cbn; try assumption; discriminate.
  - replace (len (b0 :: b1 :: tl) =? 1) with false
      by (symmetry; apply Z.eqb_neq; rewrite !len_cons;
          pose proof (len_nonneg tl); lia).
    cbn [Uint16_of]. unfold slice_from.
    replace ((0 <=? 2) && (2 <=? len (b0 :: b1 :: tl))) with true
      by (symmetry; apply andb_true_iff; split; apply Z.leb_le;
          rewrite ?len_cons; pose proof (len_nonneg tl); lia).
    change (Z.to_nat 2) with 2%nat. cbn [skipn].
    apply TEST_raw_ok; try assumption.
    intros c' s' b' r' L. apply Hrec. simpl. lia.
Qed.

Lemma body_raw_ok (rec : rec_t) c s b r :
  socks c = false -> holds_first_byte c ->
  (forall c' s' b' r', (length b' < length b)%nat ->
      socks c' = false -> holds_first_byte c' ->
      rec c' s' b' = Some r' -> raw_ok r') ->
  Write_body h4 h6 rec c s b = Some r -> raw_ok r.
Proof.
  intros HS HH Hrec. unfold Write_body.
  destruct (Z.eqb_spec (len b) 0) as [E0|N0].
  { intros [= <-]. apply raw_ok_deferred.
    repeat split; cbn; try assumption; discriminate. }
  assert (b <> []) as HN by (intros ->; apply N0; reflexivity).
  destruct (incompleteLen c) eqn:HI.
  - cbn [wm_buf set_incompleteLen].
    destruct (wm_buf c) as [|h0 hs] eqn:EB; [destruct (HH HI EB)|].
    unfold index. change (nth_error (h0 :: hs) 0) with (Some h0).
    destruct b as [|b0 rest]; [contradiction|].
    intros E. apply option_map_deferred_inv in E. destruct E as (r0 & E & ->).
    apply raw_ok_deferred.
    apply TEST_raw_ok in E; try (exact E); try reflexivity; try assumption.
    intros c' s' b' r' L. apply Hrec. simpl. lia.
  - destruct (Z.ltb_spec 0 (wm_remain c)) as [Pos|NPos].
    + cbn [wm_remain set_wm_remain wm_buf].
      set (c1 := set_wm_remain c (wm_remain c - len b)).
      assert (socks c1 = false) as HS1 by exact HS.
      assert (incompleteLen c1 = false) as HI1 by exact HI.
      assert (holds_first_byte c1) as HH1 by (intros X; congruence).
      destruct (Z.eqb_spec (wm_remain c - len b) 0) as [Ex|Nx].
      { intros [= <-]. apply raw_ok_deferred.
        apply (raw_ok_return_write c1); assumption. }
      destruct (Z.ltb_spec 0 (wm_remain c - len b)) as [More|Over].
      { intros [= <-]. apply raw_ok_deferred.
        repeat split; cbn; try assumption; try discriminate.
        intros X. cbn in X. congruence. }
      pose proof (write_raw_no_panic c1 s
                    (wm_buf c ++ firstn (Z.to_nat (wm_remain c)) b) HS1) as N.
      destruct (write h4 h6 c1 s _) as [s1 [[k [e|]]|q]]; cbn [snd] in N.
      * intros [= <-]. repeat split; cbn; try assumption; discriminate.
      * intros E. apply option_map_deferred_inv in E.
        destruct E as (r0 & E & ->). apply raw_ok_deferred.
        apply parse_raw_ok in E; try (exact E); try assumption.
        -- intros X. apply (f_equal (@length byte)) in X.
           rewrite length_skipn in X. unfold len in *. simpl in X. lia.
        -- intros c' s' b' r' L. apply Hrec. rewrite length_skipn in L. lia.
      * destruct (N q eq_refl).
    + intros E. apply option_map_deferred_inv in E. destruct E as (r0 & E & ->).
      apply raw_ok_deferred.
      apply parse_raw_ok in E; try (exact E); try assumption.
Qed.

Lemma Write_raw_ok c s b r :
  socks c = false -> holds_first_byte c ->
  Write h4 h6 c s b = Some r -> raw_ok r.
Proof.
  remember (length b) as n eqn:E. revert c s b r E.
  induction n as [n IH] using lt_wf_ind. intros c s b r -> HS HH.
  rewrite Write_unfold. apply body_raw_ok; try assumption.
  intros c' s' b' r' L HS' HH'. apply (IH (length b') L); auto.
Qed.

End WriteInvariants.


(** X17: In raw mode [Write] never panics, whatever the bytes of the chunk
    and whatever the socket does, as long as the writer that waits for the
    second byte of a length holds the first one; and [Write] keeps that
    so, in raw mode. *)
Theorem Write_raw_never_panics (h4 h6 : list byte)
  (c : udpBridgeConn) (s : UDPConn) (b : list byte) :
  socks c = false ->
  holds_first_byte c ->
  exists r, Write h4 h6 c s b = Some r
            /\ no_panic r
            /\ holds_first_byte (w_conn r) /\ socks (w_conn r) = false.
Proof.
  intros HS HH. destruct (Write_returns h4 h6 c s b) as (r & E).
  exists r. split; [exact E | apply (Write_raw_ok h4 h6 c s b r HS HH E)].
Qed.

Lemma Write_raw_never_panics_witness :
  exists r, Write [] [] idle_raw (mkUDP [] [] [true] false)
              (bytes_of_nats [0; 1; 7; 9]%nat) = Some r
            /\ no_panic r
            /\ holds_first_byte (w_conn r) /\ socks (w_conn r) = false.
Proof.
  apply (Write_raw_never_panics [] [] idle_raw (mkUDP [] [] [true] false)
           (bytes_of_nats [0; 1; 7; 9]%nat)).
  - reflexivity.
  - discriminate.
Defined.

(** ** [write] in SOCKS mode: one header for every payload *)

Lemma size_ge_7 (d : uAddr) : wf_addr d -> 7 <= size d.
Proof.
  intros [_ W]. destruct (ip d).
  - destruct W as ([E|E] & _ & ->); rewrite E; unfold IPv4len, IPv6len; lia.
  - destruct W as (_ & ->). pose proof (len_nonneg (host d)). lia.
Qed.

Section Wrapping.

Variables h4 h6 : list byte.
Hypothesis h4_len : length h4 = 10%nat.
Hypothesis h6_len : length h6 = 22%nat.
Hypothesis h4_type : nth_error h4 3 = Some socksAddrIPv4.
Hypothesis h6_type : nth_error h6 3 = Some socksAddrIPv6.




End Wrapping.



(** ** [Read]: raw mode, failures and rejected datagrams *)

Lemma ReadFrom_datagram (s : UDPConn) (b d : list byte) (src : NetAddr)
  (later : list arrival) :
  inbox s = Datagram d src :: later ->
  ReadFrom s b
  = (received s later, copy b d, Z.min (len d) (len b), Some src, None).
Proof. unfold ReadFrom. intros ->. reflexivity. Qed.

Lemma copy_fits (b d : list byte) :
  len d <= len b -> copy b d = d ++ skipn (length d) b.
Proof. intros L. apply copy_prefix. unfold len in L. lia. Qed.

Lemma len_copy (b d : list byte) : len (copy b d) = len b.
Proof.
  unfold copy, len. rewrite length_app, length_firstn, length_skipn. lia.
Qed.

Lemma len_copy_at (b : list byte) (lo : nat) (d : list byte) :
  len (copy_at b lo d) = len b.
Proof.
  unfold copy_at. rewrite len_app, len_copy. unfold len.
  rewrite length_firstn, length_skipn. lia.
Qed.

(** The frame put in the buffer by the part of [Read] that follows the
    reception: the payload copied to offset 2, then the length. *)
Lemma PUT_HEADER_frame (c : udpBridgeConn) (s : UDPConn)
  (b payload : list byte) :
  len payload + 2 <= len b ->
  PUT_HEADER c s (copy_at b 2 payload) (len payload) None
  = mkRead c s (frame payload ++ skipn (2 + length payload) b)
      (Done (len payload + 2, None)).
Proof.
  intros L. pose proof (len_nonneg payload) as NP.
  rewrite PUT_HEADER_ok by (rewrite len_copy_at; lia).
  unfold frame, copy_at. rewrite <- app_assoc. do 2 f_equal.
  assert (length (firstn 2 b) = 2%nat) as L2
      by (rewrite length_firstn; unfold len in *; lia).
  rewrite skipn_app, L2, skipn_all2 by lia.
  change (2 - 2)%nat with 0%nat. rewrite skipn_O. cbn [app].
  rewrite copy_prefix by (rewrite length_skipn; unfold len in *; lia).
  rewrite skipn_skipn.
  replace (length payload + 2)%nat with (2 + length payload)%nat by lia.
  reflexivity.
Qed.

Lemma skipn_copy_fits (b d : list byte) (k : nat) :
  len d <= len b -> (length d <= k)%nat ->
  skipn k (copy b d) = skipn k b.
Proof.
  intros L K. rewrite copy_fits by exact L.
  rewrite skipn_app, skipn_all2 by lia. cbn [app].
  rewrite skipn_skipn. f_equal. lia.
Qed.

(** [Read] in raw mode: the datagram is framed as it is. *)
Lemma Read_raw_eq (c : udpBridgeConn) (s : UDPConn) (b d : list byte)
  (src : NetAddr) (later : list arrival) :
  socks c = false -> initBuf c = None ->
  inbox s = Datagram d src :: later ->
  2050 <= len b -> len d + 2 <= len b ->
  Read c s b
  = mkRead (set_udpSrc c (Some src)) (received s later)
      (frame d ++ skipn (2 + length d) b) (Done (len d + 2, None)).
Proof.
  intros HS HI HIn LB LD. pose proof (len_nonneg d) as ND.
  unfold Read, expectedMaxPacketSize. zb. rewrite HI.
  rewrite (ReadFrom_datagram s b d src later HIn).
  cbn [socks set_udpSrc]. rewrite HS.
  rewrite Z.min_l by lia.
  rewrite (copy_fits b d) at 2 by lia. rewrite firstn_len_app.
  rewrite PUT_HEADER_frame by (rewrite len_copy; lia).
  rewrite skipn_copy_fits by lia. reflexivity.
Qed.


(** X6: [Read] in raw mode: the datagram received, of at most [len(b) - 2]
    bytes, is left in the caller's buffer as the frame that carries it,
    the rest of the buffer is as it was, the count is the length of the
    frame, and the sender is recorded as the peer. *)
Theorem Read_raw_frames_the_datagram (c : udpBridgeConn) (s : UDPConn)
  (b d : list byte) (src : NetAddr) (later : list arrival) :
  socks c = false ->
  initBuf c = None ->
  inbox s = Datagram d src :: later ->
  2050 <= len b ->
  len d + 2 <= len b ->
  Read c s b
  = mkRead (set_udpSrc c (Some src)) (received s later)
      (frame d ++ skipn (2 + length d) b) (Done (len (frame d), None)).
Proof.
  intros HS HI HIn LB LD. rewrite (Read_raw_eq c s b d src later) by assumption.
  do 3 f_equal. unfold frame. rewrite len_app.
  change (len (PutUint16_bytes (uint16 (len d)))) with 2. lia.
Qed.

Lemma Read_raw_frames_the_datagram_witness :
  Read idle_raw (mkUDP [Datagram PING a_peer] [] [] false) (zeros 2050)
  = mkRead (set_udpSrc idle_raw (Some a_peer)) quiet_socket
      (frame PING ++ skipn (2 + length PING) (zeros 2050))
      (Done (len (frame PING), None)).
Proof.
  apply (Read_raw_frames_the_datagram idle_raw
           (mkUDP [Datagram PING a_peer] [] [] false) (zeros 2050) PING
           a_peer []).
  - reflexivity.
  - reflexivity.
  - reflexivity.
  - vm_compute. discriminate.
  - vm_compute. discriminate.
Defined.

(** X7: [Read] in raw mode does not check that the frame fits: a datagram of
    more than [len(b) - 2] bytes makes it return, without error, a count
    that is larger than the caller's buffer. *)
Theorem Read_raw_count_exceeds_the_buffer (c : udpBridgeConn) (s : UDPConn)
  (b d : list byte) (src : NetAddr) (later : list arrival) :
  socks c = false ->
  initBuf c = None ->
  inbox s = Datagram d src :: later ->
  2050 <= len b ->
  len b - 2 < len d ->
  r_out (Read c s b) = Done (Z.min (len d) (len b) + 2, None)
  /\ len b < Z.min (len d) (len b) + 2
  /\ len (r_buf (Read c s b)) = len b.
Proof.
  intros HS HI HIn LB LD.
  unfold Read, expectedMaxPacketSize. zb. rewrite HI.
  rewrite (ReadFrom_datagram s b d src later HIn).
  cbn [socks set_udpSrc]. rewrite HS.
  rewrite PUT_HEADER_ok by (rewrite len_copy_at, len_copy; lia).
  cbn [r_out r_buf]. split; [reflexivity|]. split; [lia|].
  set (X := copy_at (copy b d) 2 _).
  assert (len X = len b) as LX by (unfold X; rewrite len_copy_at, len_copy; reflexivity).
  rewrite len_app.
  change (len (PutUint16_bytes (uint16 (Z.min (len d) (len b))))) with 2.
  unfold len in *. rewrite length_skipn. lia.
Qed.

Lemma Read_raw_count_exceeds_the_buffer_witness :
  let s := mkUDP [Datagram (zeros 2049) a_peer] [] [] false in
  r_out (Read idle_raw s (zeros 2050)) = Done (Z.min (len (zeros 2049)) (len (zeros 2050)) + 2, None)
  /\ len (zeros 2050) < Z.min (len (zeros 2049)) (len (zeros 2050)) + 2
  /\ len (r_buf (Read idle_raw s (zeros 2050))) = len (zeros 2050).
Proof.
  apply (Read_raw_count_exceeds_the_buffer idle_raw
           (mkUDP [Datagram (zeros 2049) a_peer] [] [] false) (zeros 2050)
           (zeros 2049) a_peer []).
  - reflexivity.
  - reflexivity.
  - reflexivity.
  - vm_compute. discriminate.
  - vm_compute. reflexivity.
Defined.

(** X8: A failed [ReadFrom] makes [Read] return its error with the caller's
    buffer as it was, and forget the peer: in SOCKS mode every payload
    that [write] is given afterwards, until a datagram is received again,
    is dropped. *)
Theorem Read_failure_forgets_the_peer (c : udpBridgeConn) (s : UDPConn)
  (b : list byte) :
  initBuf c = None ->
  2050 <= len b ->
  next_read_fails s ->
  let r := Read c s b in
  r_out r = Done (0, Some ErrNet)
  /\ r_buf r = b
  /\ udpSrc (r_conn r) = None
  /\ (socks c = true ->
      forall h4 h6 s' p, write h4 h6 (r_conn r) s' p = (s', Done (0, None))).
Proof.
  intros HI LB HF. cbv zeta.
  assert (exists s1, Read c s b = mkRead (set_udpSrc c None) s1 b
                                    (Done (0, Some ErrNet))) as (s1 & E).
  { unfold Read, expectedMaxPacketSize. zb. rewrite HI.
    unfold next_read_fails in HF. unfold ReadFrom.
    destruct (inbox s) as [|[d src|] rest]; [|contradiction|]; eauto. }
  rewrite E. cbn [r_out r_buf r_conn].
  repeat split. intros HS h4 h6 s' p.
  apply write_before_peer; [exact HS | reflexivity].
Qed.

Lemma Read_failure_forgets_the_peer_witness :
  let c := socks_fresh addr_1_2_3_4_53 (Some a_peer) in
  let r := Read c (mkUDP [RecvFail] [] [] false) (zeros 2050) in
  r_out r = Done (0, Some ErrNet)
  /\ r_buf r = zeros 2050
  /\ udpSrc (r_conn r) = None
  /\ (socks c = true ->
      forall h4 h6 s' p, write h4 h6 (r_conn r) s' p = (s', Done (0, None))).
Proof.
  apply (Read_failure_forgets_the_peer
           (socks_fresh addr_1_2_3_4_53 (Some a_peer))
           (mkUDP [RecvFail] [] [] false) (zeros 2050)).
  - reflexivity.
  - vm_compute. discriminate.
  - exact I.
Defined.

Lemma reader_only_PUT_HEADER c0 s0 c s b n err :
  reader_only c0 s0 (mkRead c s b (Done (0, None))) ->
  reader_only c0 s0 (PUT_HEADER c s b n err).
Proof.
  unfold PUT_HEADER. destruct (PutUint16_at b 0 (uint16 n)); auto.
Qed.

(** X9: [Read] touches nothing but the peer and the seed buffer: the
    reassembly state of the writer, the mode, the closed flag and the
    destination are as they were on every path (the destination is never
    taken from a later datagram), and nothing is sent. *)
Theorem Read_touches_only_the_peer_and_the_seed (c : udpBridgeConn)
  (s : UDPConn) (b : list byte) :
  reader_only c s (Read c s b).
Proof.
  unfold Read.
  destruct (len b <? expectedMaxPacketSize); [repeat split|].
  destruct (initBuf c) as [ib|].
  { apply reader_only_PUT_HEADER. repeat split. }
  unfold ReadFrom.
  destruct (inbox s) as [|[d src|] later]; try solve [repeat split].
  cbn [socks set_udpSrc].
  destruct (socks c).
  - destruct (p_out _) as [[[m [a|]] [e|]]|q]; try solve [repeat split].
    destruct (slice_of _ _ _) as [payload|q]; [|repeat split].
    apply reader_only_PUT_HEADER. repeat split.
  - apply reader_only_PUT_HEADER. repeat split.
Qed.

(** ** [Read] in SOCKS mode: datagrams that are not a header and a payload *)

Lemma parse_view (b1 : list byte) (n : nat) (d : list byte) :
  firstn n b1 = d ->
  parseUDPHeader None (Some (mkSlice (firstn n b1) (skipn n b1))) true
  = parse_body None b1 (length d) 0 true.
Proof.
  intros E. unfold parseUDPHeader. cbn [elems spare].
  rewrite firstn_skipn, E. reflexivity.
Qed.

Lemma Read_socks_parse (c : udpBridgeConn) (s : UDPConn) (b d : list byte)
  (src : NetAddr) (later : list arrival) :
  socks c = true -> initBuf c = None ->
  inbox s = Datagram d src :: later ->
  2050 <= len b -> len d <= len b ->
  firstn (length d) (copy b d) = d
  /\ forall o,
       match p_out (parse_body None (copy b d) (length d) 0 true) with
       | Panicked p => o = Panicked p
       | Done (_, _, Some e) => o = Done (0, Some e)
       | _ => False
       end ->
       Read c s b
       = mkRead (set_udpSrc c (Some src)) (received s later) (copy b d) o.
Proof.
  intros HS HI HIn LB LD.
  assert (firstn (length d) (copy b d) = d) as EF.
  { rewrite copy_fits by exact LD.
    rewrite firstn_app, firstn_all, Nat.sub_diag. cbn [firstn]. apply app_nil_r. }
  split; [exact EF|]. intros o HO.
  unfold Read, expectedMaxPacketSize. zb. rewrite HI.
  rewrite (ReadFrom_datagram s b d src later HIn).
  cbn [socks set_udpSrc]. rewrite HS.
  rewrite Z.min_l by lia. unfold len at 1 2. rewrite Nat2Z.id.
  rewrite (parse_view (copy b d) (length d) d EF).
  destruct (p_out _) as [[[m a] [e|]]|q]; try contradiction; subst o.
  - destruct a; reflexivity.
  - reflexivity.
Qed.

(** X10: In SOCKS mode a datagram of fewer than four bytes makes [Read] panic
    with an index out of range: with the check of the version skipped, the
    first byte that [parseUDPHeader] reads is the address type at offset
    3. The datagram has been taken from the socket and its sender
    recorded. *)
Theorem Read_socks_short_datagram_panics (c : udpBridgeConn) (s : UDPConn)
  (b d : list byte) (src : NetAddr) (later : list arrival) :
  socks c = true ->
  initBuf c = None ->
  inbox s = Datagram d src :: later ->
  2050 <= len b ->
  len d < 4 ->
  Read c s b
  = mkRead (set_udpSrc c (Some src)) (received s later) (copy b d)
      (Panicked PanicIndex).
Proof.
  intros HS HI HIn LB LD.
  destruct (Read_socks_parse c s b d src later HS HI HIn LB ltac:(lia))
    as [EF HR].
  apply HR. unfold parse_body. rewrite EF. cbn [header_check].
  unfold addr_size, index.
  replace (nth_error d 3) with (@None byte)
    by (symmetry; apply nth_error_None; unfold len in LD; lia).
  reflexivity.
Qed.

Lemma Read_socks_short_datagram_panics_witness :
  Read (socks_fresh addr_1_2_3_4_53 None)
    (mkUDP [Datagram (bytes_of_nats [0; 0; 0]%nat) a_peer] [] [] false)
    (zeros 2050)
  = mkRead (set_udpSrc (socks_fresh addr_1_2_3_4_53 None) (Some a_peer))
      (received (mkUDP [Datagram (bytes_of_nats [0; 0; 0]%nat) a_peer] [] [] false) [])
      (copy (zeros 2050) (bytes_of_nats [0; 0; 0]%nat))
      (Panicked PanicIndex).
Proof.
  apply (Read_socks_short_datagram_panics (socks_fresh addr_1_2_3_4_53 None)
           (mkUDP [Datagram (bytes_of_nats [0; 0; 0]%nat) a_peer] [] [] false)
           (zeros 2050) (bytes_of_nats [0; 0; 0]%nat) a_peer []).
  - reflexivity.
  - reflexivity.
  - reflexivity.
  - vm_compute. discriminate.
  - reflexivity.
Defined.

(** X11: In SOCKS mode a datagram whose header is rejected makes [Read] return
    the count 0 and the error of [parseUDPHeader]: the invalid address
    type, or [io.EOF] when the datagram is shorter than the header it
    announces. The caller's buffer holds the datagram as it was received,
    no frame is made, and the sender has been recorded as the peer all the
    same. *)
Theorem Read_socks_rejected_datagram (c : udpBridgeConn) (s : UDPConn)
  (b d : list byte) (src : NetAddr) (later : list arrival) :
  socks c = true ->
  initBuf c = None ->
  inbox s = Datagram d src :: later ->
  2050 <= len b ->
  len d <= len b ->
  (forall e, addr_size d = Done (inr e) ->
     Read c s b
     = mkRead (set_udpSrc c (Some src)) (received s later) (copy b d)
         (Done (0, Some e)))
  /\ (forall sz, addr_size d = Done (inl sz) -> len d < sz ->
        Read c s b
        = mkRead (set_udpSrc c (Some src)) (received s later) (copy b d)
            (Done (0, Some EOF))).
Proof.
  intros HS HI HIn LB LD.
  destruct (Read_socks_parse c s b d src later HS HI HIn LB LD) as [EF HR].
  split.
  - intros e HA. apply HR. unfold parse_body. rewrite EF. cbn [header_check].
    rewrite HA. reflexivity.
  - intros sz HA L. apply HR. unfold parse_body. rewrite EF.
    cbn [header_check]. rewrite HA. zb. reflexivity.
Qed.

Lemma Read_socks_rejected_datagram_witness :
  let c := socks_fresh addr_1_2_3_4_53 None in
  let bad := bytes_of_nats [0; 0; 0; 9; 1; 2; 3; 4; 0; 53]%nat in
  let cut := bytes_of_nats [0; 0; 0; 1; 1; 2; 3; 4; 0]%nat in
  Read c (mkUDP [Datagram bad a_peer] [] [] false) (zeros 2050)
  = mkRead (set_udpSrc c (Some a_peer)) quiet_socket (copy (zeros 2050) bad)
      (Done (0, Some (ErrInvalidAddrType x09)))
  /\ Read c (mkUDP [Datagram cut a_peer] [] [] false) (zeros 2050)
     = mkRead (set_udpSrc c (Some a_peer)) quiet_socket (copy (zeros 2050) cut)
         (Done (0, Some EOF)).
Proof.
  cbv zeta. split.
  - apply (proj1 (Read_socks_rejected_datagram
                    (socks_fresh addr_1_2_3_4_53 None)
                    (mkUDP [Datagram (bytes_of_nats [0; 0; 0; 9; 1; 2; 3; 4; 0; 53]%nat) a_peer] [] [] false)
                    (zeros 2050) _ a_peer []
                    eq_refl eq_refl eq_refl
                    ltac:(vm_compute; discriminate)
                    ltac:(vm_compute; discriminate))).
    reflexivity.
  - apply (proj2 (Read_socks_rejected_datagram
                    (socks_fresh addr_1_2_3_4_53 None)
                    (mkUDP [Datagram (bytes_of_nats [0; 0; 0; 1; 1; 2; 3; 4; 0]%nat) a_peer] [] [] false)
                    (zeros 2050) _ a_peer []
                    eq_refl eq_refl eq_refl
                    ltac:(vm_compute; discriminate)
                    ltac:(vm_compute; discriminate)) 10).
    + reflexivity.
    + reflexivity.
Defined.

(** ** The two directions of the relay *)







(** ** [handleUDPtoTCP]: the first datagram *)

(** X20: The first datagram of the relay, a header and a payload, fixes the
    peer and the destination of every member, and its payload is the seed
    of the member 0 and of no other member: the relay goes on as the
    supervision of the pool built from them. The first [Read] of the
    member 0 returns that payload as a frame without reading the socket,
    and leaves the member without a seed. *)
Theorem handleUDPtoTCP_first_datagram_seeds_member_0
  (relay : UDPConn) (r0 r1 r2 : byte) (a : uAddr) (P b : list byte)
  (src : NetAddr) (later : list arrival) :
  inbox relay = Datagram (header_bytes r0 r1 r2 a ++ P) src :: later ->
  wf_addr a ->
  size a + len P <= 2048 ->
  2050 <= len b ->
  (forall dial tick polls maxConns,
     handleUDPtoTCP dial tick polls relay maxConns
     = match supervise tick polls (pool dial (Some src) a P maxConns) maxConns with
       | Some k => RelayClosed k
       | None => StillPolling
       end)
  /\ (forall s,
        Read (member (Some src) a P 0) s b
        = mkRead (set_initBuf (member (Some src) a P 0) None) s
            (frame P ++ skipn (2 + length P) b) (Done (len P + 2, None)))
  /\ (forall i, i <> 0%nat -> initBuf (member (Some src) a P i) = None).
Proof.
  intros HIn W LD LB.
  pose proof (len_header_bytes r0 r1 r2 a W) as LH.
  pose proof (size_ge_7 a W) as S7. pose proof (len_nonneg P) as NP.
  set (d := header_bytes r0 r1 r2 a ++ P) in *.
  assert (len d = size a + len P) as LDE by (unfold d; rewrite len_app; lia).
  assert (len (zeros 2048) = 2048) as LZ by reflexivity.
  split; [|split].
  - intros dial tick polls maxConns. unfold handleUDPtoTCP.
    rewrite (ReadFrom_datagram relay (zeros 2048) d src later HIn).
    rewrite Z.min_l by lia.
    rewrite (copy_fits (zeros 2048) d) by lia.
    rewrite firstn_len_app, skipn_len_app.
    unfold d at 1. rewrite (parse_header_bytes r0 r1 r2 a P _ W).
    rewrite slice_of_ok;
      [|lia|rewrite len_app;
            pose proof (len_nonneg (skipn (length d) (zeros 2048))); lia].
    replace (sub (d ++ skipn (length d) (zeros 2048)) (Z.to_nat (size a))
               (Z.to_nat (len d))) with P; [reflexivity|].
    symmetry. unfold d. rewrite <- app_assoc. apply sub_mid.
    + unfold len in LH. lia.
    + rewrite len_app. unfold len in *. lia.
  - intros s. rewrite (Read_seed _ s b P); try reflexivity; try lia.
    unfold frame, uint16. rewrite Z.mod_small by lia.
    rewrite <- app_assoc. reflexivity.
  - intros i Hi. unfold member. cbn [initBuf].
    destruct i; [contradiction | reflexivity].
Qed.

Lemma handleUDPtoTCP_first_datagram_seeds_member_0_witness :
  let relay := mkUDP [Datagram (header_bytes x00 x00 x00 addr_1_2_3_4_53 ++ PING) a_peer]
                 [] [] false in
  (forall dial tick polls maxConns,
     handleUDPtoTCP dial tick polls relay maxConns
     = match supervise tick polls
               (pool dial (Some a_peer) addr_1_2_3_4_53 PING maxConns) maxConns with
       | Some k => RelayClosed k
       | None => StillPolling
       end)
  /\ (forall s,
        Read (member (Some a_peer) addr_1_2_3_4_53 PING 0) s (zeros 2050)
        = mkRead (set_initBuf (member (Some a_peer) addr_1_2_3_4_53 PING 0) None) s
            (frame PING ++ skipn (2 + length PING) (zeros 2050))
            (Done (len PING + 2, None)))
  /\ (forall i, i <> 0%nat ->
        initBuf (member (Some a_peer) addr_1_2_3_4_53 PING i) = None).
Proof.
  apply (handleUDPtoTCP_first_datagram_seeds_member_0
           (mkUDP [Datagram (header_bytes x00 x00 x00 addr_1_2_3_4_53 ++ PING) a_peer]
              [] [] false)
           x00 x00 x00 addr_1_2_3_4_53 PING (zeros 2050) a_peer []).
  - reflexivity.
  - split; [split; [vm_compute; discriminate | reflexivity]|].
    split; [left; reflexivity | split; reflexivity].
  - vm_compute. discriminate.
  - vm_compute. discriminate.
Defined.

(** ** The supervision loop *)

Lemma iter_tick_shift (tick : list udpBridgeConn -> list udpBridgeConn)
  (k : nat) (srcs : list udpBridgeConn) :
  Nat.iter k tick (tick srcs) = Nat.iter (S k) tick srcs.
Proof.
  symmetry. apply Nat.iter_succ_r.
Qed.

(** X21: The supervision loop is left exactly at the first check that finds
    all [maxConns] members closed: the result is [k] sleeps if and only if
    the members, after the tasks have run during [k] sleeps, are the first
    to count [maxConns] closed ones (and the bound [polls] of the model
    allows [k + 1] checks). [Nat.iter k tick srcs] are the members after
    [k] sleeps. *)
Theorem supervise_leaves_at_the_first_full_count
  (tick : list udpBridgeConn -> list udpBridgeConn) (polls : nat)
  (srcs : list udpBridgeConn) (maxConns k : nat) :
  supervise tick polls srcs maxConns = Some k
  <-> (k < polls)%nat
      /\ count_closed (Nat.iter k tick srcs) = maxConns
      /\ forall j, (j < k)%nat -> count_closed (Nat.iter j tick srcs) <> maxConns.
Proof.
  revert srcs k. induction polls as [|p IH]; intros srcs k.
  - cbn [supervise]. split; [discriminate | intros (L & _); lia].
  - cbn [supervise].
    destruct (Nat.eqb_spec (count_closed srcs) maxConns) as [E|N].
    + split.
      * intros [= <-]. split; [lia|]. split; [exact E | intros j Hj; lia].
      * intros (L & EK & First). destruct k as [|k]; [reflexivity|].
        destruct (First 0%nat ltac:(lia) E).
    + destruct (supervise tick p (tick srcs) maxConns) as [k'|] eqn:ES;
        cbn [option_map].
      * apply IH in ES. destruct ES as (L & EK & First).
        rewrite iter_tick_shift in EK. split.
        -- intros [= <-]. split; [lia|]. split; [exact EK|].
           intros [|j] Hj; [exact N|].
           rewrite <- iter_tick_shift. apply First. lia.
        -- intros (L2 & EK2 & First2). f_equal.
           destruct k as [|k]; [destruct (N EK2)|]. f_equal.
           destruct (Nat.lt_trichotomy k' k) as [Lt|[Eq|Gt]]; [|exact Eq|].
           ++ destruct (First2 (S k') ltac:(lia) EK).
           ++ rewrite <- iter_tick_shift in EK2.
              destruct (First k Gt EK2).
      * split; [discriminate|]. intros (L & EK & First).
        destruct k as [|k]; [destruct (N EK)|].
        assert (supervise tick p (tick srcs) maxConns = Some k) as X.
        { apply IH. split; [lia|]. rewrite iter_tick_shift. split; [exact EK|].
          intros j Hj. rewrite iter_tick_shift. apply First. lia. }
        congruence.
Qed.

(** ** [parseUDPHeader]: the headers it accepts *)

Lemma header_check_passes (omitCheck : bool) (r0 r1 : byte) (rest : list byte) :
  passes_check omitCheck r0 r1 ->
  header_check (r0 :: r1 :: rest) omitCheck = Done None.
Proof.
  unfold header_check. intros [->|[-> H]]; [reflexivity|].
  destruct omitCheck; [reflexivity|].
  unfold index. change (nth_error (socksVersion5 :: r1 :: rest) 0)
    with (Some socksVersion5).
  change (nth_error (socksVersion5 :: r1 :: rest) 1) with (Some r1).
  cbn [bind]. change (Byte.eqb socksVersion5 socksVersion5) with true.
  cbn [negb]. destruct H as [-> | ->]; reflexivity.
Qed.

Lemma header_check_inv (omitCheck : bool) (w : list byte) :
  header_check w omitCheck = Done None ->
  forall r0 r1 rest, w = r0 :: r1 :: rest -> passes_check omitCheck r0 r1.
Proof.
  unfold header_check, passes_check. destruct omitCheck; [left; reflexivity|].
  intros H r0 r1 rest ->. right. revert H. unfold index.
  change (nth_error (r0 :: r1 :: rest) 0) with (Some r0).
  change (nth_error (r0 :: r1 :: rest) 1) with (Some r1). cbn [bind].
  destruct (Byte.eqb r0 socksVersion5) eqn:E0; cbn [negb]; [|discriminate].
  apply Byte.byte_dec_bl in E0.
  destruct (Byte.eqb r1 x01) eqn:E1; cbn [negb andb].
  - apply Byte.byte_dec_bl in E1. auto.
  - destruct (Byte.eqb r1 x03) eqn:E3; cbn [negb]; [|discriminate].
    apply Byte.byte_dec_bl in E3. auto.
Qed.

Lemma parse_body_check_passed (conn : option Conn) (arr : list byte)
  (blen : nat) (n : Z) (omitCheck : bool) :
  header_check (firstn blen arr) omitCheck = Done None ->
  parse_body conn arr blen n omitCheck = parse_body conn arr blen n true.
Proof. intros H. unfold parse_body. rewrite H. reflexivity. Qed.

Lemma addr_size_header_bytes (r0 r1 r2 : byte) (a : uAddr) (rest : list byte) :
  wf_addr a ->
  addr_size (header_bytes r0 r1 r2 a ++ rest) = Done (inl (size a)).
Proof.
  intros [_ W]. unfold header_bytes, addr_size, index.
  destruct (ip a) as [i|].
  - destruct W as ([L|L] & _ & ->); rewrite L; reflexivity.
  - destruct W as (L & ->). cbn [app].
    change (nth_error (r0 :: r1 :: r2 :: socksAddrDomain :: _) 3)
      with (Some socksAddrDomain).
    cbn [bind]. change (Byte.eqb socksAddrDomain socksAddrIPv4) with false.
    change (Byte.eqb socksAddrDomain socksAddrIPv6) with false.
    change (Byte.eqb socksAddrDomain socksAddrDomain) with true. cbv iota.
    match goal with
    | |- context [nth_error ?l 4] =>
        change (nth_error l 4) with (Some (byte_of (len (host a))))
    end.
    cbn [bind]. rewrite byte_val_of, Z.mod_small
      by (pose proof (len_nonneg (host a)); lia).
    reflexivity.
Qed.

(** A list of [sz] bytes at least, [sz >= 7], as the three leading
    bytes, the type, the address, the port and the rest. *)
Lemma header_shape (w : list byte) (sz : Z) :
  7 <= sz <= len w ->
  exists x0 x1 x2 t body p0 p1 rest,
    w = [x0; x1; x2] ++ (t :: body) ++ [p0; p1] ++ rest
    /\ sz = 6 + len body.
Proof.
  intros R.
  destruct w as [|x0 [|x1 [|x2 [|t w4]]]];
    try (unfold len in R; cbn [length] in R; lia).
  assert (len w4 = len (x0 :: x1 :: x2 :: t :: w4) - 4) as L4
      by (rewrite !len_cons; lia).
  set (k := Z.to_nat (sz - 6)).
  assert (length (skipn k w4) >= 2)%nat as LS
      by (rewrite length_skipn; unfold len in *; lia).
  destruct (skipn k w4) as [|p0 [|p1 rest]] eqn:ES;
    try (cbn [length] in LS; lia).
  exists x0, x1, x2, t, (firstn k w4), p0, p1, rest. split.
  - cbn [app]. do 4 f_equal. rewrite <- ES. symmetry. apply firstn_skipn.
  - unfold len. rewrite length_firstn. unfold len in *. lia.
Qed.

(** The address that [extract_addr] returns for a header, with the size
    computed from its type, is the one the header is the wire form of. *)
Lemma extract_addr_wire (x0 m x2 t p0 p1 : byte) (body rest : list byte)
  (sz : Z) (a : uAddr) :
  addr_size ([x0; m; x2] ++ (t :: body) ++ [p0; p1] ++ rest) = Done (inl sz) ->
  sz = 6 + len body ->
  a = (if Byte.eqb t socksAddrIPv4 || Byte.eqb t socksAddrIPv6
       then mkAddr (Some body) [] (Uint16 p0 p1) sz
       else mkAddr None (skipn 1 body) (Uint16 p0 p1) sz) ->
  header_bytes x0 m x2 a = [x0; m; x2] ++ (t :: body) ++ [p0; p1]
  /\ wf_addr a.
Proof.
  intros HA HS ->. revert HA. unfold addr_size, index. cbn [app].
  change (nth_error (x0 :: m :: x2 :: t :: body ++ p0 :: p1 :: rest) 3)
    with (Some t).
  cbn [bind]. pose proof (Uint16_range p0 p1) as PR.
  destruct (Byte.eqb t socksAddrIPv4) eqn:E4.
  { apply Byte.byte_dec_bl in E4. subst t. intros [= <-].
    assert (len body = 4) as LB by (unfold IPv4len in *; lia).
    cbn [orb]. unfold header_bytes, wf_addr. cbn [ip host port size].
    rewrite LB, PutUint16_Uint16. change (4 =? IPv4len) with true. cbv iota.
    split; [reflexivity|]. split; [exact PR|].
    split; [left; reflexivity | split; reflexivity]. }
  destruct (Byte.eqb t socksAddrIPv6) eqn:E6.
  { apply Byte.byte_dec_bl in E6. subst t. intros [= <-].
    assert (len body = 16) as LB by (unfold IPv6len in *; lia).
    cbn [orb]. unfold header_bytes, wf_addr. cbn [ip host port size].
    rewrite LB, PutUint16_Uint16. change (16 =? IPv4len) with false. cbv iota.
    split; [reflexivity|]. split; [exact PR|].
    split; [right; reflexivity | split; reflexivity]. }
  destruct (Byte.eqb t socksAddrDomain) eqn:ED; [|discriminate].
  apply Byte.byte_dec_bl in ED. subst t.
  destruct body as [|l name].
  { change (nth_error (x0 :: m :: x2 :: socksAddrDomain :: [] ++ p0 :: p1 :: rest) 4)
      with (Some p0). cbn [bind]. intros [= <-].
    change (len (@nil byte)) with 0 in HS. pose proof (byte_val_range p0). lia. }
  change (nth_error (x0 :: m :: x2 :: socksAddrDomain :: (l :: name) ++ p0 :: p1 :: rest) 4)
    with (Some l).
  cbn [bind]. intros [= <-]. rewrite len_cons in HS.
  assert (len name = byte_val l) as LN by lia.
  cbn [orb skipn]. unfold header_bytes, wf_addr. cbn [ip host port size].
  rewrite LN, byte_of_val, PutUint16_Uint16.
  split; [reflexivity|]. split; [exact PR|].
  pose proof (byte_val_range l). split; lia.
Qed.

(** X1: Without a connection, [parseUDPHeader] accepts exactly the buffers
    that begin with a header of the wire format: it returns the command
    byte [m] and the address [a] without error if and only if the buffer is
    the header of [a] (the address type, the address, with its length
    byte for a name, and the big-endian port, after three leading bytes of
    which the second is [m]) followed by anything, [a] is an address a
    header can carry with its size recorded, and the version and command
    bytes pass the checks unless these are skipped. The third byte is
    never looked at. *)
Theorem parseUDPHeader_accepts_exactly_the_headers (buf : slice)
  (omitCheck : bool) (m : byte) (a : uAddr) :
  p_out (parseUDPHeader None (Some buf) omitCheck) = Done (m, Some a, None)
  <-> exists r0 r2 rest,
        elems buf = header_bytes r0 m r2 a ++ rest
        /\ wf_addr a /\ passes_check omitCheck r0 m.
Proof.
  split.
  - unfold parseUDPHeader, parse_body. rewrite firstn_elems.
    destruct (header_check (elems buf) omitCheck) as [[e|]|q] eqn:HC;
      cbn [p_out]; try discriminate.
    destruct (addr_size (elems buf)) as [[sz|e]|q] eqn:HA;
      cbn [p_out]; try discriminate.
    destruct (Z.ltb_spec (len (elems buf)) sz) as [Lt|Ge];
      cbn [p_out]; [discriminate|].
    pose proof (addr_size_ge_7 _ _ HA) as [G7 _].
    destruct (header_shape (elems buf) sz ltac:(lia))
      as (x0 & x1 & x2 & t & body & p0 & p1 & rest & EW & ES).
    replace (elems buf ++ spare buf)
      with ([x0; x1; x2] ++ (t :: body) ++ [p0; p1] ++ rest ++ spare buf)
      by (rewrite EW, <- !app_assoc; reflexivity).
    rewrite (extract_addr_header x0 x1 x2 t p0 p1 body (rest ++ spare buf)
               (length (elems buf)) sz ES);
      [|unfold len in Ge; lia|unfold len in ES; lia].
    intros [= <- <-]. rewrite EW in HA.
    destruct (extract_addr_wire x0 x1 x2 t p0 p1 body rest sz _ HA ES eq_refl)
      as [EH WA].
    exists x0, x2, rest. split; [|split].
    + change (match body with [] => [] | _ :: l => l end) with (skipn 1 body).
      rewrite EH, EW, <- !app_assoc. reflexivity.
    + change (match body with [] => [] | _ :: l => l end) with (skipn 1 body).
      exact WA.
    + apply (header_check_inv omitCheck _ HC x0 x1
               (x2 :: (t :: body) ++ [p0; p1] ++ rest)).
      rewrite EW. reflexivity.
  - intros (r0 & r2 & rest & EB & W & PC).
    destruct buf as [el sp]. cbn [elems] in EB. subst el.
    unfold parseUDPHeader.
    rewrite parse_body_check_passed.
    + apply (parse_header_bytes r0 m r2 a rest sp W).
    + cbn [elems spare].
      rewrite firstn_app, firstn_all, Nat.sub_diag. cbn [firstn].
      rewrite app_nil_r.
      unfold header_bytes. cbn [app]. apply header_check_passes, PC.
Qed.

(** ** [parseUDPHeader] on a connection *)

Lemma copy_at_fits (buf : list byte) (n : nat) (src : list byte) :
  (n + length src <= length buf)%nat ->
  copy_at buf n src = firstn n buf ++ src ++ skipn (n + length src) buf.
Proof.
  intros L. unfold copy_at.
  rewrite copy_prefix by (rewrite length_skipn; lia).
  rewrite skipn_skipn. do 3 f_equal. lia.
Qed.

Lemma length_copy_at (buf : list byte) (n : nat) (src : list byte) :
  length (copy_at buf n src) = length buf.
Proof. pose proof (len_copy_at buf n src) as H. unfold len in H. lia. Qed.

Lemma firstn_exact (A B : list byte) (k : nat) :
  k = length A -> firstn k (A ++ B) = A.
Proof.
  intros ->. rewrite firstn_app, firstn_all, Nat.sub_diag. cbn [firstn].
  apply app_nil_r.
Qed.

Lemma skipn_more (A B : list byte) (k j : nat) :
  k = (length A + j)%nat -> skipn k (A ++ B) = skipn j B.
Proof.
  intros ->. rewrite skipn_app, skipn_all2 by lia. cbn [app].
  f_equal. lia.
Qed.

Lemma copy_at_twice (buf : list byte) (n : nat) (c x : list byte) :
  (n + length c + length x <= length buf)%nat ->
  copy_at (copy_at buf n c) (n + length c) x = copy_at buf n (c ++ x).
Proof.
  intros L.
  assert (length (firstn n buf) = n) as LF by (rewrite length_firstn; lia).
  rewrite (copy_at_fits buf n c) by lia.
  rewrite (copy_at_fits buf n (c ++ x)) by (rewrite length_app; lia).
  set (A := firstn n buf) in *. set (B := skipn (n + length c) buf).
  assert (length B = length buf - (n + length c))%nat as LB
      by (unfold B; apply length_skipn).
  rewrite (app_assoc A c B).
  rewrite copy_at_fits by (rewrite !length_app; lia).
  rewrite (firstn_exact (A ++ c) B) by (rewrite length_app; lia).
  rewrite (skipn_more (A ++ c) B _ (length x)) by (rewrite length_app; lia).
  unfold B. rewrite skipn_skipn, length_app, <- !app_assoc.
  replace (length x + (n + length c))%nat
    with (n + (length c + length x))%nat by lia.
  reflexivity.
Qed.

Lemma read_loop_done (ch : Conn) (buf : list byte) (n min : nat) :
  (min <= n)%nat -> read_loop ch buf n min = (ch, buf, n, None).
Proof.
  intros L. destruct ch; cbn [read_loop];
    (replace (min <=? n)%nat with true by (symmetry; apply Nat.leb_le; lia));
    reflexivity.
Qed.

(** The loop of [io.ReadAtLeast] on a stream whose first chunks [pre]
    are the ones it takes: before the last of them fewer than [min] bytes
    have been read, with it [min] at least, and they fit the buffer. *)
Lemma read_loop_chunks (pre : list (list byte)) :
  forall (rest : Conn) (buf : list byte) (n min : nat),
    (n + length (concat pre) <= length buf)%nat ->
    (n + length (concat (removelast pre)) < min)%nat ->
    (min <= n + length (concat pre))%nat ->
    read_loop (pre ++ rest) buf n min
    = (rest, copy_at buf n (concat pre), (n + length (concat pre))%nat, None).
Proof.
  induction pre as [|c pre IH]; intros rest buf n min Fit Before Enough.
  - cbn in Before, Enough. lia.
  - cbn [concat] in Fit, Enough. rewrite length_app in Fit, Enough.
    assert (n < min)%nat as Lt.
    { destruct pre; cbn [removelast concat] in Before;
        rewrite ?length_app in Before; cbn [length] in Before; lia. }
    cbn [app read_loop].
    replace (min <=? n)%nat with false by (symmetry; apply Nat.leb_gt; lia).
    replace (length c <=? length buf - n)%nat with true
      by (symmetry; apply Nat.leb_le; lia).
    destruct pre as [|c2 pre].
    + cbn [app concat] in *. rewrite app_nil_r. cbn [length] in Enough.
      rewrite read_loop_done by lia. reflexivity.
    + rewrite IH.
      * rewrite copy_at_twice by lia. cbn [concat].
        rewrite !length_app. do 2 f_equal. lia.
      * rewrite length_copy_at. lia.
      * change (removelast (c :: c2 :: pre)) with (c :: removelast (c2 :: pre))
          in Before.
        cbn [concat] in Before. rewrite length_app in Before. lia.
      * lia.
Qed.

(** The loop on a stream that ends before [min] bytes. *)
Lemma read_loop_short (ch : Conn) :
  forall (buf : list byte) (n min : nat),
    (n + length (concat ch) < min)%nat ->
    (n + length (concat ch) <= length buf)%nat ->
    read_loop ch buf n min
    = ([], copy_at buf n (concat ch), (n + length (concat ch))%nat, Some EOF).
Proof.
  induction ch as [|c ch IH]; intros buf n min Short Fit.
  - cbn [read_loop concat length] in *.
    replace (min <=? n)%nat with false by (symmetry; apply Nat.leb_gt; lia).
    rewrite Nat.add_0_r. unfold copy_at, copy. rewrite firstn_nil.
    cbn [length skipn app]. rewrite firstn_skipn. reflexivity.
  - cbn [concat] in Short, Fit. rewrite length_app in Short, Fit.
    cbn [read_loop].
    replace (min <=? n)%nat with false by (symmetry; apply Nat.leb_gt; lia).
    replace (length c <=? length buf - n)%nat with true
      by (symmetry; apply Nat.leb_le; lia).
    rewrite IH by (rewrite ?length_copy_at; lia).
    rewrite copy_at_twice by lia. cbn [concat]. rewrite length_app.
    do 2 f_equal. lia.
Qed.

(** The loop of [io.ReadFull] on a stream that holds enough bytes: the
    buffer is filled with the first bytes of the stream, and the rest of
    the stream is left. *)
Lemma read_loop_full (ch : Conn) :
  forall (buf : list byte) (n : nat),
    (n <= length buf)%nat ->
    (length buf - n <= length (concat ch))%nat ->
    exists ch',
      read_loop ch buf n (length buf)
      = (ch', firstn n buf ++ firstn (length buf - n) (concat ch),
         length buf, None)
      /\ concat ch' = skipn (length buf - n) (concat ch).
Proof.
  induction ch as [|c ch IH]; intros buf n Ln Enough.
  - cbn [concat length] in Enough. assert (n = length buf) as -> by lia.
    exists []. rewrite read_loop_done by lia.
    rewrite Nat.sub_diag, firstn_all. cbn [firstn concat skipn].
    rewrite app_nil_r. split; reflexivity.
  - destruct (Nat.eq_dec n (length buf)) as [->|Ne].
    { exists (c :: ch). rewrite read_loop_done by lia.
      rewrite Nat.sub_diag, firstn_all. cbn [firstn skipn].
      rewrite app_nil_r. split; reflexivity. }
    cbn [concat] in Enough |- *. rewrite length_app in Enough.
    cbn [read_loop].
    replace (length buf <=? n)%nat with false by (symmetry; apply Nat.leb_gt; lia).
    destruct (Nat.leb_spec (length c) (length buf - n)) as [Fits|Over].
    + destruct (IH (copy_at buf n c) (n + length c)%nat) as (ch' & E & EC);
        [rewrite length_copy_at; lia | rewrite length_copy_at; lia|].
      rewrite length_copy_at in E. exists ch'. split.
      * rewrite E. f_equal. f_equal. f_equal.
        assert (length (firstn n buf) = n) as LF by (rewrite length_firstn; lia).
        rewrite (copy_at_fits buf n c) by lia.
        rewrite (app_assoc (firstn n buf) c).
        rewrite (firstn_exact (firstn n buf ++ c)) by (rewrite length_app; lia).
        rewrite <- app_assoc. f_equal.
        rewrite (firstn_app (length buf - n) c), (firstn_all2 c) by lia.
        do 2 f_equal. lia.
      * rewrite EC, length_copy_at.
        symmetry. apply skipn_more. lia.
    + exists (skipn (length buf - n) c :: ch). split.
      * replace (n + (length buf - n))%nat with (length buf) by lia.
        do 3 f_equal.
        rewrite copy_at_fits by (rewrite length_firstn; lia).
        rewrite length_firstn.
        replace (n + Nat.min (length buf - n) (length c))%nat
          with (length buf) by lia.
        rewrite skipn_all, app_nil_r. f_equal.
        rewrite (firstn_app (length buf - n) c).
        replace (length buf - n - length c)%nat with 0%nat by lia.
        cbn [firstn]. rewrite app_nil_r. reflexivity.
      * cbn [concat]. rewrite skipn_app.
        replace (length buf - n - length c)%nat with 0%nat by lia.
        reflexivity.
Qed.

Lemma ReadAtLeast_chunks (pre : list (list byte)) (rest : Conn)
  (buf : list byte) (min : nat) :
  (length (concat pre) <= length buf)%nat ->
  (length (concat (removelast pre)) < min)%nat ->
  (min <= length (concat pre))%nat ->
  ReadAtLeast (pre ++ rest) buf min
  = (rest, concat pre ++ skipn (length (concat pre)) buf,
     length (concat pre), None).
Proof.
  intros Fit Before Enough. unfold ReadAtLeast.
  replace (length buf <? min)%nat with false
    by (symmetry; apply Nat.ltb_ge; lia).
  rewrite (read_loop_chunks pre rest buf 0 min) by (cbn [Nat.add]; lia).
  cbn [Nat.add].
  replace (min <=? length (concat pre))%nat with true
    by (symmetry; apply Nat.leb_le; lia).
  rewrite copy_at_fits by (cbn [Nat.add]; lia). reflexivity.
Qed.

Lemma ReadFull_enough (ch : Conn) (region : list byte) :
  (length region <= length (concat ch))%nat ->
  exists ch',
    ReadFull ch region
    = (ch', firstn (length region) (concat ch), length region, None)
    /\ concat ch' = skipn (length region) (concat ch).
Proof.
  intros Enough. unfold ReadFull, ReadAtLeast.
  rewrite Nat.ltb_irrefl.
  destruct (read_loop_full ch region 0 ltac:(lia) ltac:(lia)) as (ch' & E & EC).
  rewrite Nat.sub_0_r in E, EC. cbn [firstn app] in E.
  exists ch'. rewrite E, Nat.leb_refl. split; [reflexivity | exact EC].
Qed.

Lemma ReadFull_short (ch : Conn) (region : list byte) :
  (length (concat ch) < length region)%nat ->
  exists region',
    ReadFull ch region
    = ([], region', length (concat ch),
       Some (if (0 <? length (concat ch))%nat then ErrUnexpectedEOF else EOF)).
Proof.
  intros Short. unfold ReadFull, ReadAtLeast.
  rewrite Nat.ltb_irrefl.
  rewrite (read_loop_short ch region 0 (length region))
    by (cbn [Nat.add]; lia).
  cbn [Nat.add].
  replace (length region <=? length (concat ch))%nat with false
    by (symmetry; apply Nat.leb_gt; lia).
  eexists. reflexivity.
Qed.

Lemma checks_look_at_five_bytes (x y : list byte) (omitCheck : bool) :
  firstn 5 x = firstn 5 y ->
  header_check x omitCheck = header_check y omitCheck
  /\ addr_size x = addr_size y.
Proof.
  intros E.
  assert (forall i, (i < 5)%nat -> nth_error x i = nth_error y i) as N.
  { intros i Hi.
    pose proof (nth_error_firstn 5 x i) as Hx.
    pose proof (nth_error_firstn 5 y i) as Hy.
    replace (i <? 5)%nat with true in Hx, Hy
      by (symmetry; apply Nat.ltb_lt; exact Hi).
    rewrite <- Hx, <- Hy, E. reflexivity. }
  unfold header_check, addr_size, index.
  rewrite (N 0%nat), (N 1%nat), (N 3%nat), (N 4%nat) by lia.
  split; reflexivity.
Qed.

(** [extract_addr] on a buffer that is a header and what follows. *)
Lemma extract_addr_full (r0 r1 r2 : byte) (a : uAddr) (rest : list byte) :
  wf_addr a ->
  extract_addr (header_bytes r0 r1 r2 a ++ rest)
    (length (header_bytes r0 r1 r2 a ++ rest)) (size a)
  = Done (r1, Some a, None).
Proof.
  intros W.
  pose proof (parse_header_bytes r0 r1 r2 a rest [] W) as P.
  pose proof (len_header_bytes r0 r1 r2 a W) as LH.
  unfold parseUDPHeader, parse_body in P. cbn [elems spare header_check] in P.
  rewrite app_nil_r, firstn_all in P.
  rewrite (addr_size_header_bytes r0 r1 r2 a rest W) in P.
  replace (len (header_bytes r0 r1 r2 a ++ rest) <? size a) with false in P
    by (symmetry; apply Z.ltb_ge; rewrite len_app;
        pose proof (len_nonneg rest); lia).
  exact P.
Qed.

Lemma skipn_repeat_byte (x : byte) (k m : nat) :
  skipn k (repeat x m) = repeat x (m - k).
Proof.
  revert m. induction k as [|k IH]; intros m.
  - rewrite Nat.sub_0_r. reflexivity.
  - destruct m as [|m]; [reflexivity|]. cbn [repeat skipn Nat.sub]. apply IH.
Qed.

Lemma skipn_zeros (k : nat) (n : Z) :
  0 <= n -> skipn k (zeros n) = zeros (n - Z.of_nat k).
Proof.
  intros Hn. unfold zeros. rewrite skipn_repeat_byte. f_equal. lia.
Qed.

Lemma ten_bytes_keep_the_checks (pre more rest : list byte) (omitCheck : bool) :
  (10 <= length pre)%nat ->
  header_check (pre ++ rest) omitCheck = header_check (pre ++ more) omitCheck
  /\ addr_size (pre ++ rest) = addr_size (pre ++ more).
Proof.
  intros L. apply checks_look_at_five_bytes.
  rewrite !firstn_app.
  replace (5 - length pre)%nat with 0%nat by lia. reflexivity.
Qed.

(** X2: On a connection, with no buffer supplied, [parseUDPHeader] takes the
    header from the stream and nothing more, when the reads that gather
    the first ten bytes do not go beyond it. The stream is a list of
    chunks, one for each [Read] of the connection: the chunks [pre] are
    read by [io.ReadAtLeast] (fewer than ten bytes before the last of
    them, ten at least with it) and hold the beginning of the header; the
    rest of the header, [more], is the beginning of the chunks that follow.
    Then the command byte and the address of the header are returned
    without error, for a header that passes the checks, and the stream is
    left where the header ends. *)
Theorem parseUDPHeader_takes_the_header_from_the_stream
  (pre rest : Conn) (more tail : list byte) (omitCheck : bool)
  (r0 r1 r2 : byte) (a : uAddr) :
  wf_addr a ->
  passes_check omitCheck r0 r1 ->
  concat pre ++ more = header_bytes r0 r1 r2 a ->
  (length (concat (removelast pre)) < 10 <= length (concat pre))%nat ->
  concat rest = more ++ tail ->
  exists ch',
    parseUDPHeader (Some (pre ++ rest)) None omitCheck
    = mkParsed (Some ch')
        (header_bytes r0 r1 r2 a ++ zeros (263 - size a))
        (Done (r1, Some a, None))
    /\ concat ch' = tail.
Proof.
  intros W PC EH [Before Enough] ER.
  pose proof (len_header_bytes r0 r1 r2 a W) as LH.
  pose proof (size_ge_7 a W) as S7.
  set (H := header_bytes r0 r1 r2 a) in *.
  set (n := length (concat pre)) in *.
  assert (size a <= 262) as S262.
  { destruct W as [_ W]. destruct (ip a).
    - destruct W as ([E|E] & _ & ->); rewrite E; unfold IPv4len, IPv6len; lia.
    - destruct W as (L & ->). lia. }
  assert (Z.of_nat n + len more = size a) as LN.
  { rewrite <- LH, <- EH, len_app. reflexivity. }
  pose proof (len_nonneg more) as NM.
  assert (length (zeros (256 + 3 + 1 + 1 + 2)) = 263%nat) as LZ by reflexivity.
  unfold parseUDPHeader.
  change (Z.to_nat (3 + 1 + IPv4len + 2)) with 10%nat.
  rewrite (ReadAtLeast_chunks pre rest _ 10) by (fold n; lia).
  fold n. rewrite skipn_zeros by lia.
  change (256 + 3 + 1 + 1 + 2) with 263.
  set (arr := concat pre ++ zeros (263 - Z.of_nat n)).
  assert (length arr = 263%nat) as LA.
  { unfold arr. rewrite length_app, length_zeros. fold n. lia. }
  unfold parse_body. rewrite LA.
  replace (firstn 263 arr) with arr by (symmetry; rewrite <- LA; apply firstn_all).
  destruct (ten_bytes_keep_the_checks (concat pre) (more ++ tail)
              (zeros (263 - Z.of_nat n)) omitCheck Enough) as [E1 E2].
  fold arr in E1, E2. rewrite E1, E2.
  rewrite app_assoc, EH.
  replace (header_check (H ++ tail) omitCheck) with (@Done (option error) None)
    by (symmetry; unfold H, header_bytes; cbn [app];
        apply header_check_passes, PC).
  unfold H at 1. rewrite (addr_size_header_bytes r0 r1 r2 a tail W).
  rewrite slice_of_ok by (unfold len; lia).
  set (region := sub arr (Z.to_nat (Z.of_nat n)) (Z.to_nat (size a))).
  assert (length region = length more) as LR.
  { pose proof (len_sub arr (Z.of_nat n) (size a) ltac:(lia)
                  ltac:(unfold len; lia)) as X.
    fold region in X. unfold len in X, LN. lia. }
  destruct (ReadFull_enough rest region) as (ch' & ERF & EC).
  { rewrite ER, length_app. lia. }
  rewrite ERF. exists ch'.
  assert (firstn (length region) (concat rest) = more) as FM
      by (rewrite LR, ER; apply firstn_exact; reflexivity).
  assert (concat ch' = tail) as ET
      by (rewrite EC, LR, ER; apply (skipn_more more tail _ 0%nat); lia).
  rewrite FM, Nat2Z.id.
  assert (firstn n arr = concat pre) as FA
      by (unfold arr; apply firstn_exact; reflexivity).
  assert (skipn (Z.to_nat (size a)) arr = zeros (263 - size a)) as SA.
  { unfold arr. rewrite (skipn_more (concat pre) _ _ (length more))
      by (unfold len in LN; fold n; lia).
    rewrite skipn_zeros by lia. f_equal. unfold len in LN. lia. }
  rewrite FA, SA, app_assoc, EH.
  split; [|exact ET]. f_equal.
  replace 263%nat with (length (H ++ zeros (263 - size a)))
    by (rewrite length_app, length_zeros; unfold len in LH; lia).
  apply extract_addr_full, W.
Qed.

Lemma parseUDPHeader_takes_the_header_from_the_stream_witness :
  let a := mkAddr None (bytes_of_nats [65; 66; 67; 68; 69]%nat) 53 12 in
  exists ch',
    parseUDPHeader
      (Some ([bytes_of_nats [5; 1; 0; 3; 5; 65]%nat;
              bytes_of_nats [66; 67; 68; 69]%nat]
             ++ [bytes_of_nats [0]%nat; bytes_of_nats [53; 80; 73]%nat]))
      None false
    = mkParsed (Some ch')
        (header_bytes x05 x01 x00 a ++ zeros (263 - size a))
        (Done (x01, Some a, None))
    /\ concat ch' = bytes_of_nats [80; 73]%nat.
Proof.
  apply (parseUDPHeader_takes_the_header_from_the_stream
           [bytes_of_nats [5; 1; 0; 3; 5; 65]%nat;
            bytes_of_nats [66; 67; 68; 69]%nat]
           [bytes_of_nats [0]%nat; bytes_of_nats [53; 80; 73]%nat]
           (bytes_of_nats [0; 53]%nat) (bytes_of_nats [80; 73]%nat) false
           x05 x01 x00
           (mkAddr None (bytes_of_nats [65; 66; 67; 68; 69]%nat) 53 12)).
  - split; [split; [vm_compute; discriminate | reflexivity]|].
    split; [vm_compute; discriminate | reflexivity].
  - right. split; [reflexivity | left; reflexivity].
  - reflexivity.
  - split; [vm_compute; lia | vm_compute; lia].
  - reflexivity.
Defined.

(** X3: On a connection, with no buffer supplied, [parseUDPHeader] panics
    when the reads that gather the first ten bytes go beyond the header:
    [io.ReadAtLeast] has then read [n] bytes, more than the size of the
    header, and [buf[n:addr.size]] is out of range. The chunks [pre] are
    the ones read (fewer than ten bytes before the last of them, ten at
    least with it, 263 at most): a header that passes the checks, and
    [extra], at least one byte. So do all the headers of fewer than ten
    bytes, those of a name of at most two bytes. *)
Theorem parseUDPHeader_panics_on_a_read_beyond_the_header
  (pre rest : Conn) (extra : list byte) (omitCheck : bool)
  (r0 r1 r2 : byte) (a : uAddr) :
  wf_addr a ->
  passes_check omitCheck r0 r1 ->
  concat pre = header_bytes r0 r1 r2 a ++ extra ->
  extra <> [] ->
  (length (concat (removelast pre)) < 10 <= length (concat pre))%nat ->
  (length (concat pre) <= 263)%nat ->
  parseUDPHeader (Some (pre ++ rest)) None omitCheck
  = mkParsed (Some rest)
      (concat pre ++ zeros (263 - len (concat pre)))
      (Panicked PanicSliceBounds).
Proof.
  intros W PC EH NE [Before Enough] Fit.
  pose proof (len_header_bytes r0 r1 r2 a W) as LH.
  pose proof (size_ge_7 a W) as S7.
  set (n := length (concat pre)) in *.
  assert (size a < Z.of_nat n) as LN.
  { unfold n. rewrite EH, length_app.
    destruct extra; [contradiction|]. cbn [length]. unfold len in LH. lia. }
  assert (length (zeros (256 + 3 + 1 + 1 + 2)) = 263%nat) as LZ by reflexivity.
  unfold parseUDPHeader.
  change (Z.to_nat (3 + 1 + IPv4len + 2)) with 10%nat.
  rewrite (ReadAtLeast_chunks pre rest _ 10) by (fold n; lia).
  fold n. rewrite skipn_zeros by lia.
  change (256 + 3 + 1 + 1 + 2) with 263.
  unfold len. fold n.
  set (arr := concat pre ++ zeros (263 - Z.of_nat n)).
  assert (length arr = 263%nat) as LA.
  { unfold arr. rewrite length_app, length_zeros. fold n. lia. }
  unfold parse_body. rewrite LA.
  replace (firstn 263 arr) with arr by (symmetry; rewrite <- LA; apply firstn_all).
  assert (arr = header_bytes r0 r1 r2 a ++ extra ++ zeros (263 - Z.of_nat n))
    as EA by (unfold arr; rewrite EH, <- app_assoc; reflexivity).
  replace (header_check arr omitCheck) with (@Done (option error) None)
    by (symmetry; rewrite EA; unfold header_bytes; cbn [app];
        apply header_check_passes, PC).
  replace (addr_size arr) with (@Done (Z + error) (inl (size a)))
    by (symmetry; rewrite EA; apply addr_size_header_bytes, W).
  unfold slice_of.
  replace (Z.of_nat n <=? size a) with false
    by (symmetry; apply Z.leb_gt; lia).
  rewrite andb_false_r. reflexivity.
Qed.

Lemma parseUDPHeader_panics_on_a_read_beyond_the_header_witness :
  let a := mkAddr None (bytes_of_nats [65; 66]%nat) 53 9 in
  parseUDPHeader
    (Some ([bytes_of_nats [5; 1; 0; 3; 2; 65; 66; 0; 53]%nat;
            bytes_of_nats [80]%nat] ++ [PING]))
    None false
  = mkParsed (Some [PING])
      (concat [bytes_of_nats [5; 1; 0; 3; 2; 65; 66; 0; 53]%nat;
               bytes_of_nats [80]%nat]
       ++ zeros (263 - len (concat [bytes_of_nats [5; 1; 0; 3; 2; 65; 66; 0; 53]%nat;
                                    bytes_of_nats [80]%nat])))
      (Panicked PanicSliceBounds).
Proof.
  apply (parseUDPHeader_panics_on_a_read_beyond_the_header
           [bytes_of_nats [5; 1; 0; 3; 2; 65; 66; 0; 53]%nat;
            bytes_of_nats [80]%nat]
           [PING] (bytes_of_nats [80]%nat) false x05 x01 x00
           (mkAddr None (bytes_of_nats [65; 66]%nat) 53 9)).
  - split; [split; [vm_compute; discriminate | reflexivity]|].
    split; [vm_compute; discriminate | reflexivity].
  - right. split; [reflexivity | left; reflexivity].
  - reflexivity.
  - discriminate.
  - split; [vm_compute; lia | vm_compute; lia].
  - vm_compute. lia.
Defined.

Lemma ReadAtLeast_short (ch : Conn) (buf : list byte) (min : nat) :
  (length (concat ch) < min)%nat -> (min <= length buf)%nat ->
  ReadAtLeast ch buf min
  = ([], concat ch ++ skipn (length (concat ch)) buf, length (concat ch),
     Some (if (0 <? length (concat ch))%nat then ErrUnexpectedEOF else EOF)).
Proof.
  intros Short Fit. unfold ReadAtLeast.
  replace (length buf <? min)%nat with false
    by (symmetry; apply Nat.ltb_ge; lia).
  rewrite (read_loop_short ch buf 0 min) by (cbn [Nat.add]; lia).
  cbn [Nat.add].
  replace (min <=? length (concat ch))%nat with false
    by (symmetry; apply Nat.leb_gt; lia).
  rewrite copy_at_fits by (cbn [Nat.add]; lia). reflexivity.
Qed.

(** X4: On a connection, with no buffer supplied, a stream that ends early
    makes [parseUDPHeader] return the error of the read and the command 0:
    [io.EOF] when the read that failed got no byte at all,
    [io.ErrUnexpectedEOF] when it got some. When the stream ends before
    ten bytes no address is returned. When it ends inside a header whose
    first ten bytes were read, and pass the checks, the address returned
    with the error is not nil: it holds the size of the header and nothing
    else. *)
Theorem parseUDPHeader_on_a_stream_that_ends_early (omitCheck : bool) :
  (forall ch : Conn,
     (length (concat ch) < 10)%nat ->
     parseUDPHeader (Some ch) None omitCheck
     = mkParsed (Some [])
         (concat ch ++ zeros (263 - len (concat ch)))
         (Done (x00, None,
                Some (if (0 <? length (concat ch))%nat
                      then ErrUnexpectedEOF else EOF))))
  /\ (forall (pre rest : Conn) (more : list byte) (r0 r1 r2 : byte) (a : uAddr),
        wf_addr a ->
        passes_check omitCheck r0 r1 ->
        concat pre ++ more = header_bytes r0 r1 r2 a ->
        (length (concat (removelast pre)) < 10 <= length (concat pre))%nat ->
        (length (concat rest) < length more)%nat ->
        exists arr,
          parseUDPHeader (Some (pre ++ rest)) None omitCheck
          = mkParsed (Some []) arr
              (Done (x00, Some (mkAddr None [] 0 (size a)),
                     Some (if (0 <? length (concat rest))%nat
                           then ErrUnexpectedEOF else EOF)))).
Proof.
  assert (length (zeros (256 + 3 + 1 + 1 + 2)) = 263%nat) as LZ by reflexivity.
  split.
  - intros ch Short. unfold parseUDPHeader.
    change (Z.to_nat (3 + 1 + IPv4len + 2)) with 10%nat.
    rewrite ReadAtLeast_short by lia.
    rewrite skipn_zeros by lia. reflexivity.
  - intros pre rest more r0 r1 r2 a W PC EH [Before Enough] Short.
    pose proof (len_header_bytes r0 r1 r2 a W) as LH.
    pose proof (size_ge_7 a W) as S7.
    set (H := header_bytes r0 r1 r2 a) in *.
    set (n := length (concat pre)) in *.
    assert (size a <= 262) as S262.
    { destruct W as [_ W]. destruct (ip a).
      - destruct W as ([E|E] & _ & ->); rewrite E; unfold IPv4len, IPv6len; lia.
      - destruct W as (L & ->). lia. }
    assert (Z.of_nat n + len more = size a) as LN.
    { rewrite <- LH, <- EH, len_app. reflexivity. }
    pose proof (len_nonneg more) as NM.
    unfold parseUDPHeader.
    change (Z.to_nat (3 + 1 + IPv4len + 2)) with 10%nat.
    rewrite (ReadAtLeast_chunks pre rest _ 10) by (fold n; lia).
    fold n. rewrite skipn_zeros by lia.
    change (256 + 3 + 1 + 1 + 2) with 263.
    set (arr := concat pre ++ zeros (263 - Z.of_nat n)).
    assert (length arr = 263%nat) as LA.
    { unfold arr. rewrite length_app, length_zeros. fold n. lia. }
    unfold parse_body. rewrite LA.
    replace (firstn 263 arr) with arr
      by (symmetry; rewrite <- LA; apply firstn_all).
    destruct (ten_bytes_keep_the_checks (concat pre) more
                (zeros (263 - Z.of_nat n)) omitCheck Enough) as [E1 E2].
    fold arr in E1, E2. rewrite E1, E2, EH.
    replace (header_check H omitCheck) with (@Done (option error) None)
      by (symmetry; unfold H, header_bytes; cbn [app];
          apply header_check_passes, PC).
    replace (addr_size H) with (@Done (Z + error) (inl (size a))).
    2:{ symmetry. rewrite <- (app_nil_r H). unfold H.
        apply addr_size_header_bytes, W. }
    rewrite slice_of_ok by (unfold len; lia).
    set (region := sub arr (Z.to_nat (Z.of_nat n)) (Z.to_nat (size a))).
    assert (length region = length more) as LR.
    { pose proof (len_sub arr (Z.of_nat n) (size a) ltac:(lia)
                    ltac:(unfold len; lia)) as X.
      fold region in X. unfold len in X, LN. lia. }
    destruct (ReadFull_short rest region ltac:(lia)) as (region' & ERF).
    rewrite ERF. eexists. reflexivity.
Qed.

(** ** [write]: a destination with no name *)

Lemma firstn_plus (a b : nat) (l : list byte) :
  firstn (a + b) l = firstn a l ++ firstn b (skipn a l).
Proof.
  revert l. induction a as [|a IH]; intros l; [reflexivity|].
  destruct l as [|x l].
  - cbn [skipn]. rewrite !firstn_nil. reflexivity.
  - cbn [Nat.add firstn skipn app]. rewrite IH. reflexivity.
Qed.

Lemma firstn_exact_Z (A B : list byte) (k : Z) :
  k = len A -> firstn (Z.to_nat k) (A ++ B) = A.
Proof. intros ->. apply firstn_len_app. Qed.

Lemma firstn_4_template_any (h : list byte) (t : byte) :
  (4 <= length h)%nat -> nth_error h 3 = Some t ->
  exists t0 t1 t2, firstn 4 h = [t0; t1; t2; t].
Proof.
  destruct h as [|t0 [|t1 [|t2 [|t3 tl]]]]; cbn [length]; try lia.
  intros _ [= <-]. exists t0, t1, t2. reflexivity.
Qed.

Lemma copy_nil (dst : list byte) : copy dst [] = dst.
Proof. unfold copy. rewrite firstn_nil. reflexivity. Qed.

Lemma copy_in_same (pre old post : list byte) (lo hi : nat) :
  lo = length pre -> hi = (lo + length old)%nat ->
  copy_in (pre ++ old ++ post) lo hi [] = copy_in (pre ++ old ++ post) lo hi old.
Proof.
  intros -> ->. rewrite (copy_in_mid pre old post old) by reflexivity.
  unfold copy_in. rewrite copy_nil.
  replace (length pre + length old - length pre)%nat with (length old) by lia.
  rewrite firstn_app, firstn_all, Nat.sub_diag. cbn [firstn]. rewrite app_nil_r.
  rewrite skipn_app, skipn_all, Nat.sub_diag. cbn [skipn app].
  rewrite firstn_app, firstn_all, Nat.sub_diag. cbn [firstn]. rewrite app_nil_r.
  rewrite (app_assoc pre old post).
  rewrite skipn_app, skipn_all2 by (rewrite length_app; lia).
  rewrite length_app.
  replace (length pre + length old - (length pre + length old))%nat
    with 0%nat by lia.
  cbn [skipn app]. rewrite <- app_assoc. reflexivity.
Qed.

(** Lines 212-217 for a destination with no name and a nil [ip]: the
    copy of the address copies nothing, and the address bytes of the
    template stay. *)
Lemma wrap_nameless (h4 h6 : list byte) (d : uAddr) (b : list byte) :
  length h6 = 22%nat -> ip d = None -> host d = [] ->
  wrap h4 h6 d b
  = Done (firstn 20 h6 ++ PutUint16_bytes (uint16 (port d)) ++ b ++ zeros 234,
          22).
Proof.
  intros H6 HI HH. unfold wrap. rewrite HI, HH.
  change (negb (len (@nil byte) =? 0)) with false.
  change (len (@nil byte) =? IPv4len) with false. cbv iota.
  assert (len h6 = 22) as L22 by (unfold len; rewrite H6; reflexivity).
  set (M := firstn 16 (skipn 4 h6)).
  assert (len M = 16) as LM
      by (unfold M, len; rewrite length_firstn, length_skipn; lia).
  pose proof (fill_template h6 M b 16 (uint16 (port d)) ltac:(lia) L22 LM) as F.
  cbv zeta in F |- *.
  change (4 + 16) with 20 in F. change (Z.to_nat 20) with 20%nat in F.
  change (250 - 16) with 234 in F.
  assert (firstn 4 h6 ++ M = firstn 20 h6) as E20.
  { unfold M. symmetry. apply (firstn_plus 4 16). }
  rewrite app_assoc, E20 in F. rewrite L22 in F |- *. rewrite <- F.
  (* the copy of nothing is the copy of what is there *)
  set (E := skipn 20 h6).
  assert (h6 = firstn 4 h6 ++ M ++ E) as EH.
  { unfold M, E. rewrite <- (firstn_skipn 4 h6) at 1. f_equal.
    rewrite <- (firstn_skipn 16 (skipn 4 h6)) at 1. f_equal.
    rewrite skipn_skipn. reflexivity. }
  assert (length (firstn 4 h6) = 4%nat) as L4 by (rewrite length_firstn; lia).
  assert (length E = 2%nat) as LE by (unfold E; rewrite length_skipn; lia).
  pose proof (len_nonneg b) as NB.
  assert (copy (zeros (len b + 256)) h6
          = firstn 4 h6 ++ M ++ (E ++ zeros (len b + 234))) as EX.
  { rewrite copy_prefix by (rewrite length_zeros; lia).
    rewrite EH at 1. rewrite <- !app_assoc. do 3 f_equal.
    rewrite H6. replace (len b + 256) with (22 + (len b + 234)) by lia.
    rewrite zeros_app by lia.
    rewrite skipn_app, skipn_all2 by (rewrite length_zeros; lia).
    rewrite length_zeros. reflexivity. }
  rewrite EX.
  rewrite (copy_in_same (firstn 4 h6) M (E ++ zeros (len b + 234)) 4 20)
    by (unfold len in LM; lia).
  reflexivity.
Qed.

(** X12: A destination with no name and a nil [ip], as [parseUDPHeader]
    returns for the domain header of an empty name, is not sent as a
    domain header: [write] takes the last branch and sends the first 20
    bytes of the IPv6 template, the port and the payload. With the IPv6
    address type in the template, the datagram is read back as an IPv6
    address, the one of the template, and never as the destination. *)
Theorem write_sends_a_nameless_destination_as_IPv6 (h4 h6 : list byte)
  (c : udpBridgeConn) (s : UDPConn) (b : list byte) (d : uAddr)
  (src : NetAddr) :
  length h6 = 22%nat ->
  socks c = true -> udpSrc c = Some src -> dst c = Some d ->
  ip d = None -> host d = [] ->
  hd false (faults s) = false ->
  let pkt := firstn 20 h6 ++ PutUint16_bytes (uint16 (port d)) ++ b in
  write h4 h6 c s b
  = (mkUDP (inbox s) (outbox s ++ [(Some src, pkt)]) (tl (faults s))
       (sock_closed s),
     Done (len b + 2, None))
  /\ (nth_error h6 3 = Some socksAddrIPv6 ->
      forall sp, exists m,
        p_out (parseUDPHeader None (Some (mkSlice pkt sp)) true)
        = Done (m, Some (mkAddr (Some (firstn 16 (skipn 4 h6))) []
                           (uint16 (port d)) 22), None)).
Proof.
  intros H6 HS HU HD HI HH HF pkt.
  pose proof (len_nonneg b) as NB.
  assert (len (firstn 20 h6) = 20) as L20
      by (unfold len; rewrite length_firstn; lia).
  split.
  - unfold write. rewrite HS, HU, HD, (wrap_nameless h4 h6 d b H6 HI HH).
    cbn [negb bind fst snd].
    rewrite slice_to_ok.
    2:{ rewrite !len_app, L20, len_zeros by lia.
        change (len (PutUint16_bytes (uint16 (port d)))) with 2. lia. }
    cbn [bind].
    replace (firstn (Z.to_nat (22 + len b))
               (firstn 20 h6 ++ PutUint16_bytes (uint16 (port d)) ++ b ++ zeros 234))
      with pkt.
    2:{ symmetry. unfold pkt. rewrite !app_assoc. apply firstn_exact_Z.
        rewrite !len_app, L20.
        change (len (PutUint16_bytes (uint16 (port d)))) with 2. lia. }
    unfold send.
    assert (len pkt = 22 + len b) as LP.
    { unfold pkt. rewrite !len_app, L20.
      change (len (PutUint16_bytes (uint16 (port d)))) with 2. lia. }
    destruct (faults s) as [|[|] f]; [|discriminate|];
      cbn [tl]; rewrite LP; do 2 f_equal; f_equal; lia.
  - intros T6 sp.
    destruct (firstn_4_template_any h6 socksAddrIPv6 ltac:(lia) T6)
      as (t0 & t1 & t2 & F4).
    exists t1.
    set (a6 := mkAddr (Some (firstn 16 (skipn 4 h6))) [] (uint16 (port d)) 22).
    assert (wf_addr a6) as W6.
    { split; [apply Z.mod_pos_bound; lia|]. cbn [ip a6 host size].
      assert (len (firstn 16 (skipn 4 h6)) = 16) as L16
          by (unfold len; rewrite length_firstn, length_skipn; lia).
      rewrite L16. split; [right; reflexivity | split; reflexivity]. }
    assert (pkt = header_bytes t0 t1 t2 a6 ++ b) as EP.
    { unfold pkt, header_bytes, a6. cbn [ip port].
      assert (len (firstn 16 (skipn 4 h6)) = 16) as L16
          by (unfold len; rewrite length_firstn, length_skipn; lia).
      rewrite L16. change (16 =? IPv4len) with false. cbv iota.
      change (firstn 20 h6) with (firstn (4 + 16) h6).
      rewrite (firstn_plus 4 16 h6), F4, <- !app_assoc. reflexivity. }
    rewrite EP. apply parse_header_bytes, W6.
Qed.

Lemma write_sends_a_nameless_destination_as_IPv6_witness :
  let pkt := firstn 20 template_IPv6
             ++ PutUint16_bytes (uint16 (port empty_domain)) ++ PING in
  write template_IPv4 template_IPv6
    (socks_fresh empty_domain (Some a_peer)) quiet_socket PING
  = (mkUDP (inbox quiet_socket) (outbox quiet_socket ++ [(Some a_peer, pkt)])
       (tl (faults quiet_socket)) (sock_closed quiet_socket),
     Done (len PING + 2, None))
  /\ (nth_error template_IPv6 3 = Some socksAddrIPv6 ->
      forall sp, exists m,
        p_out (parseUDPHeader None (Some (mkSlice pkt sp)) true)
        = Done (m, Some (mkAddr (Some (firstn 16 (skipn 4 template_IPv6))) []
                           (uint16 (port empty_domain)) 22), None)).
Proof.
  apply (write_sends_a_nameless_destination_as_IPv6
           template_IPv4 template_IPv6
           (socks_fresh empty_domain (Some a_peer)) quiet_socket PING
           empty_domain a_peer).
  - reflexivity.
  - reflexivity.
  - reflexivity.
  - reflexivity.
  - reflexivity.
  - reflexivity.
  - reflexivity.
Defined.

(** ** [uAddr]: the host as a string *)

Lemma has_colon_nonempty (s : list byte) :
  has_colon s = true -> exists h0 tl, s = h0 :: tl.
Proof. destruct s as [|h0 tl]; [discriminate | eauto]. Qed.

(** X5: [HostString] and [String] never panic: the index [a.host[0]] is
    read only for a name that holds a colon, which is not empty. For a
    name, the result of [HostString] is the name, put in brackets exactly
    when it holds a colon and does not begin with a bracket; so the host
    part of [String] begins with a bracket whenever the name holds a
    colon, and [String] is that host part, a colon and the port. *)
Theorem HostString_brackets_a_name_with_a_colon
  (IP_String : list byte -> list byte) (Itoa : Z -> list byte) (a : uAddr) :
  exists hs,
    HostString IP_String a = Done hs
    /\ String IP_String Itoa a = Done (hs ++ [x3a] ++ Itoa (port a))
    /\ (ip a = None ->
        (hs = host a \/ hs = [x5b] ++ host a ++ [x5d])
        /\ (hs = [x5b] ++ host a ++ [x5d]
            <-> has_colon (host a) = true /\ hd x00 (host a) <> x5b)
        /\ (has_colon (host a) = true -> hd x00 hs = x5b)).
Proof.
  unfold String, HostString. destruct (ip a) as [i|].
  - destruct (len i =? IPv4len); eexists;
      (split; [reflexivity|]); (split; [reflexivity|]); discriminate.
  - destruct (has_colon (host a)) eqn:HC.
    + destruct (has_colon_nonempty _ HC) as (h0 & tl & E). rewrite E in *.
      unfold index. change (nth_error (h0 :: tl) 0) with (Some h0).
      cbn [bind hd].
      destruct (Byte.eqb h0 x5b) eqn:EB; cbn [negb].
      * apply Byte.byte_dec_bl in EB. subst h0.
        eexists. split; [reflexivity|]. split; [reflexivity|]. intros _.
        split; [left; reflexivity|]. split; [|reflexivity].
        split.
        -- intros X. apply (f_equal (@length byte)) in X.
           rewrite !length_app in X. cbn [length] in X. lia.
        -- intros [_ N]. contradiction.
      * assert (h0 <> x5b) as N.
        { intros ->. revert EB. vm_compute. discriminate. }
        eexists. split; [reflexivity|]. split; [reflexivity|]. intros _.
        split; [right; reflexivity|]. split; [|reflexivity].
        split; [intros _; split; [reflexivity | exact N] | reflexivity].
    + cbn [bind]. eexists. split; [reflexivity|]. split; [reflexivity|].
      intros _. split; [left; reflexivity|]. split; [|discriminate].
      split.
      * intros X. apply (f_equal (@length byte)) in X.
        rewrite !length_app in X. cbn [length] in X. lia.
      * intros [X _]. discriminate.
Qed.

(** ** The shared store: chunks that are consecutive slices of one array *)

Module MemFacts.
Import Mem.

Section OneArray.

Variables h4 h6 : list byte.
Variable h : heap.
Variable w : nat.
Hypothesis w_in : (w < length h)%nat.

Lemma length_load (x : slice) : inb h w x -> length (load h x) = slen x.
Proof.
  intros (A & L & C). unfold load. rewrite A, length_firstn, length_skipn.
  lia.
Qed.

Lemma len_load (x : slice) : inb h w x -> len (load h x) = sl x.
Proof. intros I. unfold len, sl. rewrite (length_load x I). reflexivity. Qed.

Lemma inb_reslice (x : slice) (lo hi : nat) :
  inb h w x -> (lo <= hi <= slen x)%nat -> inb h w (reslice x lo hi).
Proof.
  intros (A & L & C) H. unfold inb, reslice. cbn [arr off slen scap].
  repeat split; try assumption; lia.
Qed.

Lemma load_reslice (x : slice) (lo hi : nat) :
  inb h w x -> (lo <= hi <= slen x)%nat ->
  load h (reslice x lo hi) = firstn (hi - lo) (skipn lo (load h x)).
Proof.
  intros (A & L & C) H. unfold load, reslice. cbn [arr off slen scap].
  rewrite skipn_firstn_comm, skipn_skipn, firstn_firstn.
  replace (Nat.min (hi - lo) (slen x - lo)) with (hi - lo)%nat by lia.
  replace (lo + off x)%nat with (off x + lo)%nat by lia. reflexivity.
Qed.

Lemma load_tail (x : slice) (lo : nat) :
  inb h w x -> (lo <= slen x)%nat ->
  load h (reslice x lo (slen x)) = skipn lo (load h x).
Proof.
  intros I H. rewrite load_reslice by (try assumption; lia).
  apply firstn_all2. rewrite length_skipn, (length_load x I). lia.
Qed.

Lemma load_head (x : slice) (hi : nat) :
  inb h w x -> (hi <= slen x)%nat ->
  load h (reslice x 0 hi) = firstn hi (load h x).
Proof.
  intros I H. rewrite load_reslice by (try assumption; lia).
  rewrite Nat.sub_0_r. reflexivity.
Qed.

Lemma set_array_same : set_array h w (array h w) = h.
Proof.
  unfold set_array, array.
  rewrite <- (firstn_skipn w h) at 4.
  f_equal. generalize w_in. clear. revert w.
  induction h as [|a l IH]; intros w L; [simpl in L; lia|].
  destruct w as [|w]; [reflexivity|]. cbn [nth skipn]. apply IH.
  simpl in L. lia.
Qed.

(** Writing over a part of an array the bytes that are there. *)
Lemma copy_at_same (A : list byte) (p k : nat) :
  (p + k <= length A)%nat -> copy_at A p (firstn k (skipn p A)) = A.
Proof.
  intros L. unfold copy_at.
  rewrite copy_prefix
    by (rewrite length_firstn, !length_skipn; lia).
  rewrite length_firstn, length_skipn.
  replace (Nat.min k (length A - p)) with k by lia.
  rewrite firstn_skipn. apply firstn_skipn.
Qed.

(** Appending to [x] the first [k] bytes of the slice that follows it in
    the array is done in place and changes nothing in the store. *)
Lemma append_adjacent (x b : slice) (k : nat) :
  adjacent h w x b -> inb h w b -> (k <= slen b)%nat ->
  append h (Some x) (firstn k (load h b))
  = (h, Some (mkS w (off x) (slen x + k) (scap x)))
  /\ load h (mkS w (off x) (slen x + k) (scap x))
     = load h x ++ firstn k (load h b).
Proof.
  intros [(Ax & Lx & Cx) Adj] (Ab & Lb & Cb) Hk.
  assert (length (firstn k (load h b)) = k) as LK
      by (rewrite length_firstn, (length_load b (conj Ab (conj Lb Cb))); lia).
  split.
  - unfold append. rewrite LK.
    replace (slen x + k <=? scap x)%nat with true
      by (symmetry; apply Nat.leb_le; lia).
    rewrite Ax. f_equal.
    unfold load at 1. rewrite Ab, firstn_firstn.
    replace (Nat.min k (slen b)) with k by lia.
    rewrite Adj, copy_at_same by lia.
    apply set_array_same.
  - unfold load. cbn [arr off slen]. rewrite Ax, Ab.
    rewrite firstn_firstn. replace (Nat.min k (slen b)) with k by lia.
    rewrite <- Adj.
    rewrite <- (firstn_skipn (slen x)
                  (firstn (slen x + k) (skipn (off x) (array h w)))).
    rewrite firstn_firstn, skipn_firstn_comm, skipn_skipn.
    replace (Nat.min (slen x) (slen x + k)) with (slen x) by lia.
    replace (slen x + k - slen x)%nat with k by lia.
    replace (slen x + off x)%nat with (off x + slen x)%nat by lia.
    reflexivity.
Qed.

Lemma osim_deferred (p : nat) (b : slice) o mo :
  inb h w b -> osim h w p o mo ->
  osim h w p (option_map (deferred (load h b)) o) (option_map (mdeferred b) mo).
Proof.
  intros I. destruct o as [r|], mo as [mr|]; cbn [osim option_map]; auto.
  intros (H1 & H2 & H3 & H4 & H5). unfold sim, deferred, mdeferred.
  rewrite H4, (len_load b I).
  destruct (w_out r) as [[k [e|]]|q] eqn:E; cbn [m_heap m_state m_sock m_out
    w_conn w_sock w_out]; repeat split; try assumption; try apply H5;
    congruence.
Qed.

Lemma write_abs (mc : mconn) (s : UDPConn) (payload : list byte) :
  write h4 h6 (abs h mc) s payload = write h4 h6 (m_conn mc) s payload.
Proof. apply write_cong; reflexivity. Qed.

Lemma sim_intro (p : nat) c' s' o mc' :
  abs h mc' = c' -> ready_at h w mc' p ->
  sim h w p (mkWrite c' s' o) (mkM h mc' s' o).
Proof. intros A R. unfold sim. cbn. auto. Qed.

Lemma ready_idle (mc : mconn) (p : nat) :
  wm_remain (m_conn mc) <= 0 -> ready_at h w mc p.
Proof. intros H. split; [intros _; exact H | intros P; lia]. Qed.

Lemma TEST_sim rec mrec (mc : mconn) (s : UDPConn) (bv : list byte)
  (b buf : slice) (ln : Z) :
  rec_sim h w rec mrec ->
  inb h w buf -> len bv = sl b ->
  incompleteLen (m_conn mc) = false -> wm_remain (m_conn mc) <= 0 ->
  osim h w (off buf + slen buf)
    (Write_TEST h4 h6 rec (abs h mc) s bv ln (load h buf))
    (mTEST h4 h6 mrec h mc s b ln buf).
Proof.
  intros HR IB LB HI HRem. unfold Write_TEST, mTEST.
  rewrite (len_load buf IB), LB.
  destruct (Z.ltb_spec (sl buf) ln) as [Short|NShort].
  { cbn [osim]. apply sim_intro.
    - unfold abs. destruct (m_conn mc). reflexivity.
    - split; cbn [m_conn m_buf].
      + destruct (m_conn mc). cbn in *. rewrite HI. discriminate.
      + intros _. exists buf. repeat split; apply IB. }
  destruct (Z.eqb_spec (sl buf) ln) as [Exact|NExact].
  { cbn [osim]. unfold return_write, mreturn_write. rewrite write_abs.
    destruct (write h4 h6 (m_conn mc) s (load h buf)) as [s1 o].
    apply sim_intro; [reflexivity | apply ready_idle, HRem]. }
  assert (Z.to_nat ln <= slen buf)%nat as Lk by (unfold sl in *; lia).
  rewrite write_abs, (load_head buf _ IB Lk).
  destruct (write h4 h6 (m_conn mc) s _) as [s1 [[k [e|]]|q]].
  - cbn [osim]. apply sim_intro; [reflexivity | apply ready_idle, HRem].
  - rewrite <- (load_tail buf _ IB Lk).
    pose proof (HR mc s1 (reslice buf (Z.to_nat ln) (slen buf))
                  (inb_reslice _ _ _ IB (conj Lk (Nat.le_refl _)))) as Rec.
    cbn [off slen reslice] in Rec.
    replace (off buf + Z.to_nat ln + (slen buf - Z.to_nat ln))%nat
      with (off buf + slen buf)%nat in Rec by lia.
    apply Rec. apply ready_idle, HRem.
  - cbn [osim]. apply sim_intro; [reflexivity | apply ready_idle, HRem].
Qed.

Lemma parse_sim rec mrec (mc : mconn) (s : UDPConn) (b : slice) :
  rec_sim h w rec mrec ->
  inb h w b ->
  incompleteLen (m_conn mc) = false -> wm_remain (m_conn mc) <= 0 ->
  osim h w (off b + slen b)
    (Write_parse h4 h6 rec (abs h mc) s (load h b))
    (mparse h4 h6 mrec h mc s b).
Proof.
  intros HR IB HI HRem. unfold Write_parse, mparse.
  rewrite (len_load b IB).
  destruct (Z.eqb_spec (sl b) 1) as [One|NOne].
  { cbn [osim]. apply sim_intro.
    - unfold abs. destruct (m_conn mc). reflexivity.
    - split; cbn [m_conn m_buf].
      + intros _. destruct (m_conn mc). exact HRem.
      + destruct (m_conn mc). cbn in *. intros P. lia. }
  pose proof (length_load b IB) as LL.
  destruct (load h b) as [|b0 [|b1 tl]] eqn:EL; cbn [Uint16_of].
  - cbn [osim]. apply sim_intro; [reflexivity | apply ready_idle, HRem].
  - cbn [osim]. apply sim_intro; [reflexivity | apply ready_idle, HRem].
  - cbn [length] in LL.
    replace (2 <=? slen b)%nat with true by (symmetry; apply Nat.leb_le; lia).
    unfold slice_from.
    replace ((0 <=? 2) && (2 <=? len (b0 :: b1 :: tl))) with true
      by (symmetry; apply andb_true_iff; split; apply Z.leb_le;
          unfold len; cbn [length]; lia).
    change (Z.to_nat 2) with 2%nat. cbn [skipn].
    assert (2 <= slen b)%nat as L2 by lia.
    pose proof (load_tail b 2 IB L2) as LT. rewrite EL in LT. cbn [skipn] in LT.
    pose proof (TEST_sim rec mrec mc s (b0 :: b1 :: tl) b
                  (reslice b 2 (slen b)) (Uint16 b0 b1) HR
                  (inb_reslice _ _ _ IB (conj L2 (Nat.le_refl _)))) as T.
    cbn [off slen reslice] in T.
    replace (off b + 2 + (slen b - 2))%nat with (off b + slen b)%nat in T by lia.
    rewrite LT in T. apply T; [unfold len, sl; cbn [length]; lia | exact HI | exact HRem].
Qed.

Lemma osim_deferred_len (p : nat) (b : slice) (bv : list byte) o mo :
  len bv = sl b -> osim h w p o mo ->
  osim h w p (option_map (deferred bv) o) (option_map (mdeferred b) mo).
Proof.
  intros L. destruct o as [r|], mo as [mr|]; cbn [osim option_map]; auto.
  intros (H1 & H2 & H3 & H4 & H5). unfold sim, deferred, mdeferred.
  rewrite H4, L.
  destruct (w_out r) as [[k [e|]]|q] eqn:E; cbn [m_heap m_state m_sock m_out
    w_conn w_sock w_out]; repeat split; try assumption; try apply H5;
    congruence.
Qed.

Lemma body_sim rec mrec (mc : mconn) (s : UDPConn) (b : slice) :
  rec_sim h w rec mrec ->
  inb h w b -> ready_at h w mc (off b) ->
  osim h w (off b + slen b)
    (Write_body h4 h6 rec (abs h mc) s (load h b))
    (mbody h4 h6 mrec h mc s b).
Proof.
  intros HR IB [RI RW]. unfold Write_body, mbody.
  pose proof (len_load b IB) as LL. pose proof (length_load b IB) as LN.
  rewrite LL.
  destruct (Z.eqb_spec (sl b) 0) as [Z0|NZ].
  { cbn [osim option_map]. unfold deferred, mdeferred. cbn. rewrite LL.
    apply sim_intro; [reflexivity|].
    replace (off b + slen b)%nat with (off b) by (unfold sl in Z0; lia).
    split; assumption. }
  replace (incompleteLen (abs h mc)) with (incompleteLen (m_conn mc)) by abs_eq.
  destruct (incompleteLen (m_conn mc)) eqn:HI.
  { specialize (RI eq_refl).
    set (mc1 := upd mc (fun c => set_incompleteLen c false)).
    assert (abs h mc1 = set_incompleteLen (abs h mc) false) as A1 by abs_eq.
    rewrite <- A1.
    replace (wm_buf (abs h mc1)) with (load_opt h (m_buf mc1)) by abs_eq.
    assert (wm_remain (m_conn mc1) <= 0) as R1
        by (unfold mc1; cbn; destruct (m_conn mc); exact RI).
    destruct (index (load_opt h (m_buf mc1)) 0) as [h0|q].
    - destruct (load h b) as [|b0 rest] eqn:EL.
      + cbn [osim]. apply sim_intro; [reflexivity | apply ready_idle, R1].
      + apply osim_deferred_len; [exact LL|].
        cbn [length] in LN. assert (1 <= slen b)%nat as L1 by lia.
        pose proof (load_tail b 1 IB L1) as LT. rewrite EL in LT. cbn [skipn] in LT.
        pose proof (TEST_sim rec mrec mc1 s (b0 :: rest) b
                      (reslice b 1 (slen b)) (Uint16 h0 b0) HR
                      (inb_reslice _ _ _ IB (conj L1 (Nat.le_refl _)))) as T.
        cbn [off slen reslice] in T.
        replace (off b + 1 + (slen b - 1))%nat with (off b + slen b)%nat in T by lia.
        rewrite LT in T. apply T; [exact LL | | exact R1].
        unfold mc1. cbn. destruct (m_conn mc). reflexivity.
    - cbn [osim]. destruct (load h b); apply sim_intro;
        try reflexivity; apply ready_idle, R1. }
  replace (wm_remain (abs h mc)) with (wm_remain (m_conn mc)) by abs_eq.
  destruct (Z.ltb_spec 0 (wm_remain (m_conn mc))) as [Pos|NPos].
  2:{ apply osim_deferred; [exact IB|]. apply parse_sim; assumption. }
  destruct (RW Pos) as (x & EX & IX & AX).
  set (remain := wm_remain (m_conn mc)) in *.
  set (mc1 := upd mc (fun c => set_wm_remain c (wm_remain c - sl b))).
  assert (abs h mc1 = set_wm_remain (abs h mc) (remain - sl b)) as A1
      by (unfold remain; abs_eq).
  rewrite <- A1.
  assert (wm_remain (m_conn mc1) = remain - sl b) as R1
      by (unfold mc1, remain; cbn; destruct (m_conn mc); reflexivity).
  assert (incompleteLen (m_conn mc1) = false) as I1
      by (unfold mc1; cbn; destruct (m_conn mc); exact HI).
  assert (m_buf mc1 = Some x) as B1 by exact EX.
  replace (wm_remain (abs h mc1)) with (remain - sl b)
    by (rewrite <- R1; abs_eq).
  replace (wm_buf (abs h mc1)) with (load h x)
    by (unfold abs; rewrite B1; destruct (m_conn mc1); reflexivity).
  rewrite R1, B1.
  assert (adjacent h w x b) as ADJ by (split; assumption).
  destruct (append_adjacent x b (slen b) ADJ IB (Nat.le_refl _)) as [AP LA].
  rewrite firstn_all2 in AP, LA by lia.
  destruct (Z.eqb_spec (remain - sl b) 0) as [E0|N0].
  { rewrite AP. cbn [load_opt]. rewrite LA.
    refine (osim_deferred _ b (Some _) (Some _) IB _). cbn [osim].
    unfold return_write, mreturn_write. rewrite write_abs.
    destruct (write h4 h6 (m_conn mc1) s _) as [s1 o].
    apply sim_intro; [reflexivity | apply ready_idle; lia]. }
  destruct (Z.ltb_spec 0 (remain - sl b)) as [More|Over].
  { rewrite AP. cbn [osim option_map]. unfold deferred, mdeferred. cbn. rewrite LL.
    apply sim_intro.
    - unfold abs, mc1, upd. cbn [m_conn m_buf load_opt]. rewrite LA.
      destruct (m_conn mc). reflexivity.
    - split; cbn [m_conn m_buf];
        [unfold mc1, upd in I1; cbn [m_conn] in I1; rewrite I1; discriminate|].
      intros _. eexists. split; [reflexivity|].
      destruct IX as (A & L & C), IB as (Ab & Lb & Cb).
      repeat split; cbn [arr off slen scap]; try assumption; lia. }
  assert (Z.to_nat remain <= slen b)%nat as Lk by (unfold sl in *; lia).
  destruct (append_adjacent x b (Z.to_nat remain) ADJ IB Lk) as [AP2 LA2].
  rewrite (load_head b _ IB Lk), AP2. cbn [load_opt]. rewrite LA2, write_abs.
  assert (wm_remain (m_conn mc1) <= 0) as RN by (rewrite R1; lia).
  destruct (write h4 h6 (m_conn mc1) s _) as [s1 [[k [e|]]|q]].
  - cbn [osim]. apply sim_intro; [reflexivity | apply ready_idle, RN].
  - rewrite <- (load_tail b _ IB Lk).
    set (b' := reslice b (Z.to_nat remain) (slen b)).
    assert (inb h w b') as IB' by (apply inb_reslice; [exact IB | lia]).
    replace (off b + slen b)%nat with (off b' + slen b')%nat
      by (unfold b'; cbn [off slen reslice]; lia).
    apply osim_deferred; [exact IB'|].
    apply parse_sim; assumption.
  - cbn [osim]. apply sim_intro; [reflexivity | apply ready_idle, RN].
Qed.

Lemma fuel_sim (fuel : nat) :
  rec_sim h w (Write_fuel h4 h6 fuel) (mWrite_fuel h4 h6 fuel).
Proof.
  induction fuel as [|fuel IH]; intros mc s b IB R;
    cbn [Write_fuel mWrite_fuel].
  - exact I.
  - apply body_sim; assumption.
Qed.

(** One [Write] on a slice of the array, by a writer whose kept buffer
    ends where the slice begins: the store is left as it was, and the
    result is the result of the value model on the bytes of the slice. *)
Lemma mWrite_sim (mc : mconn) (s : UDPConn) (b : slice) :
  inb h w b -> ready_at h w mc (off b) ->
  osim h w (off b + slen b)
    (Write h4 h6 (abs h mc) s (load h b)) (mWrite h4 h6 h mc s b).
Proof.
  intros IB R. unfold Write, mWrite. rewrite (length_load b IB).
  apply fuel_sim; assumption.
Qed.

Lemma mWrites_sim (pieces : list slice) :
  forall (p : nat) (mc : mconn) (s : UDPConn),
    consecutive h w p pieces -> ready_at h w mc p ->
    match Writes h4 h6 (abs h mc) s (map (load h) pieces),
          mWrites h4 h6 h mc s pieces with
    | Some (c', s'), Some (h', mc', s'') =>
        h' = h /\ abs h mc' = c' /\ s'' = s'
    | None, None => True
    | _, _ => False
    end.
Proof.
  induction pieces as [|b bs IH]; intros p mc s HC HR.
  - cbn. auto.
  - destruct HC as (IB & <- & HC). cbn [map Writes mWrites].
    pose proof (mWrite_sim mc s b IB HR) as S.
    destruct (Write h4 h6 (abs h mc) s (load h b)) as [r|],
             (mWrite h4 h6 h mc s b) as [mr|]; cbn [osim] in S;
      try contradiction; [|exact I].
    destruct S as (H1 & H2 & H3 & H4 & H5). rewrite H4.
    destruct (w_out r) as [[k [e|]]|q]; auto.
    rewrite H1, <- H2, H3. apply (IH (off b + slen b)%nat); assumption.
Qed.

End OneArray.

(** The pieces of a frame in the store: the wire bytes of the frame lie
    in one array and the pieces are consecutive slices of it, as
    [wire[i:j]] are. Written in order from the idle state, they leave the
    store as it was and the socket as the emission of the payload leaves
    it. *)
Lemma mWrites_pieces_of_frame (h4 h6 : list byte) (h : heap) (w : nat)
  (mc : mconn) (s : UDPConn) (payload : list byte) (pieces : list slice) :
  (w < length h)%nat ->
  state_of (m_conn mc) = Idle ->
  len payload < 65536 ->
  consecutive h w 0 pieces ->
  concat (map (load h) pieces) = frame payload ->
  exists mc',
    mWrites h4 h6 h mc s pieces
    = Some (h, mc', fst (write h4 h6 (m_conn mc) s payload)).
Proof.
  intros Hw HI HL HC HP.
  assert (state_of (abs h mc) = Idle) as HI'
      by (unfold abs; destruct (m_conn mc); exact HI).
  destruct (Writes_of_frame h4 h6 (abs h mc) s payload
              (map (load h) pieces) HI' HL HP) as (c' & EW).
  destruct (state_idle_inv _ HI) as [_ HR].
  pose proof (mWrites_sim h4 h6 h w Hw pieces 0%nat mc s HC
                (ready_idle h w Hw mc 0%nat HR)) as S.
  rewrite EW in S.
  destruct (mWrites h4 h6 h mc s pieces) as [[[h' mc'] s']|]; [|contradiction].
  destruct S as (-> & _ & ->). exists mc'.
  rewrite write_abs. reflexivity.
Qed.

(** What the model of values leaves out: a caller that reuses its buffer.
    The first length byte [0] is written from a one-byte array, which the
    writer keeps; the caller then puts the second length byte [1] in the
    same array and writes it: the length is read as [0x0101], not 1. *)
Lemma reused_buffer_corrupts_length (h4 h6 : list byte) :
  let one := mkS 0 0 1 1 in
  let mc0 := mkMC idle_raw None in
  exists r1 r2,
    mWrite h4 h6 [[x00]] mc0 quiet_socket one = Some r1
    /\ m_buf (m_state r1) = Some one
    /\ mWrite h4 h6 [[x01]] (m_state r1) (m_sock r1) one = Some r2
    /\ state_of (m_conn (m_state r2)) = AwaitingPayload 257
    /\ exists v1 v2,
         Write h4 h6 idle_raw quiet_socket [x00] = Some v1
         /\ Write h4 h6 (w_conn v1) (w_sock v1) [x01] = Some v2
         /\ state_of (w_conn v2) = AwaitingPayload 1.
Proof.
  cbv zeta. eexists. eexists.
  split; [vm_compute; reflexivity|]. split; [reflexivity|].
  split; [vm_compute; reflexivity|]. split; [reflexivity|].
  eexists. eexists. split; [vm_compute; reflexivity|].
  split; [vm_compute; reflexivity | reflexivity].
Qed.

(** *** The stream in the store, and a buffer that is used again *)

Lemma same_link_abs (h : heap) (mc : mconn) : same_link (m_conn mc) (abs h mc).
Proof. unfold abs. destruct (m_conn mc). repeat split. Qed.

(** X22: The stream in the store: the chunks are consecutive slices of one
    array, as [wire[i:j]] are, and the writer keeps references into it.
    Written in order from the idle state, with each payload of the complete
    frames of the stream sent by [write] without error, they leave the
    store as it was (what the writer appends in place to the slice it
    keeps is what the array holds there already), the socket as these
    emissions leave it, and a writer that holds the bytes of the
    incomplete frame that ends the stream. *)
Theorem mWrites_follow_the_stream (h4 h6 : list byte) (h : heap) (w : nat)
  (mc : mconn) (s s' : UDPConn) (p : nat) (pieces : list slice) :
  (w < length h)%nat ->
  state_of (m_conn mc) = Idle ->
  consecutive h w p pieces ->
  write_each h4 h6 (m_conn mc) s
    (fst (wire_frames (concat (map (load h) pieces)))) = Some s' ->
  exists mc',
    mWrites h4 h6 h mc s pieces = Some (h, mc', s')
    /\ pending (abs h mc')
         (snd (wire_frames (concat (map (load h) pieces)))).
Proof.
  intros Hw HI HC HE.
  assert (state_of (abs h mc) = Idle) as HI'
      by (unfold abs; destruct (m_conn mc); exact HI).
  rewrite <- (write_each_cong h4 h6 (m_conn mc) (abs h mc) s _
                (same_link_abs h mc)) in HE.
  destruct (Writes_stream h4 h6 (map (load h) pieces) (abs h mc) s s' []
              (fst (wire_frames (concat (map (load h) pieces))))
              (snd (wire_frames (concat (map (load h) pieces)))) HI')
    as (c' & EW & HP & _); [apply surjective_pairing | exact HE |].
  destruct (state_idle_inv _ HI) as [_ HR].
  pose proof (mWrites_sim h4 h6 h w Hw pieces p mc s HC
                (ready_idle h w Hw mc p HR)) as S.
  rewrite EW in S.
  destruct (mWrites h4 h6 h mc s pieces) as [[[h' mc'] s'']|]; [|contradiction].
  destruct S as (-> & EA & ->). exists mc'.
  split; [reflexivity|]. rewrite EA. exact HP.
Qed.

Lemma mWrites_follow_the_stream_witness :
  let h := [bytes_of_nats [0; 1; 7; 0; 0; 0; 2; 8]%nat] in
  let pieces := [mkS 0 0 1 8; mkS 0 1 3 7; mkS 0 4 4 4] in
  exists mc',
    mWrites [] [] h (mkMC idle_raw None) quiet_socket pieces
    = Some (h, mc',
            mkUDP [] [(None, bytes_of_nats [7]%nat); (None, [])] [] false)
    /\ pending (abs h mc')
         (snd (wire_frames (concat (map (load h) pieces)))).
Proof.
  apply (mWrites_follow_the_stream [] []
           [bytes_of_nats [0; 1; 7; 0; 0; 0; 2; 8]%nat] 0
           (mkMC idle_raw None) quiet_socket
           (mkUDP [] [(None, bytes_of_nats [7]%nat); (None, [])] [] false)
           0 [mkS 0 0 1 8; mkS 0 1 3 7; mkS 0 4 4 4]).
  - simpl. lia.
  - reflexivity.
  - simpl. unfold inb. simpl. repeat split; lia.
  - reflexivity.
Defined.

Lemma array_set_array (h : heap) (a : nat) (v : list byte) :
  (a < length h)%nat -> array (set_array h a v) a = v.
Proof.
  intros L. unfold array, set_array.
  rewrite app_nth2 by (rewrite length_firstn; lia).
  rewrite length_firstn. replace (a - Nat.min a (length h))%nat with 0%nat by lia.
  reflexivity.
Qed.

Lemma array_fresh (h : heap) (v : list byte) : array (h ++ [v]) (length h) = v.
Proof.
  unfold array. rewrite app_nth2 by lia. rewrite Nat.sub_diag. reflexivity.
Qed.

(** What [append] returns holds the bytes of the slice, as the store has
    them, followed by the bytes appended, in place or in a fresh array. *)
Lemma load_append (h : heap) (x : slice) (ys : list byte) :
  (arr x < length h)%nat ->
  (slen x <= scap x)%nat ->
  (off x + scap x <= length (array h (arr x)))%nat ->
  load_opt (fst (append h (Some x) ys)) (snd (append h (Some x) ys))
  = load h x ++ ys.
Proof.
  intros La Ls Lc. unfold append.
  assert (length (load h x) = slen x) as LL
      by (unfold load; rewrite length_firstn, length_skipn; lia).
  destruct (Nat.leb_spec (slen x + length ys) (scap x)) as [Fits|Over];
    cbn [fst snd load_opt].
  - unfold load at 1. cbn [arr off slen].
    rewrite array_set_array by exact La.
    set (A := array h (arr x)) in *.
    rewrite copy_at_fits by lia.
    rewrite (firstn_plus (off x) (slen x) A), <- app_assoc.
    rewrite (skipn_more (firstn (off x) A) _ _ 0)
      by (rewrite length_firstn; lia).
    cbn [skipn]. rewrite app_assoc.
    rewrite firstn_exact by (rewrite length_app, length_firstn, length_skipn; lia).
    reflexivity.
  - unfold load at 1. cbn [arr off slen]. rewrite array_fresh.
    cbn [skipn]. apply firstn_all2. rewrite length_app. lia.
Qed.

(** X23: What the model of values leaves out, in general: the writer keeps a
    reference to the payload bytes of an incomplete frame, not the bytes.
    A chunk that holds the length of a frame and a part of its payload is
    accepted from the idle state, and the writer keeps the slice of the
    payload part. When a later chunk completes the frame, the payload sent
    is made of the bytes that the kept slice holds in the store at that
    time, followed by the chunk: a caller that has put anything else in its
    buffer between the two calls gets those bytes sent. [h1] is the store
    at the first call and [h2], any store, the store at the second. *)
Theorem mWrite_sends_the_kept_slice_as_it_is_now (h4 h6 : list byte)
  (h1 h2 : heap) (mc : mconn) (s : UDPConn) (b1 b2 : slice)
  (g0 g1 : byte) (part : list byte) :
  state_of (m_conn mc) = Idle ->
  load h1 b1 = g0 :: g1 :: part ->
  slen b1 = (2 + length part)%nat ->
  len part < Uint16 g0 g1 ->
  sl b2 = Uint16 g0 g1 - len part ->
  (arr b1 < length h2)%nat ->
  (slen b1 <= scap b1)%nat ->
  (off b1 + scap b1 <= length (array h2 (arr b1)))%nat ->
  let kept := reslice b1 2 (slen b1) in
  exists r1 r2,
    mWrite h4 h6 h1 mc s b1 = Some r1
    /\ m_out r1 = Done (sl b1, None)
    /\ m_buf (m_state r1) = Some kept
    /\ mWrite h4 h6 h2 (m_state r1) (m_sock r1) b2 = Some r2
    /\ m_sock r2
       = fst (write h4 h6 (m_conn mc) s (load h2 kept ++ load h2 b2)).
Proof.
  intros HI EL1 SL1 LP SL2 La Ls Lc kept.
  destruct (state_idle_inv _ HI) as [HIL HRm].
  pose proof (len_nonneg part) as NP.
  assert (sl b1 = 2 + len part) as SB1 by (unfold sl, len; lia).
  assert (sl kept = len part) as SK
      by (unfold sl, kept, len; cbn [slen reslice]; lia).
  (* the first call *)
  assert (mWrite h4 h6 h1 mc s b1
          = Some (mkM h1 (mkMC (set_wm_remain (m_conn mc) (Uint16 g0 g1 - len part))
                            (Some kept)) s (Done (sl b1, None)))) as E1.
  { unfold mWrite. cbn [mWrite_fuel]. unfold mbody.
    replace (sl b1 =? 0) with false by (symmetry; apply Z.eqb_neq; lia).
    rewrite HIL.
    replace (0 <? wm_remain (m_conn mc)) with false
      by (symmetry; apply Z.ltb_ge; lia).
    unfold mparse.
    replace (sl b1 =? 1) with false by (symmetry; apply Z.eqb_neq; lia).
    rewrite EL1. cbn [Uint16_of].
    replace (2 <=? slen b1)%nat with true by (symmetry; apply Nat.leb_le; lia).
    unfold mTEST. fold kept. rewrite SK.
    replace (len part <? Uint16 g0 g1) with true
      by (symmetry; apply Z.ltb_lt; lia).
    cbn [option_map]. unfold mdeferred. cbn [m_out m_heap m_state m_sock].
    reflexivity. }
  set (mc1 := mkMC (set_wm_remain (m_conn mc) (Uint16 g0 g1 - len part))
                (Some kept)) in *.
  (* the second call *)
  assert (exists r2,
            mWrite h4 h6 h2 mc1 s b2 = Some r2
            /\ m_sock r2
               = fst (write h4 h6 (m_conn mc) s (load h2 kept ++ load h2 b2)))
    as (r2 & E2 & ES).
  { unfold mWrite. cbn [mWrite_fuel]. unfold mbody, mc1.
    cbn [m_conn upd incompleteLen wm_remain set_wm_remain m_buf].
    replace (sl b2 =? 0) with false by (symmetry; apply Z.eqb_neq; lia).
    rewrite HIL.
    replace (0 <? Uint16 g0 g1 - len part) with true
      by (symmetry; apply Z.ltb_lt; lia).
    replace (Uint16 g0 g1 - len part - sl b2 =? 0) with true
      by (symmetry; apply Z.eqb_eq; lia).
    pose proof (load_append h2 kept (load h2 b2)) as LA.
    destruct (append h2 (Some kept) (load h2 b2)) as [h' x'].
    cbn [fst snd] in LA. eexists. split; [reflexivity|].
    unfold mreturn_write. cbn [m_conn].
    rewrite LA by (unfold kept; cbn [arr off slen scap reslice]; lia).
    assert (forall p, write h4 h6
                        (set_wm_remain (set_wm_remain (m_conn mc) (Uint16 g0 g1 - len part))
                           (Uint16 g0 g1 - len part - sl b2)) s p
                      = write h4 h6 (m_conn mc) s p) as WC
        by (intros p; apply write_cong; reflexivity).
    rewrite WC.
    destruct (write h4 h6 (m_conn mc) s (load h2 kept ++ load h2 b2)) as [s1 o].
    unfold mdeferred. cbn [m_out]. destruct o as [[k [e|]]|q]; reflexivity. }
  exists (mkM h1 mc1 s (Done (sl b1, None))), r2.
  split; [exact E1|]. cbn [m_out m_state m_buf m_sock mc1].
  split; [reflexivity|]. split; [reflexivity|].
  split; [exact E2 | exact ES].
Qed.

Lemma mWrite_sends_the_kept_slice_as_it_is_now_witness :
  let h1 := [bytes_of_nats [0; 3; 7; 8]%nat] in
  let h2 := [bytes_of_nats [9; 1; 1; 1]%nat] in
  let kept := reslice (mkS 0 0 4 4) 2 (slen (mkS 0 0 4 4)) in
  exists r1 r2,
    mWrite [] [] h1 (mkMC idle_raw None) quiet_socket (mkS 0 0 4 4) = Some r1
    /\ m_out r1 = Done (sl (mkS 0 0 4 4), None)
    /\ m_buf (m_state r1) = Some kept
    /\ mWrite [] [] h2 (m_state r1) (m_sock r1) (mkS 0 0 1 4) = Some r2
    /\ m_sock r2
       = fst (write [] [] (m_conn (mkMC idle_raw None)) quiet_socket
                (load h2 kept ++ load h2 (mkS 0 0 1 4))).
Proof.
  apply (mWrite_sends_the_kept_slice_as_it_is_now [] []
           [bytes_of_nats [0; 3; 7; 8]%nat] [bytes_of_nats [9; 1; 1; 1]%nat]
           (mkMC idle_raw None) quiet_socket (mkS 0 0 4 4) (mkS 0 0 1 4)
           x00 x03 (bytes_of_nats [7; 8]%nat)).
  - reflexivity.
  - reflexivity.
  - reflexivity.
  - reflexivity.
  - reflexivity.
  - simpl. lia.
  - simpl. lia.
  - simpl. lia.
Defined.

End MemFacts.
